(** * ThumbForge: transcript resolver, provider client, face analyzer and
      thumbnail generator

    A shallow embedding of the TypeScript sources
    [lib/video-analyzer.ts], [lib/openrouter.ts], [lib/face-analyzer.ts],
    [lib/thumbnail-generator.ts] and the handlers of [app/api/analyze],
    [app/api/generate], [app/api/face-analyze] and
    [app/api/text-suggestions], followed by the properties of the
    specification stated over it and by further properties of the code.

    JavaScript strings are sequences of UTF-16 code units; [length] is the
    [.length] of the source.  Asynchronous calls are modelled in a state and
    error monad over a trace of external events; the outside world (network,
    child processes, the transcript library, the clock) is a record of
    oracles indexed by the number of external calls made so far. *)

From Stdlib Require Import Ascii String DecimalString.
From Stdlib Require Import NArith ZArith QArith Bool Arith Lia List.
From Stdlib Require DecimalPos DecimalN.
Import ListNotations.

(* ================================================================== *)
(** ** JavaScript strings *)

Module JsString.

(** A string value: the list of its UTF-16 code units. *)
Definition jsstring := list N.

(** Decoding of the UTF-8 bytes of a literal of this file into code units
    (characters of the Basic Multilingual Plane: one, two or three bytes). *)
Fixpoint utf8_units (pending : nat) (acc : N) (bytes : list N) : jsstring :=
  match bytes with
  | [] => []
  | b :: rest =>
      match pending with
      | O =>
          if (b <? 128)%N then b :: utf8_units 0 0 rest
          else if (b <? 224)%N then utf8_units 1 (b mod 32) rest
          else utf8_units 2 (b mod 16) rest
      | S O => (acc * 64 + b mod 64)%N :: utf8_units 0 0 rest
      | S p => utf8_units p (acc * 64 + b mod 64) rest
      end
  end.

(** [js "lit"] is the string value of the source literal ["lit"]. *)
Definition js (s : string) : jsstring :=
  utf8_units 0 0 (map N_of_ascii (list_ascii_of_string s)).

(** Source literals that contain the double-quote character are written
    with [^] in its place (no literal of the sources uses [^]). *)
Definition tpl (s : string) : jsstring :=
  map (fun c => if (c =? 94)%N then 34%N else c) (js s).

Arguments js s%_string.
Arguments tpl s%_string.

Definition str_eqb (a b : jsstring) : bool :=
  if list_eq_dec N.eq_dec a b then true else false.

(** Truthiness of a string: [""] is falsy. *)
Definition truthy (s : jsstring) : bool :=
  match s with [] => false | _ => true end.

(** [a || b] on strings. *)
Definition or_else (a b : jsstring) : jsstring :=
  if truthy a then a else b.

(** [Array.prototype.join]. *)
Fixpoint join (sep : jsstring) (parts : list jsstring) : jsstring :=
  match parts with
  | [] => []
  | [p] => p
  | p :: rest => p ++ sep ++ join sep rest
  end.

(** [String.prototype.substring(0, n)]. *)
Definition substring0 (n : nat) (s : jsstring) : jsstring := firstn n s.

(** Decimal rendering of a non-negative integer, as in a template
    literal. *)
Definition of_N (n : N) : jsstring :=
  js (NilZero.string_of_uint (N.to_uint n)).

Definition of_Z (z : Z) : jsstring :=
  js (NilZero.string_of_int (Z.to_int z)).

(** WhiteSpace and LineTerminator code units: what [trim] strips and what
    the regular-expression class [\s] matches. *)
Definition is_space (c : N) : bool :=
  ((9 <=? c) && (c <=? 13) || (c =? 32) || (c =? 160) || (c =? 5760)
   || (8192 <=? c) && (c <=? 8202) || (c =? 8232) || (c =? 8233)
   || (c =? 8239) || (c =? 8287) || (c =? 12288) || (c =? 65279))%N.

(** The class [\w]: [A-Za-z0-9_]. *)
Definition is_word (c : N) : bool :=
  ((65 <=? c) && (c <=? 90) || (97 <=? c) && (c <=? 122)
   || (48 <=? c) && (c <=? 57) || (c =? 95))%N.

Fixpoint drop_while (f : N -> bool) (s : jsstring) : jsstring :=
  match s with
  | [] => []
  | c :: rest => if f c then drop_while f rest else s
  end.

(** [String.prototype.trim]. *)
Definition trim (s : jsstring) : jsstring :=
  rev (drop_while is_space (rev (drop_while is_space s))).

(** [String.prototype.includes] for a non-empty needle. *)
Fixpoint starts_with (p s : jsstring) : bool :=
  match p, s with
  | [], _ => true
  | _ :: _, [] => false
  | a :: p', b :: s' => (a =? b)%N && starts_with p' s'
  end.

Fixpoint includes (needle s : jsstring) : bool :=
  starts_with needle s ||
  match s with
  | [] => false
  | _ :: rest => includes needle rest
  end.

End JsString.
Import JsString.
Arguments js s%_string.
Arguments tpl s%_string.

(* ================================================================== *)
(** ** Regular expressions

    The fragment of ECMAScript regular expressions used by the sources,
    with the backtracking, leftmost, greedy matching order of the
    language.  A pattern has at most one capturing group. *)

Module Regex.

Inductive regex : Type :=
| REps                          (* empty pattern *)
| RClass (f : N -> bool)        (* one code unit satisfying [f] *)
| RSeq (a b : regex)            (* concatenation *)
| ROpt (a : regex)              (* a?  (greedy) *)
| RStar (a : regex)             (* a*  (greedy) *)
| RGroup (a : regex).           (* ( a )  capturing group 1 *)

Definition RChar (c : N) : regex := RClass (N.eqb c).

(** A sequence of code units, each compared with [eqc]. *)
Fixpoint RLitBy (eqc : N -> N -> bool) (p : jsstring) : regex :=
  match p with
  | [] => REps
  | c :: rest => RSeq (RClass (eqc c)) (RLitBy eqc rest)
  end.

(** Canonicalisation of the [i] flag (no [u] flag): ASCII letters compare
    by their upper-case form; code units above 127 never fold onto ASCII. *)
Definition upcase (c : N) : N :=
  if ((97 <=? c) && (c <=? 122))%N then (c - 32)%N else c.

Definition eq_nocase (c x : N) : bool := (upcase x =? upcase c)%N.

Definition RPlus (a : regex) : regex := RSeq a (RStar a).

(** A literal text, and a literal text under the [i] flag. *)
Definition RLit (p : jsstring) : regex := RLitBy N.eqb p.
Definition RLitI (p : jsstring) : regex := RLitBy eq_nocase p.

(** a{n} *)
Fixpoint RRep (n : nat) (a : regex) : regex :=
  match n with
  | O => REps
  | S m => RSeq a (RRep m a)
  end.

(** The greedy iteration of [a*]: [step] matches one [a]; an iteration
    that consumes nothing is refused.  [fuel] bounds the number of
    iterations and is the length of the input at the start. *)
Fixpoint star_loop {A : Type}
         (step : jsstring -> option jsstring ->
                 (jsstring -> option jsstring -> option A) -> option A)
         (k : jsstring -> option jsstring -> option A)
         (fuel : nat) (s : jsstring) (g : option jsstring) : option A :=
  match fuel with
  | O => k s g
  | S fuel' =>
      match step s g
                 (fun s' g' =>
                    if (length s' <? length s)%nat
                    then star_loop step k fuel' s' g' else None) with
      | Some x => Some x
      | None => k s g
      end
  end.

(** [rmatch r s g k]: match [r] at the head of [s], then continue with
    [k] on the rest; [g] is the current content of group 1.  A failing
    continuation makes the matcher backtrack. *)
Fixpoint rmatch {A : Type} (r : regex) (s : jsstring) (g : option jsstring)
         (k : jsstring -> option jsstring -> option A) {struct r} : option A :=
  match r with
  | REps => k s g
  | RClass f =>
      match s with
      | c :: rest => if f c then k rest g else None
      | [] => None
      end
  | RSeq a b => rmatch a s g (fun s' g' => rmatch b s' g' k)
  | ROpt a =>
      match rmatch a s g k with
      | Some x => Some x
      | None => k s g
      end
  | RStar a => star_loop (fun s' g' k' => rmatch a s' g' k') k (length s) s g
  | RGroup a =>
      rmatch a s g
        (fun s' _ => k s' (Some (firstn (length s - length s') s)))
  end.

(** Result of a successful match: the matched text, group 1, the rest. *)
Record match_result : Type := MatchResult {
  matched : jsstring;
  group1 : option jsstring;
  remainder : jsstring
}.

(** Match anchored at the head of [s]. *)
Definition match_here (r : regex) (s : jsstring) : option match_result :=
  rmatch r s None
    (fun s' g => Some (MatchResult (firstn (length s - length s') s) g s')).

(** [s.match(r)] for a pattern without the [g] flag: the leftmost match. *)
Fixpoint exec (r : regex) (s : jsstring) : option match_result :=
  match match_here r s with
  | Some m => Some m
  | None =>
      match s with
      | [] => None
      | _ :: rest => exec r rest
      end
  end.

(** [s.replace(r, rep)] for a pattern with the [g] flag and a replacement
    text without [$] patterns.  [skip] counts the code units of the
    current match still to be passed over. *)
Fixpoint replace_go (r : regex) (rep : jsstring) (skip : nat) (s : jsstring)
  : jsstring :=
  match skip with
  | S n =>
      match s with
      | [] => []
      | _ :: rest => replace_go r rep n rest
      end
  | O =>
      match match_here r s with
      | Some m =>
          rep ++
          match length (matched m), s with
          | _, [] => []
          | O, c :: rest => c :: replace_go r rep 0 rest
          | S n, _ :: rest => replace_go r rep n rest
          end
      | None =>
          match s with
          | [] => []
          | c :: rest => c :: replace_go r rep 0 rest
          end
      end
  end.

Definition replace_all (r : regex) (rep : jsstring) (s : jsstring) : jsstring :=
  replace_go r rep 0 s.

(** [s.replace(/^r/, rep)]: a pattern anchored at the start, no [g] flag. *)
Definition replace_prefix (r : regex) (rep : jsstring) (s : jsstring) : jsstring :=
  match match_here r s with
  | Some m => rep ++ remainder m
  | None => s
  end.

End Regex.
Import Regex.

(* ================================================================== *)
(** ** Errors, effects and the outside world *)

(** A thrown value.  [Err m] is [throw new Error(m)] of the sources; [Exn]
    is an exception raised by the runtime or by a library (a [TypeError],
    a [SyntaxError], a rejected promise of an external call). *)
Inductive Error : Type :=
| Err (message : jsstring)
| Exn (name message : jsstring).

Definition error_message (e : Error) : jsstring :=
  match e with
  | Err m => m
  | Exn _ m => m
  end.

(** The failure of an external call or of a built-in: the name and the
    message of the exception it raises. *)
Record Failure : Type := { failure_name : jsstring; failure_message : jsstring }.

Definition thrown (f : Failure) : Error := Exn (failure_name f) (failure_message f).

Definition raising {A} (r : Failure + A) : Error + A :=
  match r with
  | inl f => inl (thrown f)
  | inr a => inr a
  end.

(** The errors raised by the sources, under the names of the
    specification's taxonomy. *)
Definition InvalidYouTubeUrl : Error := Err (js "Invalid YouTube URL").
Definition NoTranscriptAvailable : Error :=
  Err (js "Could not extract transcript. The video may not have captions available.").
Definition NoContentAvailable : Error :=
  Err (js "Could not extract any information from this video. Please provide a video with captions or try describing your video instead.").
Definition AnalysisParseError : Error :=
  Err (js "Failed to parse video analysis. Please try again.").
Definition ConfigurationError : Error := Err (js "OPENROUTER_API_KEY not set").
Definition NoMessageInResponse : Error := Err (js "No message in OpenRouter response").
Definition NoImageReturned : Error := Err (js "No image returned from OpenRouter").
Definition NoThumbnailsGenerated : Error :=
  Err (js "Failed to generate any thumbnails. Please try again.").
Definition FacePhotoRequired : Error := Err (js "At least one face photo is required").

(** The [TypeError] of reading a property of [undefined] or [null]. *)
Definition TypeError_undefined : Error :=
  Exn (js "TypeError") (js "Cannot read properties of undefined").

(** *** Wire data *)

Record ImageUrl : Type := { url : jsstring }.

(** A part of a multimodal message content. *)
Record ContentPart : Type := {
  part_type : jsstring;
  part_text : option jsstring;
  part_image_url : option ImageUrl
}.

(** [content: string | Array<...>], or neither ([null], absent). *)
Inductive MessageContent : Type :=
| ContentString (s : jsstring)
| ContentParts (parts : list ContentPart)
| ContentNone.

Record OpenRouterMessage : Type := {
  role : jsstring;
  msg_content : MessageContent
}.

(** An entry of the side-channel [images] array of a response message. *)
Record ImageEntry : Type := { entry_image_url : option ImageUrl }.

Record ResponseMessage : Type := {
  content : MessageContent;
  images : option (list ImageEntry)
}.

Record Choice : Type := { message : option ResponseMessage }.

(** [data.content] of the second transcript API: a string or an array of
    [{ text }] objects. *)
Inductive SupadataContent : Type :=
| SupaString (s : jsstring)
| SupaSegments (texts : list jsstring).

(** The fields that the sources read from the JSON body of a response;
    [None] is an absent ([undefined]) field. *)
Record JsonData : Type := {
  data_transcript : option jsstring;
  data_text : option jsstring;
  data_content : option SupadataContent;
  data_title : option jsstring;
  data_author_name : option jsstring;
  data_choices : option (list Choice)
}.

(** The body of a chat-completion request. *)
Record ChatRequest : Type := {
  req_model : jsstring;
  req_messages : list OpenRouterMessage;
  req_temperature : option Q;
  req_max_tokens : option N;
  req_modalities : option (list jsstring);
  req_image_config : option (list (jsstring * jsstring));
  req_provider_order : option (list jsstring)
}.

Inductive Request : Type :=
| GET (target : jsstring) (timeout_ms : N)
| POST (target : jsstring) (headers : list (jsstring * jsstring)) (body : ChatRequest).

Record Response : Type := {
  ok : bool;
  status : N;
  text : Failure + jsstring;    (* await response.text() *)
  json : Failure + JsonData     (* await response.json() *)
}.

(** A segment returned by the transcript library. *)
Record TranscriptSegment : Type := { seg_text : jsstring }.

(** A value produced by [JSON.parse] (numbers restricted to integers). *)
#[warnings="-register-all"]
Inductive JsValue : Type :=
| VUndefined
| VNull
| VBool (b : bool)
| VNumber (z : Z)
| VString (s : jsstring)
| VArray (items : list JsValue)
| VObject (fields : list (jsstring * JsValue)).

(** *** External events and the world *)

Inductive Event : Type :=
| EvFetchTranscript (videoId : jsstring)              (* YoutubeTranscript.fetchTranscript *)
| EvExecFile (file : jsstring) (args : list jsstring) (* execFileAsync *)
| EvFetch (req : Request)                             (* fetch *)
| EvConsoleError (msg : jsstring) (e : option Error)  (* console.error *)
| EvInvoke (fn : jsstring).                           (* ghost: a call of an exported function *)

Definition is_external (e : Event) : bool :=
  match e with
  | EvFetchTranscript _ | EvExecFile _ _ | EvFetch _ => true
  | _ => false
  end.

(** Number of external calls in a trace. *)
Definition calls (tr : list Event) : nat := length (filter is_external tr).

(** The outside world.  The first argument of an oracle is the number of
    external calls made before it. *)
Record World : Type := {
  OPENROUTER_API_KEY : option jsstring;                 (* process.env.OPENROUTER_API_KEY *)
  JSON_parse : jsstring -> Failure + JsValue;
  encodeURIComponent : jsstring -> Failure + jsstring;
  fetchTranscript : nat -> jsstring -> Failure + list TranscriptSegment;
  execFileAsync : nat -> jsstring -> list jsstring -> Failure + jsstring;  (* stdout *)
  fetch : nat -> Request -> Failure + Response;
  Date_now : nat -> N
}.

(** *** The monad of asynchronous computations *)

Definition M (A : Type) : Type := list Event -> (Error + A) * list Event.

Definition ret {A} (a : A) : M A := fun tr => (inr a, tr).

Definition throw {A} (e : Error) : M A := fun tr => (inl e, tr).

Definition bind {A B} (m : M A) (k : A -> M B) : M B :=
  fun tr =>
    match m tr with
    | (inr a, tr') => k a tr'
    | (inl e, tr') => (inl e, tr')
    end.

(** [try { m } catch (e) { h e }]. *)
Definition try_catch {A} (m : M A) (h : Error -> M A) : M A :=
  fun tr =>
    match m tr with
    | (inr a, tr') => (inr a, tr')
    | (inl e, tr') => h e tr'
    end.

(** A value that may throw, lifted into the monad. *)
Definition lift {A} (r : Error + A) : M A := fun tr => (r, tr).

(** A built-in that may raise. *)
Definition builtin {A} (r : Failure + A) : M A := lift (raising r).

(** An external call: the oracle answers for the current call count and the
    event is appended to the trace. *)
Definition external {A} (e : Event) (answer : nat -> Failure + A) : M A :=
  fun tr => (raising (answer (calls tr)), tr ++ [e]).

(** A recorded event without an answer. *)
Definition emit (e : Event) : M unit := fun tr => (inr tt, tr ++ [e]).

(** [Date.now()]. *)
Definition now (w : World) : M N := fun tr => (inr (Date_now w (calls tr)), tr).

Declare Scope monad_scope.
Delimit Scope monad_scope with monad.
Notation "x <- m ;; k" := (bind m (fun x => k))
  (at level 61, m at next level, right associativity) : monad_scope.
Notation "m ;;; k" := (bind m (fun _ => k))
  (at level 61, right associativity) : monad_scope.
Open Scope monad_scope.

(** The result of a computation started on a trace, and the trace it
    leaves. *)
Definition result {A} (m : M A) (tr : list Event) : Error + A := fst (m tr).
Definition trace_after {A} (m : M A) (tr : list Event) : list Event := snd (m tr).

(* ================================================================== *)
(** ** lib/openrouter.ts *)

Definition OPENROUTER_API_URL : jsstring :=
  js "https://openrouter.ai/api/v1/chat/completions".

(** [a || b] and truthiness on optional strings ([undefined] and [""] are
    falsy). *)
Definition opt_truthy (a : option jsstring) : bool :=
  match a with
  | Some s => truthy s
  | None => false
  end.

Definition opt_or (a b : option jsstring) : option jsstring :=
  if opt_truthy a then a else b.

Definition opt_or_default (a : option jsstring) (d : jsstring) : jsstring :=
  match a with
  | Some s => or_else s d
  | None => d
  end.

(** [a ?? d]. *)
Definition nullish {A} (a : option A) (d : A) : A :=
  match a with
  | Some x => x
  | None => d
  end.

Definition request_headers (apiKey : jsstring) : list (jsstring * jsstring) :=
  [ (js "Authorization", js "Bearer " ++ apiKey);
    (js "Content-Type", js "application/json");
    (js "HTTP-Referer", js "https://github.com/empowerment-ai/thumbforge");
    (js "X-Title", js "ThumbForge") ].

Definition is_text_part (p : ContentPart) : bool := str_eqb (part_type p) (js "text").

(** [p.image_url?.url] *)
Definition part_url (p : ContentPart) : option jsstring :=
  option_map url (part_image_url p).

Definition is_image_part (p : ContentPart) : bool :=
  str_eqb (part_type p) (js "image_url") && opt_truthy (part_url p).

(** [content.find((p) => p.type === "text")?.text] *)
Definition first_text (parts : list ContentPart) : option jsstring :=
  match find is_text_part parts with
  | Some p => part_text p
  | None => None
  end.

(** [/^data:image\/\w+;base64,/] *)
Definition data_url_prefix : regex :=
  RSeq (RLit (js "data:image/")) (RSeq (RPlus (RClass is_word)) (RLit (js ";base64,"))).

Definition strip_data_url (u : jsstring) : jsstring :=
  replace_prefix data_url_prefix [] u.

Record CompletionOptions : Type := {
  opt_model : option jsstring;
  opt_temperature : option Q;
  opt_maxTokens : option N
}.

Record ImageOptions : Type := {
  img_model : option jsstring;
  referenceImageBase64 : option jsstring;
  aspectRatio : option jsstring;
  imageSize : option jsstring
}.

(** [{ imageBase64: string; revisedPrompt?: string }] *)
Record ImageResult : Type := {
  imageBase64 : jsstring;
  revisedPrompt : option jsstring
}.

(** [data.choices[0]?.message] *)
Definition first_message (data : JsonData) : Error + option ResponseMessage :=
  match data_choices data with
  | None => inl TypeError_undefined
  | Some [] => inr None
  | Some (c :: _) => inr (message c)
  end.

Module OpenRouter.

Module MODELS.
Definition ANALYSIS : jsstring := js "anthropic/claude-3.5-sonnet".
Definition IMAGE_FLASH : jsstring := js "google/gemini-2.5-flash-image".
Definition IMAGE_PRO : jsstring := js "google/gemini-3-pro-image-preview".
Definition IMAGE_FLUX : jsstring := js "black-forest-labs/flux-pro-1.1".
End MODELS.

(** Lines 77-85 of [textCompletion]: the text of a response body. *)
Definition completionText (data : JsonData) : Error + jsstring :=
  match first_message data with
  | inl e => inl e
  | inr None => inr []
  | inr (Some m) =>
      match content m with
      | ContentString s => inr s
      | ContentParts parts => inr (opt_or_default (first_text parts) [])
      | ContentNone => inr []
      end
  end.

Definition textCompletion (w : World) (messages : list OpenRouterMessage)
           (options : CompletionOptions) : M jsstring :=
  match OPENROUTER_API_KEY w with
  | None => throw ConfigurationError
  | Some apiKey =>
      if negb (truthy apiKey) then throw ConfigurationError else
      let req :=
        POST OPENROUTER_API_URL (request_headers apiKey)
             {| req_model := opt_or_default (opt_model options) MODELS.ANALYSIS;
                req_messages := messages;
                req_temperature := Some (nullish (opt_temperature options) (7 # 10));
                req_max_tokens := Some (nullish (opt_maxTokens options) 2048%N);
                req_modalities := None;
                req_image_config := None;
                req_provider_order := None |} in
      response <- external (EvFetch req) (fun n => fetch w n req) ;;
      if negb (ok response) then
        error <- builtin (text response) ;;
        throw (Err (js "OpenRouter API error (" ++ of_N (status response)
                      ++ js "): " ++ error))
      else
        data <- builtin (json response) ;;
        lift (completionText data)
  end.

(** Lines 164-204 of [generateImage]: the image of a response message. *)
Definition imageOfMessage (m : ResponseMessage) : Error + ImageResult :=
  let method2 :=
    match content m with
    | ContentParts parts =>
        match find is_image_part parts with
        | Some imagePart =>
            match part_url imagePart with
            | Some u =>
                if truthy u then
                  inr {| imageBase64 := strip_data_url u;
                         revisedPrompt := first_text parts |}
                else inl NoImageReturned
            | None => inl NoImageReturned
            end
        | None => inl NoImageReturned
        end
    | _ => inl NoImageReturned
    end in
  match images m with
  | Some (img :: _) =>
      match option_map url (entry_image_url img) with
      | Some u =>
          if truthy u then
            let textContent :=
              match content m with
              | ContentString s => Some s
              | ContentParts parts => first_text parts
              | ContentNone => None
              end in
            inr {| imageBase64 := strip_data_url u;
                   revisedPrompt := opt_or textContent None |}
          else method2
      | None => method2
      end
  | _ => method2
  end.

(** Lines 103-152 of [generateImage]: the request sent for a prompt. *)
Definition imageRequest (apiKey prompt : jsstring) (options : ImageOptions) : Request :=
  let textPart :=
    {| part_type := js "text"; part_text := Some prompt; part_image_url := None |} in
  let userContent :=
    if opt_truthy (referenceImageBase64 options) then
      [ {| part_type := js "image_url"; part_text := None;
           part_image_url :=
             Some {| url := js "data:image/jpeg;base64,"
                            ++ nullish (referenceImageBase64 options) [] |} |};
        textPart ]
    else [textPart] in
  let model := opt_or_default (img_model options) MODELS.IMAGE_FLASH in
  let isGemini := includes (js "gemini") model in
  let imageConfig :=
    if isGemini then
      (js "aspect_ratio", opt_or_default (aspectRatio options) (js "16:9"))
      :: (if opt_truthy (imageSize options)
          then [(js "image_size", nullish (imageSize options) [])] else [])
    else [] in
  POST OPENROUTER_API_URL (request_headers apiKey)
       {| req_model := model;
          req_messages := [ {| role := js "user"; msg_content := ContentParts userContent |} ];
          req_temperature := None;
          req_max_tokens := None;
          req_modalities := Some [js "image"; js "text"];
          req_image_config :=
            if (0 <? length imageConfig)%nat then Some imageConfig else None;
          req_provider_order := if isGemini then Some [js "google"] else None |}.

(** Lines 155-204 of [generateImage]: the image of a response. *)
Definition imageOfResponse (response : Response) : Error + ImageResult :=
  if negb (ok response) then
    match raising (text response) with
    | inl e => inl e
    | inr error =>
        inl (Err (js "OpenRouter image API error (" ++ of_N (status response)
                    ++ js "): " ++ error))
    end
  else
    match raising (json response) with
    | inl e => inl e
    | inr data =>
        match first_message data with
        | inl e => inl e
        | inr None => inl NoMessageInResponse
        | inr (Some m) => imageOfMessage m
        end
    end.

Definition generateImage (w : World) (prompt : jsstring) (options : ImageOptions)
  : M ImageResult :=
  match OPENROUTER_API_KEY w with
  | None => throw ConfigurationError
  | Some apiKey =>
      if negb (truthy apiKey) then throw ConfigurationError else
      let req := imageRequest apiKey prompt options in
      response <- external (EvFetch req) (fun n => fetch w n req) ;;
      lift (imageOfResponse response)
  end.

End OpenRouter.

(** The earlier revision of the client kept at [src/lib/openrouter.ts]: it
    reads images from the message content only. *)
Module OpenRouterLegacy.

Module MODELS.
Definition ANALYSIS : jsstring := js "anthropic/claude-3.5-sonnet".
Definition IMAGE_FLASH : jsstring := js "google/gemini-2.5-flash-image-preview".
Definition IMAGE_PRO : jsstring := js "google/gemini-3-pro-image-preview".
Definition IMAGE_FLUX : jsstring := js "black-forest-labs/flux-pro-1.1".
End MODELS.

(** Lines 141-162 of [generateImage]. *)
Definition imageOfContent (c : MessageContent) : Error + ImageResult :=
  match c with
  | ContentParts parts =>
      match find is_image_part parts with
      | Some imagePart =>
          match part_url imagePart with
          | Some u =>
              if truthy u then
                inr {| imageBase64 := strip_data_url u;
                       revisedPrompt := first_text parts |}
              else inl NoImageReturned
          | None => inl NoImageReturned
          end
      | None => inl NoImageReturned
      end
  | _ => inl NoImageReturned
  end.

Definition imageRequest (apiKey prompt : jsstring) (options : ImageOptions) : Request :=
  let textPart :=
    {| part_type := js "text"; part_text := Some prompt; part_image_url := None |} in
  let userContent :=
    if opt_truthy (referenceImageBase64 options) then
      [ {| part_type := js "image_url"; part_text := None;
           part_image_url :=
             Some {| url := js "data:image/jpeg;base64,"
                            ++ nullish (referenceImageBase64 options) [] |} |};
        textPart ]
    else [textPart] in
  POST OPENROUTER_API_URL (request_headers apiKey)
       {| req_model := opt_or_default (img_model options) MODELS.IMAGE_FLASH;
          req_messages := [ {| role := js "user"; msg_content := ContentParts userContent |} ];
          req_temperature := None;
          req_max_tokens := None;
          req_modalities := Some [js "image"; js "text"];
          req_image_config := None;
          req_provider_order :=
            match img_model options with
            | Some mdl => if includes (js "gemini") mdl then Some [js "google"] else None
            | None => None
            end |}.

Definition imageOfResponse (response : Response) : Error + ImageResult :=
  if negb (ok response) then
    match raising (text response) with
    | inl e => inl e
    | inr error =>
        inl (Err (js "OpenRouter image API error (" ++ of_N (status response)
                    ++ js "): " ++ error))
    end
  else
    match raising (json response) with
    | inl e => inl e
    | inr data =>
        match first_message data with
        | inl e => inl e
        | inr None => imageOfContent ContentNone
        | inr (Some m) => imageOfContent (content m)
        end
    end.

Definition generateImage (w : World) (prompt : jsstring) (options : ImageOptions)
  : M ImageResult :=
  match OPENROUTER_API_KEY w with
  | None => throw ConfigurationError
  | Some apiKey =>
      if negb (truthy apiKey) then throw ConfigurationError else
      let req := imageRequest apiKey prompt options in
      response <- external (EvFetch req) (fun n => fetch w n req) ;;
      lift (imageOfResponse response)
  end.

End OpenRouterLegacy.

(* ================================================================== *)
(** ** lib/video-analyzer.ts *)

Module VideoAnalyzer.

Definition VTD_SCRIPT : jsstring :=
  js "/root/clawd/skills/video-transcript-downloader/scripts/vtd.js".

(** The class [[a-zA-Z0-9_-]]. *)
Definition is_id_char (c : N) : bool := is_word c || (c =? 45)%N.

(** [/(?:<marker>)([a-zA-Z0-9_-]{11})/] *)
Definition id_pattern (marker : jsstring) : regex :=
  RSeq (RLit marker) (RGroup (RRep 11 (RClass is_id_char))).

Definition markers : list jsstring :=
  [ js "youtube.com/watch?v=";
    js "youtu.be/";
    js "youtube.com/embed/";
    js "youtube.com/shorts/" ].

Definition patterns : list regex := map id_pattern markers.

(** [for (const pattern of patterns) { const match = url.match(pattern);
     if (match) return match[1]; } return null;] *)
Fixpoint first_capture (ps : list regex) (u : jsstring) : option jsstring :=
  match ps with
  | [] => None
  | p :: rest =>
      match exec p u with
      | Some m => group1 m
      | None => first_capture rest u
      end
  end.

Definition extractVideoId (u : jsstring) : option jsstring :=
  first_capture patterns u.

(** The chain of replacements applied to a library transcript
    (lines 52-62 of [extractTranscript]). *)
Definition decode_amp (s : jsstring) := replace_all (RLit (js "&amp;")) (js "&") s.
Definition decode_apos (s : jsstring) := replace_all (RLit (js "&#39;")) (js "'") s.
Definition decode_quot (s : jsstring) := replace_all (RLit (js "&quot;")) [34%N] s.
Definition decode_lt (s : jsstring) := replace_all (RLit (js "&lt;")) (js "<") s.
Definition decode_gt (s : jsstring) := replace_all (RLit (js "&gt;")) (js ">") s.
Definition strip_notes (s : jsstring) := replace_all (RLit (js "[♪♪♪]")) [] s.
Definition strip_note (s : jsstring) := replace_all (RLit (js "♪")) [] s.
Definition strip_music (s : jsstring) := replace_all (RLitI (js "[Music]")) [] s.
Definition collapse_spaces (s : jsstring) :=
  replace_all (RPlus (RClass is_space)) (js " ") s.

Definition clean_transcript (s : jsstring) : jsstring :=
  collapse_spaces
    (trim
       (strip_music
          (strip_note
             (strip_notes
                (decode_gt (decode_lt (decode_quot (decode_apos (decode_amp s))))))))).

(** Source (a): the transcript library.  [Some t] when the [try] block
    returns [t]; [None] when control falls out of it. *)
Definition fromLibrary (w : World) (videoId : jsstring) : M (option jsstring) :=
  try_catch
    (segments <- external (EvFetchTranscript videoId)
                          (fun n => fetchTranscript w n videoId) ;;
     if (0 <? length segments)%nat then
       let transcript := clean_transcript (join (js " ") (map seg_text segments)) in
       if (20 <? length transcript)%nat then ret (Some transcript) else ret None
     else ret None)
    (fun _ => ret None).

(** Source (b): the local command-line tool. *)
Definition fromVtd (w : World) (youtubeUrl : jsstring) : M (option jsstring) :=
  let args := [VTD_SCRIPT; js "transcript"; js "--url"; youtubeUrl] in
  try_catch
    (stdout <- external (EvExecFile (js "node") args)
                        (fun n => execFileAsync w n (js "node") args) ;;
     let transcript := trim stdout in
     if truthy transcript && (20 <? length transcript)%nat
     then ret (Some transcript) else ret None)
    (fun _ => ret None).

(** Source (c): youtube-transcript.io. *)
Definition fromTranscriptIo (w : World) (youtubeUrl : jsstring) : M (option jsstring) :=
  try_catch
    (q <- builtin (encodeURIComponent w youtubeUrl) ;;
     let req := GET (js "https://www.youtube-transcript.io/api/transcript?url=" ++ q) 15000 in
     response <- external (EvFetch req) (fun n => fetch w n req) ;;
     if ok response then
       data <- builtin (json response) ;;
       if opt_truthy (opt_or (data_transcript data) (data_text data))
       then ret (opt_or (data_transcript data) (data_text data))
       else ret None
     else ret None)
    (fun _ => ret None).

(** Source (d): Supadata. *)
Definition fromSupadata (w : World) (youtubeUrl : jsstring) : M (option jsstring) :=
  try_catch
    (q <- builtin (encodeURIComponent w youtubeUrl) ;;
     let req := GET (js "https://api.supadata.ai/v1/youtube/transcript?url=" ++ q) 15000 in
     response <- external (EvFetch req) (fun n => fetch w n req) ;;
     if ok response then
       data <- builtin (json response) ;;
       match data_content data with
       | Some (SupaString s) => if truthy s then ret (Some s) else ret None
       | Some (SupaSegments texts) => ret (Some (join (js " ") texts))
       | None => ret None
       end
     else ret None)
    (fun _ => ret None).

Definition extractTranscript (w : World) (youtubeUrl : jsstring) : M jsstring :=
  match extractVideoId youtubeUrl with
  | None => throw InvalidYouTubeUrl
  | Some videoId =>
      if negb (truthy videoId) then throw InvalidYouTubeUrl else
      a <- fromLibrary w videoId ;;
      match a with
      | Some t => ret t
      | None =>
          b <- fromVtd w youtubeUrl ;;
          match b with
          | Some t => ret t
          | None =>
              c <- fromTranscriptIo w youtubeUrl ;;
              match c with
              | Some t => ret t
              | None =>
                  d <- fromSupadata w youtubeUrl ;;
                  match d with
                  | Some t => ret t
                  | None => throw NoTranscriptAvailable
                  end
              end
          end
      end
  end.

Record VideoMetadata : Type := { title : jsstring; author : jsstring }.

Definition getVideoMetadata (w : World) (youtubeUrl : jsstring) : M VideoMetadata :=
  r <- try_catch
         (q <- builtin (encodeURIComponent w youtubeUrl) ;;
          let req := GET (js "https://www.youtube.com/oembed?url=" ++ q ++ js "&format=json")
                         10000 in
          response <- external (EvFetch req) (fun n => fetch w n req) ;;
          if ok response then
            data <- builtin (json response) ;;
            ret (Some {| title := opt_or_default (data_title data) [];
                         author := opt_or_default (data_author_name data) [] |})
          else ret None)
         (fun _ => ret None) ;;
  match r with
  | Some md => ret md
  | None => ret {| title := []; author := [] |}
  end.

Definition analysisPrompt (metadata : VideoMetadata) (transcript : jsstring) : jsstring :=
  tpl "You are a YouTube thumbnail expert. Analyze this video content and generate thumbnail concepts.

VIDEO TITLE: " ++ or_else (title metadata) (js "Unknown") ++
  tpl "
CHANNEL: " ++ or_else (author metadata) (js "Unknown") ++
  tpl "
TRANSCRIPT (first 3000 chars): " ++ substring0 3000 transcript ++
  tpl "

Based on this content, provide a JSON response with the following structure:
{
  ^title^: ^video title^,
  ^topic^: ^main topic in 2-3 words^,
  ^hook^: ^the main hook/value proposition of the video in one sentence^,
  ^mood^: ^primary mood (exciting/educational/shocking/funny/inspirational/dramatic)^,
  ^keyMoments^: [^3-5 key moments or topics covered^],
  ^visualElements^: [^5-7 specific visual elements that would work in a thumbnail^],
  ^textSuggestions^: [^4-6 short text overlays (1-4 words each) that would grab attention^],
  ^colorPalette^: [^3-4 hex colors that match the video's mood and topic^],
  ^targetEmotion^: ^the emotion the thumbnail should evoke in viewers^,
  ^thumbnailConcepts^: [
    {
      ^description^: ^detailed description of the thumbnail scene/composition^,
      ^textOverlay^: ^the text to show on the thumbnail (1-4 words)^,
      ^mood^: ^mood of this specific concept^,
      ^visualStyle^: ^style description (cinematic/cartoon/minimalist/bold/etc)^,
      ^faceExpression^: ^what expression the person should have (shocked/excited/curious/etc)^
    }
  ]
}

Generate exactly 4 thumbnail concepts. Each should be distinctly different in approach.
Focus on what would get HIGH CLICK-THROUGH RATES based on proven YouTube thumbnail principles:
- Strong facial expressions (30-50% of frame)
- High contrast colors
- Minimal but impactful text
- Curiosity gap
- Clear focal point

Return ONLY valid JSON, no markdown or explanation.".

(** [result.replace(/```json\n?/g, "").replace(/```\n?/g, "").trim()] *)
Definition strip_fences (s : jsstring) : jsstring :=
  trim
    (replace_all (RSeq (RLit (js "```")) (ROpt (RChar 10))) []
       (replace_all (RSeq (RLit (js "```json")) (ROpt (RChar 10))) [] s)).

(** The transcript as [analyzeVideo] resolves it:
    [extractTranscript(youtubeUrl).catch(() => "")]. *)
Definition resolvedTranscript (w : World) (youtubeUrl : jsstring) : M jsstring :=
  try_catch (extractTranscript w youtubeUrl) (fun _ => ret []).

Definition analysisMessages (metadata : VideoMetadata) (transcript : jsstring)
  : list OpenRouterMessage :=
  [ {| role := js "user";
       msg_content := ContentString (analysisPrompt metadata transcript) |} ].

Definition analysisOptions : CompletionOptions :=
  {| opt_model := None;
     opt_temperature := Some (8 # 10);
     opt_maxTokens := Some 2048%N |}.

(** [Promise.all] of the two legs is modelled by running the transcript
    leg, then the metadata leg; the result is the parsed completion, cast
    to [VideoAnalysis] without a check. *)
Definition analyzeVideo (w : World) (youtubeUrl : jsstring) : M JsValue :=
  transcript <- resolvedTranscript w youtubeUrl ;;
  metadata <- getVideoMetadata w youtubeUrl ;;
  if negb (truthy transcript) && negb (truthy (title metadata))
  then throw NoContentAvailable
  else
    result <- OpenRouter.textCompletion w (analysisMessages metadata transcript)
                                        analysisOptions ;;
    try_catch (builtin (JSON_parse w (strip_fences result)))
              (fun _ => throw AnalysisParseError).

End VideoAnalyzer.

(* ================================================================== *)
(** ** lib/face-analyzer.ts *)

(** Truthiness of a parsed value. *)
Definition value_truthy (v : JsValue) : bool :=
  match v with
  | VUndefined | VNull => false
  | VBool b => b
  | VNumber z => negb (z =? 0)%Z
  | VString s => truthy s
  | VArray _ | VObject _ => true
  end.

Definition value_or (a b : JsValue) : JsValue := if value_truthy a then a else b.

Fixpoint lookup_field (key : jsstring) (fields : list (jsstring * JsValue)) : JsValue :=
  match fields with
  | [] => VUndefined
  | (k, v) :: rest => if str_eqb k key then v else lookup_field key rest
  end.

(** [v.key] for a key that no prototype defines: a [TypeError] on
    [undefined] and [null], [undefined] on the other non-objects. *)
Definition get_prop (v : JsValue) (key : jsstring) : Error + JsValue :=
  match v with
  | VUndefined | VNull => inl TypeError_undefined
  | VObject fields => inr (lookup_field key fields)
  | _ => inr VUndefined
  end.

Module FaceAnalyzer.

Record FaceAnalysis : Type := {
  description : JsValue;
  keyFeatures : JsValue;
  ageRange : JsValue;
  genderPresentation : JsValue;
  photoCount : nat
}.

Definition photoCountText (n : nat) : jsstring :=
  if (n =? 1)%nat then js "this photo"
  else js "these " ++ of_N (N.of_nat n)
       ++ js " photos (they are all the same person from different angles/conditions)".

Definition facePrompt (n : nat) : jsstring :=
  tpl "Analyze " ++ photoCountText n ++
  tpl " of a person and provide a detailed physical description that could be used to accurately reproduce their appearance in AI-generated images.

Focus on PERMANENT, DISTINCTIVE features — the things that make this specific person recognizable:

1. **Face shape** — oval, round, square, heart-shaped, etc.
2. **Skin tone** — be specific (light, medium, olive, brown, dark brown, etc.)
3. **Hair** — color, length, style, texture (curly, straight, wavy), hairline
4. **Eyes** — color, shape, size, spacing
5. **Nose** — shape, size, bridge width
6. **Mouth/lips** — shape, fullness
7. **Facial hair** — beard, mustache, stubble, clean-shaven
8. **Distinguishing features** — glasses, moles, dimples, scars, freckles, wrinkles
9. **Build** — what's visible of their body type (shoulders, neck)
10. **Estimated age range**
11. **Gender presentation**

Respond in this exact JSON format:
{
  ^description^: ^A [age-range] [gender-presentation] with [comprehensive physical description in one detailed paragraph, suitable for an image generation prompt]^,
  ^keyFeatures^: [^feature1^, ^feature2^, ^feature3^, ^feature4^, ^feature5^],
  ^ageRange^: ^e.g., early 30s^,
  ^genderPresentation^: ^e.g., male^
}

The ^description^ should be a single flowing paragraph that reads naturally as part of an image generation prompt. Be specific enough that the generated image would be recognizably this person. The ^keyFeatures^ should list the 5 most distinctive/recognizable features in order of importance.

Return ONLY valid JSON, no markdown fences.".

(** [response.replace(/```json\s*/g, "").replace(/```\s*/g, "").trim()] *)
Definition strip_fences (s : jsstring) : jsstring :=
  trim
    (replace_all (RSeq (RLit (js "```")) (RStar (RClass is_space))) []
       (replace_all (RSeq (RLit (js "```json")) (RStar (RClass is_space))) [] s)).

(** The result built when parsing fails (lines 626-636). *)
Definition rawFallback (response : jsstring) (n : nat) : FaceAnalysis :=
  {| description := VString (trim response);
     keyFeatures := VArray [];
     ageRange := VString (js "unknown");
     genderPresentation := VString (js "unknown");
     photoCount := n |}.

(** Lines 549-600: the multimodal content, all images then the prompt. *)
Definition faceMessages (faceImagesBase64 : list jsstring) : list OpenRouterMessage :=
  let imageParts :=
    map (fun img =>
           {| part_type := js "image_url"; part_text := None;
              part_image_url := Some {| url := js "data:image/jpeg;base64," ++ img |} |})
        faceImagesBase64 in
  let content :=
    imageParts ++
    [ {| part_type := js "text";
         part_text := Some (facePrompt (length faceImagesBase64));
         part_image_url := None |} ] in
  [ {| role := js "user"; msg_content := ContentParts content |} ].

Definition faceOptions : CompletionOptions :=
  {| opt_model := Some OpenRouter.MODELS.ANALYSIS;
     opt_temperature := Some (3 # 10);
     opt_maxTokens := Some 1024%N |}.

(** The ghost event [EvInvoke] marks the entry into the analyzer. *)
Definition analyzeFace (w : World) (faceImagesBase64 : list jsstring) : M FaceAnalysis :=
  emit (EvInvoke (js "analyzeFace")) ;;;
  if (length faceImagesBase64 =? 0)%nat then throw FacePhotoRequired else
  response <- OpenRouter.textCompletion w (faceMessages faceImagesBase64) faceOptions ;;
  try_catch
    (parsed <- builtin (JSON_parse w (strip_fences response)) ;;
     d <- lift (get_prop parsed (js "description")) ;;
     k <- lift (get_prop parsed (js "keyFeatures")) ;;
     a <- lift (get_prop parsed (js "ageRange")) ;;
     g <- lift (get_prop parsed (js "genderPresentation")) ;;
     ret {| description := d;
            keyFeatures := value_or k (VArray []);
            ageRange := value_or a (VString (js "unknown"));
            genderPresentation := value_or g (VString (js "unknown"));
            photoCount := length faceImagesBase64 |})
    (fun _ =>
       emit (EvConsoleError (js "Failed to parse face analysis JSON, using raw response") None) ;;;
       ret (rawFallback response (length faceImagesBase64))).

End FaceAnalyzer.

(* ================================================================== *)
(** ** app/api/face-analyze/route.ts *)

Module FaceAnalyzeRoute.

(** [body.faceImages]: absent or falsy, present but not an array, or an
    array of strings. *)
Inductive FaceImagesField : Type :=
| FieldAbsent
| FieldNotArray
| FieldArray (items : list jsstring).

Record RequestBody : Type := { faceImages : FaceImagesField }.

(** [await request.json()] either throws or yields the body. *)
Definition NextRequest : Type := (Failure + RequestBody)%type.

Inductive ResponseBody : Type :=
| BodyError (error : jsstring)
| BodyAnalysis (analysis : FaceAnalyzer.FaceAnalysis).

Record NextResponse : Type := { http_status : N; http_body : ResponseBody }.

Definition POST (w : World) (request : NextRequest) : M NextResponse :=
  try_catch
    (body <- builtin request ;;
     match faceImages body with
     | FieldAbsent | FieldNotArray =>
         ret {| http_status := 400;
                http_body := BodyError (js "Please provide at least one face image (base64)") |}
     | FieldArray items =>
         if (length items =? 0)%nat then
           ret {| http_status := 400;
                  http_body := BodyError (js "Please provide at least one face image (base64)") |}
         else if (5 <? length items)%nat then
           ret {| http_status := 400;
                  http_body := BodyError (js "Maximum 5 reference photos allowed") |}
         else
           analysis <- FaceAnalyzer.analyzeFace w items ;;
           ret {| http_status := 200; http_body := BodyAnalysis analysis |}
     end)
    (fun error =>
       emit (EvConsoleError (js "Face analysis error:") (Some error)) ;;;
       ret {| http_status := 500; http_body := BodyError (error_message error) |}).

End FaceAnalyzeRoute.

(* ================================================================== *)
(** ** lib/thumbnail-generator.ts *)

Module ThumbnailGenerator.

Record ThumbnailConcept : Type := {
  c_description : jsstring;
  c_textOverlay : jsstring;
  c_mood : jsstring;
  c_visualStyle : jsstring;
  c_faceExpression : jsstring
}.

Record VideoAnalysis : Type := {
  va_title : jsstring;
  va_topic : jsstring;
  va_hook : jsstring;
  va_mood : jsstring;
  va_keyMoments : list jsstring;
  va_visualElements : list jsstring;
  va_textSuggestions : list jsstring;
  colorPalette : list jsstring;
  va_targetEmotion : jsstring;
  thumbnailConcepts : list ThumbnailConcept
}.

Record GeneratedThumbnail : Type := {
  id : jsstring;
  thumb_imageBase64 : jsstring;
  concept : ThumbnailConcept;
  textOverlay : jsstring;
  width : N;
  height : N
}.

(** [count] is a JavaScript number; the model covers its integer values. *)
Record GenerateOptions : Type := {
  faceImageBase64 : option jsstring;
  faceDescription : option jsstring;
  model : option jsstring;
  count : option Z
}.

Definition buildImagePrompt (c : ThumbnailConcept) (analysis : VideoAnalysis)
           (faceDescription : option jsstring) : jsstring :=
  let parts :=
    [ js "Generate a professional YouTube thumbnail image at 1280x720 resolution (16:9 aspect ratio).";
      js "Visual style: " ++ c_visualStyle c ++ js ".";
      js "Scene: " ++ c_description c;
      if opt_truthy faceDescription then
        js "The main person in the thumbnail: " ++ nullish faceDescription []
        ++ js ". Their expression should be " ++ c_faceExpression c
        ++ js ". The person's face should occupy about 30-40% of the frame, positioned on one side with their eyes in the upper third."
      else
        js "Include a person with a " ++ c_faceExpression c
        ++ js " expression. The person's face should occupy about 30-40% of the frame, positioned on one side.";
      js "Mood: " ++ c_mood c
      ++ js ". Use high-contrast colors from this palette: "
      ++ join (js ", ") (colorPalette analysis) ++ js ".";
      js "IMPORTANT THUMBNAIL RULES: Single clear focal point. High contrast between subject and background. Bold, attention-grabbing composition. The image should make viewers curious and want to click. Professional YouTube thumbnail quality." ]
    ++ (if truthy (c_textOverlay c) then
          [ tpl "Include bold text overlay reading ^" ++ c_textOverlay c
            ++ tpl "^ in large, high-contrast letters with a dark outline/stroke for readability. Position the text prominently but don't cover the person's face. Use Impact or a similar bold sans-serif font style." ]
        else [])
    ++ [ js "DO NOT include: small or unreadable text, cluttered backgrounds, more than 4 words of text, anything in the bottom-right corner (YouTube puts duration badge there)." ] in
  join [10; 10]%N parts.

(** [options.count || 4]: an absent count and a count of 0 give 4. *)
Definition requestedCount (options : GenerateOptions) : Z :=
  match count options with
  | Some c => if (c =? 0)%Z then 4%Z else c
  | None => 4%Z
  end.

(** [Array.prototype.slice(0, end)] for an integer [end]. *)
Definition slice0 {A} (l : list A) (e : Z) : list A :=
  let len := Z.of_nat (length l) in
  let stop := if (e <? 0)%Z then Z.max (len + e) 0 else Z.min e len in
  firstn (Z.to_nat stop) l.

(** Lines 85-86: the concepts for which a generation is attempted. *)
Definition attempted (analysis : VideoAnalysis) (options : GenerateOptions)
  : list ThumbnailConcept :=
  let count :=
    Z.min (requestedCount options) (Z.of_nat (length (thumbnailConcepts analysis))) in
  slice0 (thumbnailConcepts analysis) count.

Definition imageOptions (options : GenerateOptions) : ImageOptions :=
  {| img_model := Some (opt_or_default (model options) OpenRouter.MODELS.IMAGE_FLASH);
     referenceImageBase64 := faceImageBase64 options;
     aspectRatio := None;
     imageSize := None |}.

(** The element pushed on [results] for concept number [i]. *)
Definition thumbnail (stamp : N) (i : nat) (c : ThumbnailConcept) (r : ImageResult)
  : GeneratedThumbnail :=
  {| id := js "thumb-" ++ of_N stamp ++ js "-" ++ of_N (N.of_nat i);
     thumb_imageBase64 := imageBase64 r;
     concept :=
       {| c_description := opt_or_default (revisedPrompt r) (c_description c);
          c_textOverlay := c_textOverlay c;
          c_mood := c_mood c;
          c_visualStyle := c_visualStyle c;
          c_faceExpression := c_faceExpression c |};
     textOverlay := c_textOverlay c;
     width := 1280;
     height := 720 |}.

(** The loop of lines 91-120, from index [i] on the remaining concepts. *)
Fixpoint generateLoop (w : World) (analysis : VideoAnalysis) (options : GenerateOptions)
         (i : nat) (concepts : list ThumbnailConcept) (results : list GeneratedThumbnail)
  : M (list GeneratedThumbnail) :=
  match concepts with
  | [] => ret results
  | c :: rest =>
      let prompt := buildImagePrompt c analysis (faceDescription options) in
      results' <-
        try_catch
          (r <- OpenRouter.generateImage w prompt (imageOptions options) ;;
           stamp <- now w ;;
           ret (results ++ [thumbnail stamp i c r]))
          (fun error =>
             emit (EvConsoleError (js "Failed to generate thumbnail "
                                     ++ of_N (N.of_nat (i + 1)) ++ js ":")
                                  (Some error)) ;;;
             ret results) ;;
      generateLoop w analysis options (S i) rest results'
  end.

Definition generateThumbnails (w : World) (analysis : VideoAnalysis)
           (options : GenerateOptions) : M (list GeneratedThumbnail) :=
  results <- generateLoop w analysis options 0 (attempted analysis options) [] ;;
  if (length results =? 0)%nat then throw NoThumbnailsGenerated else ret results.

End ThumbnailGenerator.

(* ================================================================== *)
(** ** Notions used to state the properties *)

(** [starts_by eqc p s]: [s] begins with a text matching [p] unit by unit. *)
Fixpoint starts_by (eqc : N -> N -> bool) (p s : jsstring) : bool :=
  match p, s with
  | [], _ => true
  | _ :: _, [] => false
  | c :: p', x :: s' => eqc c x && starts_by eqc p' s'
  end.

(** [all_first n f s]: [s] has at least [n] code units and its first [n]
    satisfy [f]. *)
Fixpoint all_first (n : nat) (f : N -> bool) (s : jsstring) : bool :=
  match n, s with
  | O, _ => true
  | S _, [] => false
  | S m, c :: rest => f c && all_first m f rest
  end.

Module UrlShapes.
Import VideoAnalyzer.

(** An 11-character identifier drawn from [[a-zA-Z0-9_-]]. *)
Definition valid_id (v : jsstring) : Prop :=
  length v = 11%nat /\ forallb is_id_char v = true.

(** [u] shows the shape [marker] with identifier [v] after the prefix
    [pre]. *)
Definition shape_at (marker pre v u : jsstring) : Prop :=
  exists post, u = pre ++ marker ++ v ++ post.

(** [u] contains the shape [marker] followed by some identifier. *)
Definition has_shape (marker u : jsstring) : Prop :=
  exists pre v, valid_id v /\ shape_at marker pre v u.

(** The occurrence after [pre] is the leftmost one of its shape. *)
Definition leftmost (marker pre u : jsstring) : Prop :=
  forall pre' v', valid_id v' -> shape_at marker pre' v' u ->
                  (length pre <= length pre')%nat.

(** No shape listed before position [k] occurs in [u]. *)
Definition no_earlier_shape (k : nat) (u : jsstring) : Prop :=
  forall j m, (j < k)%nat -> nth_error markers j = Some m -> ~ has_shape m u.

Definition shape_here (marker s : jsstring) : bool :=
  starts_by N.eqb marker s && all_first 11 is_id_char (skipn (length marker) s).

(** [shape_before marker n u]: the shape occurs in [u] at a position
    below [n]. *)
Fixpoint shape_before (marker : jsstring) (n : nat) (u : jsstring) : bool :=
  match n with
  | O => false
  | S n' =>
      shape_here marker u ||
      match u with
      | [] => false
      | _ :: rest => shape_before marker n' rest
      end
  end.

(** A URL showing two shapes. *)
Definition two_shapes : jsstring :=
  js "https://youtu.be/AAAAAAAAAAA?ref=youtube.com/watch?v=BBBBBBBBBBB".

End UrlShapes.

(** *** Matchers *)

Definition continuation (A : Type) : Type := jsstring -> option jsstring -> option A.

Definition matcher (A : Type) : Type :=
  jsstring -> option jsstring -> continuation A -> option A.

(** A matcher that only depends on the values of its continuation. *)
Definition extensional {A} (step : matcher A) : Prop :=
  forall s g k1 k2, (forall s' g', k1 s' g' = k2 s' g') -> step s g k1 = step s g k2.

(** A matcher that fails when its continuation always fails. *)
Definition failing_closed {A} (step : matcher A) : Prop :=
  forall s g, step s g (fun _ _ => None) = None.

(** *** Global replacement, as the specification words it *)

Module Replacement.

(** [m] is a text that the pattern text [p] matches, unit by unit. *)
Definition matches_by (eqc : N -> N -> bool) (p m : jsstring) : Prop :=
  Forall2 (fun c x => eqc c x = true) p m.

(** The pattern occurs in [s] right after the prefix [a]. *)
Definition occurs_at (eqc : N -> N -> bool) (p a s : jsstring) : Prop :=
  exists m b, matches_by eqc p m /\ s = a ++ m ++ b.

Definition occurs (eqc : N -> N -> bool) (p s : jsstring) : Prop :=
  exists a, occurs_at eqc p a s.

(** [ReplacedAll eqc p rep s s']: [s'] is [s] with each occurrence of the
    pattern replaced by [rep], the occurrences being taken from the left. *)
Inductive ReplacedAll (eqc : N -> N -> bool) (p rep : jsstring)
  : jsstring -> jsstring -> Prop :=
| RA_none s :
    ~ occurs eqc p s -> ReplacedAll eqc p rep s s
| RA_first a m b b' :
    matches_by eqc p m ->
    (forall a', occurs_at eqc p a' (a ++ m ++ b) -> (length a <= length a')%nat) ->
    ReplacedAll eqc p rep b b' ->
    ReplacedAll eqc p rep (a ++ m ++ b) (a ++ rep ++ b').

Definition note : N := 9834.

(** The cleaning of a library transcript, step by step. *)
Definition Cleaned (raw cleaned : jsstring) : Prop :=
  exists s1 s2 s3 s4 s5 s6 s7 s8,
    ReplacedAll N.eqb (js "&amp;") (js "&") raw s1 /\
    ReplacedAll N.eqb (js "&#39;") (js "'") s1 s2 /\
    ReplacedAll N.eqb (js "&quot;") [34%N] s2 s3 /\
    ReplacedAll N.eqb (js "&lt;") (js "<") s3 s4 /\
    ReplacedAll N.eqb (js "&gt;") (js ">") s4 s5 /\
    ReplacedAll N.eqb (js "[♪♪♪]") [] s5 s6 /\
    ReplacedAll N.eqb [note] [] s6 s7 /\
    ReplacedAll eq_nocase (js "[Music]") [] s7 s8 /\
    cleaned = VideoAnalyzer.collapse_spaces (trim s8).

End Replacement.

(** *** The four transcript sources, as seen from the world *)

Module Sources.
Import VideoAnalyzer.

Definition libraryEvent (videoId : jsstring) : Event := EvFetchTranscript videoId.

Definition vtdArgs (youtubeUrl : jsstring) : list jsstring :=
  [VTD_SCRIPT; js "transcript"; js "--url"; youtubeUrl].

Definition vtdEvent (youtubeUrl : jsstring) : Event :=
  EvExecFile (js "node") (vtdArgs youtubeUrl).

Definition transcriptIoRequest (q : jsstring) : Request :=
  GET (js "https://www.youtube-transcript.io/api/transcript?url=" ++ q) 15000.

Definition supadataRequest (q : jsstring) : Request :=
  GET (js "https://api.supadata.ai/v1/youtube/transcript?url=" ++ q) 15000.

(** The text that a source produces when it is called as external call
    number [n]; [None] when the call fails or carries no text. *)
Definition libraryProduced (w : World) (n : nat) (videoId : jsstring) : option jsstring :=
  match fetchTranscript w n videoId with
  | inr (seg :: segs) =>
      Some (clean_transcript (join (js " ") (map seg_text (seg :: segs))))
  | _ => None
  end.

Definition vtdProduced (w : World) (n : nat) (youtubeUrl : jsstring) : option jsstring :=
  match execFileAsync w n (js "node") (vtdArgs youtubeUrl) with
  | inr stdout => Some (trim stdout)
  | inl _ => None
  end.

Definition okData (w : World) (n : nat) (req : Request) : option JsonData :=
  match fetch w n req with
  | inr response =>
      if ok response then
        match json response with
        | inr data => Some data
        | inl _ => None
        end
      else None
  | inl _ => None
  end.

Definition transcriptIoProduced (w : World) (n : nat) (q : jsstring) : option jsstring :=
  match okData w n (transcriptIoRequest q) with
  | Some data => opt_or (data_transcript data) (data_text data)
  | None => None
  end.

(** Acceptance of a produced text: longer than 20 code units, or
    non-empty. *)
Definition accept_long (o : option jsstring) : option jsstring :=
  match o with
  | Some t => if (20 <? length t)%nat then Some t else None
  | None => None
  end.

Definition accept_nonempty (o : option jsstring) : option jsstring :=
  match o with
  | Some t => if truthy t then Some t else None
  | None => None
  end.

(** The text accepted from each source. *)
Definition libraryText (w : World) (n : nat) (videoId : jsstring) : option jsstring :=
  accept_long (libraryProduced w n videoId).

Definition vtdText (w : World) (n : nat) (youtubeUrl : jsstring) : option jsstring :=
  accept_long (vtdProduced w n youtubeUrl).

Definition transcriptIoText (w : World) (n : nat) (q : jsstring) : option jsstring :=
  accept_nonempty (transcriptIoProduced w n q).

(** Source (d): a non-empty string, or the joined texts of an array. *)
Definition supadataText (w : World) (n : nat) (q : jsstring) : option jsstring :=
  match okData w n (supadataRequest q) with
  | Some data =>
      match data_content data with
      | Some (SupaString s) => accept_nonempty (Some s)
      | Some (SupaSegments texts) => Some (join (js " ") texts)
      | None => None
      end
  | None => None
  end.

(** The chain over the four sources for a run that starts after [n]
    external calls: the result and the events that the run adds. *)
Definition Outcome : Type := ((Error + jsstring) * list Event)%type.

Definition chain (w : World) (n : nat) (youtubeUrl videoId : jsstring) : Outcome :=
  let ea := libraryEvent videoId in
  let eb := vtdEvent youtubeUrl in
  match libraryText w n videoId with
  | Some t => (inr t, [ea])
  | None =>
      match vtdText w (n + 1) youtubeUrl with
      | Some t => (inr t, [ea; eb])
      | None =>
          match encodeURIComponent w youtubeUrl with
          | inl _ => (inl NoTranscriptAvailable, [ea; eb])
          | inr q =>
              let ec := EvFetch (transcriptIoRequest q) in
              let ed := EvFetch (supadataRequest q) in
              match transcriptIoText w (n + 2) q with
              | Some t => (inr t, [ea; eb; ec])
              | None =>
                  match supadataText w (n + 3) q with
                  | Some t => (inr t, [ea; eb; ec; ed])
                  | None => (inl NoTranscriptAvailable, [ea; eb; ec; ed])
                  end
              end
          end
      end
  end.

(** The events of the four sources, in their order. *)
Definition allSourceEvents (w : World) (youtubeUrl videoId : jsstring) : list Event :=
  [libraryEvent videoId; vtdEvent youtubeUrl] ++
  match encodeURIComponent w youtubeUrl with
  | inr q => [EvFetch (transcriptIoRequest q); EvFetch (supadataRequest q)]
  | inl _ => []
  end.

(** A world for examples: every external call fails unless overridden. *)
Definition failure : Failure :=
  {| failure_name := js "Error"; failure_message := js "unavailable" |}.

Definition deadWorld : World :=
  {| OPENROUTER_API_KEY := None;
     JSON_parse := fun _ => inl failure;
     encodeURIComponent := fun s => inr s;
     fetchTranscript := fun _ _ => inl failure;
     execFileAsync := fun _ _ _ => inl failure;
     fetch := fun _ _ => inl failure;
     Date_now := fun _ => 0%N |}.

Definition emptyData : JsonData :=
  {| data_transcript := None; data_text := None; data_content := None;
     data_title := None; data_author_name := None; data_choices := None |}.

Definition okResponse (data : JsonData) : Response :=
  {| ok := true; status := 200; text := inl failure; json := inr data |}.

Definition sampleUrl : jsstring := js "https://youtu.be/dQw4w9WgXcQ".

(** Sources (a) and (b) fail; the first web API answers with a short
    text, the second one with a long text. *)
Definition shortApiWorld : World :=
  {| OPENROUTER_API_KEY := None;
     JSON_parse := fun _ => inl failure;
     encodeURIComponent := fun s => inr s;
     fetchTranscript := fun _ _ => inl failure;
     execFileAsync := fun _ _ _ => inl failure;
     fetch := fun n _ =>
       match n with
       | 2%nat => inr (okResponse
                         {| data_transcript := Some (js "Hi all");
                            data_text := None; data_content := None;
                            data_title := None; data_author_name := None;
                            data_choices := None |})
       | _ => inr (okResponse
                     {| data_transcript := None; data_text := None;
                        data_content :=
                          Some (SupaString (js "a transcript of more than twenty characters"));
                        data_title := None; data_author_name := None;
                        data_choices := None |})
       end;
     Date_now := fun _ => 0%N |}.

(** The library answers with one segment. *)
Definition libraryWorld (segment : jsstring) : World :=
  {| OPENROUTER_API_KEY := None;
     JSON_parse := fun _ => inl failure;
     encodeURIComponent := fun s => inr s;
     fetchTranscript := fun _ _ => inr [ {| seg_text := segment |} ];
     execFileAsync := fun _ _ _ => inl failure;
     fetch := fun _ _ => inl failure;
     Date_now := fun _ => 0%N |}.

Definition sampleId : jsstring := js "dQw4w9WgXcQ".

(** Sources (a) to (c) fail and the second web API answers with an array
    of segments. *)
Definition segmentsApiWorld : World :=
  {| OPENROUTER_API_KEY := None;
     JSON_parse := fun _ => inl failure;
     encodeURIComponent := fun s => inr s;
     fetchTranscript := fun _ _ => inl failure;
     execFileAsync := fun _ _ _ => inl failure;
     fetch := fun n _ =>
       match n with
       | 3%nat => inr (okResponse
                         {| data_transcript := None; data_text := None;
                            data_content := Some (SupaSegments [js "Tom &amp; Jerry"; js "♪ sing"]);
                            data_title := None; data_author_name := None;
                            data_choices := None |})
       | _ => inl failure
       end;
     Date_now := fun _ => 0%N |}.

Definition markedSegment : jsstring :=
  js "[Music] Tom &amp; Jerry ♪ sing &quot;la  la&quot; for &lt;you&gt; &amp;#39;now&#39; ".

(** The library fails and the command-line tool prints a marked text. *)
Definition vtdWorld : World :=
  {| OPENROUTER_API_KEY := None;
     JSON_parse := fun _ => inl failure;
     encodeURIComponent := fun s => inr s;
     fetchTranscript := fun _ _ => inl failure;
     execFileAsync := fun _ _ _ => inr markedSegment;
     fetch := fun _ _ => inl failure;
     Date_now := fun _ => 0%N |}.

End Sources.

(** *** The two shapes of an image response *)

Module ImageShapes.
Import Sources.

(** The text carried by the content of a message, if any. *)
Definition text_content (m : ResponseMessage) : option jsstring :=
  match content m with
  | ContentString s => Some s
  | ContentParts parts => first_text parts
  | ContentNone => None
  end.


(** The side-channel URL that the client reads: the one of the first
    entry of the [images] array, when it is not empty. *)
Definition first_side_url (m : ResponseMessage) : option jsstring :=
  match images m with
  | Some (img :: _) =>
      match option_map url (entry_image_url img) with
      | Some u => if truthy u then Some u else None
      | None => None
      end
  | _ => None
  end.





Definition pngUrl : jsstring := js "data:image/png;base64,iVBORw0KGgo=".

(** A message with an image in the side channel and no text. *)
Definition sideMessage : ResponseMessage :=
  {| content := ContentNone;
     images := Some [ {| entry_image_url := Some {| url := pngUrl |} |} ] |}.

(** A message with an inline image part after a text part. *)
Definition inlineMessage : ResponseMessage :=
  {| content :=
       ContentParts
         [ {| part_type := js "text"; part_text := Some (js "a red fox");
              part_image_url := None |};
           {| part_type := js "image_url"; part_text := None;
              part_image_url := Some {| url := pngUrl |} |} ];
     images := None |}.


Definition dataOf (m : ResponseMessage) : JsonData :=
  {| data_transcript := None; data_text := None; data_content := None;
     data_title := None; data_author_name := None;
     data_choices := Some [ {| message := Some m |} ] |}.

(** A world with an API key whose provider answers every request with
    the message [m]. *)
Definition providerWorld (m : ResponseMessage) : World :=
  {| OPENROUTER_API_KEY := Some (js "sk-or-test");
     JSON_parse := fun _ => inl failure;
     encodeURIComponent := fun s => inr s;
     fetchTranscript := fun _ _ => inl failure;
     execFileAsync := fun _ _ _ => inl failure;
     fetch := fun _ _ => inr (okResponse (dataOf m));
     Date_now := fun n => (1700000000000 + N.of_nat n)%N |}.





End ImageShapes.

(** *** The generations of a run of [generateThumbnails] *)

Module Generation.
Import OpenRouter ThumbnailGenerator Sources ImageShapes.

Definition has_key (w : World) : bool := opt_truthy (OPENROUTER_API_KEY w).

(** The outcome of a generation whose request is external call number [n]. *)
Definition generation (w : World) (n : nat) (prompt : jsstring) (options : ImageOptions)
  : Error + ImageResult :=
  match OPENROUTER_API_KEY w with
  | Some apiKey =>
      if truthy apiKey then
        match raising (fetch w n (imageRequest apiKey prompt options)) with
        | inl e => inl e
        | inr response => imageOfResponse response
        end
      else inl ConfigurationError
  | None => inl ConfigurationError
  end.

(** The outcome of the generation for concept number [i] of a run that
    starts after [n0] external calls: generations are issued one after the
    other, one request each. *)
Definition outcome (w : World) (analysis : VideoAnalysis) (options : GenerateOptions)
           (n0 i : nat) (c : ThumbnailConcept) : Error + ImageResult :=
  generation w (n0 + i) (buildImagePrompt c analysis (faceDescription options))
             (imageOptions options).

Definition succeeded {A} (r : Error + A) : bool :=
  match r with
  | inr _ => true
  | inl _ => false
  end.

(** The concepts with their positions, from position [j]. *)
Definition indexed_from (j : nat) (cs : list ThumbnailConcept)
  : list (nat * ThumbnailConcept) :=
  combine (seq j (length cs)) cs.

(** The item that a concept contributes: its thumbnail when its generation
    succeeds, nothing when it fails. *)
Definition item (w : World) (analysis : VideoAnalysis) (options : GenerateOptions)
           (n0 : nat) (ic : nat * ThumbnailConcept) : list GeneratedThumbnail :=
  match outcome w analysis options n0 (fst ic) (snd ic) with
  | inr r => [thumbnail (Date_now w (n0 + fst ic + 1)) (fst ic) (snd ic) r]
  | inl _ => []
  end.

(** The successful items, in concept order. *)
Definition successes (w : World) (analysis : VideoAnalysis) (options : GenerateOptions)
           (n0 : nat) (cs : list ThumbnailConcept) : list GeneratedThumbnail :=
  flat_map (item w analysis options n0) (indexed_from 0 cs).

(** The options with the count left out. *)
Definition without_count (options : GenerateOptions) : GenerateOptions :=
  {| faceImageBase64 := faceImageBase64 options;
     faceDescription := faceDescription options;
     model := model options;
     count := None |}.

Definition sampleConcept (overlay : jsstring) : ThumbnailConcept :=
  {| c_description := js "a fox jumping over a fence";
     c_textOverlay := overlay;
     c_mood := js "exciting";
     c_visualStyle := js "cinematic";
     c_faceExpression := js "shocked" |}.

(** An analysis with four concepts. *)
Definition sampleAnalysis : VideoAnalysis :=
  {| va_title := js "Foxes"; va_topic := js "wildlife"; va_hook := js "foxes jump";
     va_mood := js "exciting"; va_keyMoments := []; va_visualElements := [];
     va_textSuggestions := []; colorPalette := [js "#FF0000"; js "#000000"];
     va_targetEmotion := js "curiosity";
     thumbnailConcepts :=
       [ sampleConcept (js "ONE"); sampleConcept (js "TWO");
         sampleConcept (js "THREE"); sampleConcept (js "FOUR") ] |}.

Definition optionsWithCount (c : option Z) : GenerateOptions :=
  {| faceImageBase64 := None; faceDescription := None; model := None; count := c |}.

(** A provider that fails on its second request and answers the others
    with an image. *)
Definition secondFailsWorld : World :=
  {| OPENROUTER_API_KEY := Some (js "sk-or-test");
     JSON_parse := fun _ => inl failure;
     encodeURIComponent := fun s => inr s;
     fetchTranscript := fun _ _ => inl failure;
     execFileAsync := fun _ _ _ => inl failure;
     fetch := fun n _ =>
       match n with
       | 1%nat => inl failure
       | _ => inr (okResponse (dataOf sideMessage))
       end;
     Date_now := fun n => (1700000000000 + N.of_nat n)%N |}.

End Generation.

(** *** Worlds for the analyzers *)

Module AnalyzerWorlds.
Import Sources ImageShapes.

(** The provider answers every completion with the text [answer], which
    the JSON parser refuses. *)
Definition proseWorld (answer : jsstring) : World :=
  {| OPENROUTER_API_KEY := Some (js "sk-or-test");
     JSON_parse := fun _ => inl {| failure_name := js "SyntaxError";
                                   failure_message := js "Unexpected token" |};
     encodeURIComponent := fun s => inr s;
     fetchTranscript := fun _ _ => inl failure;
     execFileAsync := fun _ _ _ => inl failure;
     fetch := fun _ _ =>
       inr (okResponse (dataOf {| content := ContentString answer; images := None |}));
     Date_now := fun _ => 0%N |}.

(** No transcript source answers, the metadata endpoint gives a title, the
    provider answers [{}] and the parser accepts it. *)
Definition titleOnlyWorld : World :=
  {| OPENROUTER_API_KEY := Some (js "sk-or-test");
     JSON_parse := fun s => if str_eqb s (js "{}") then inr (VObject []) else inl failure;
     encodeURIComponent := fun s => inr s;
     fetchTranscript := fun _ _ => inl failure;
     execFileAsync := fun _ _ _ => inl failure;
     fetch := fun _ req =>
       match req with
       | GET _ 10000 =>
           inr (okResponse
                  {| data_transcript := None; data_text := None; data_content := None;
                     data_title := Some (js "Foxes at dawn");
                     data_author_name := None; data_choices := None |})
       | GET _ _ => inl failure
       | POST _ _ _ =>
           inr (okResponse (dataOf {| content := ContentString (tpl "```json
{}
```");
                                      images := None |}))
       end;
     Date_now := fun _ => 0%N |}.

(** The ghost event of a call of the face analyzer. *)
Definition invoked : Event := EvInvoke (js "analyzeFace").

Definition sixPhotos : list jsstring :=
  [js "a"; js "b"; js "c"; js "d"; js "e"; js "f"].

End AnalyzerWorlds.

(* ================================================================== *)
(** ** lib/video-analyzer.ts: [analyzeDescription] *)

Module DescriptionAnalyzer.
Import VideoAnalyzer.

Definition DescriptionParseError : Error :=
  Err (js "Failed to parse analysis. Please try again.").

Definition descriptionPrompt (description : jsstring) : jsstring :=
  tpl "You are a YouTube thumbnail expert. Based on this video description, generate thumbnail concepts.

VIDEO DESCRIPTION: " ++ description ++
  tpl "

Provide a JSON response with the following structure:
{
  ^title^: ^suggested video title^,
  ^topic^: ^main topic in 2-3 words^,
  ^hook^: ^the main hook/value proposition^,
  ^mood^: ^primary mood (exciting/educational/shocking/funny/inspirational/dramatic)^,
  ^keyMoments^: [^3-5 potential key points^],
  ^visualElements^: [^5-7 specific visual elements for thumbnails^],
  ^textSuggestions^: [^4-6 short text overlays (1-4 words each)^],
  ^colorPalette^: [^3-4 hex colors matching the mood^],
  ^targetEmotion^: ^emotion to evoke in viewers^,
  ^thumbnailConcepts^: [
    {
      ^description^: ^detailed thumbnail scene description^,
      ^textOverlay^: ^text overlay (1-4 words)^,
      ^mood^: ^concept mood^,
      ^visualStyle^: ^style (cinematic/cartoon/minimalist/bold/etc)^,
      ^faceExpression^: ^expression (shocked/excited/curious/etc)^
    }
  ]
}

Generate exactly 4 distinctly different thumbnail concepts.
Return ONLY valid JSON, no markdown.".

Definition descriptionMessages (description : jsstring) : list OpenRouterMessage :=
  [ {| role := js "user"; msg_content := ContentString (descriptionPrompt description) |} ].

Definition descriptionOptions : CompletionOptions :=
  {| opt_model := None;
     opt_temperature := Some (8 # 10);
     opt_maxTokens := Some 2048%N |}.

(** The parsed completion is cast to [VideoAnalysis] without a check. *)
Definition analyzeDescription (w : World) (description : jsstring) : M JsValue :=
  result <- OpenRouter.textCompletion w (descriptionMessages description)
                                      descriptionOptions ;;
  try_catch (builtin (JSON_parse w (strip_fences result)))
            (fun _ => throw DescriptionParseError).

End DescriptionAnalyzer.

(* ================================================================== *)
(** ** lib/video-analyzer.ts, earlier revision: [extractTranscript] *)

(** The earlier revision of the resolver asks the two web APIs only; its
    two blocks are those of sources (c) and (d) of the current one. *)
Module VideoAnalyzerLegacy.
Import VideoAnalyzer.

Definition extractTranscript (w : World) (youtubeUrl : jsstring) : M jsstring :=
  match extractVideoId youtubeUrl with
  | None => throw InvalidYouTubeUrl
  | Some videoId =>
      if negb (truthy videoId) then throw InvalidYouTubeUrl else
      c <- fromTranscriptIo w youtubeUrl ;;
      match c with
      | Some t => ret t
      | None =>
          d <- fromSupadata w youtubeUrl ;;
          match d with
          | Some t => ret t
          | None => throw NoTranscriptAvailable
          end
      end
  end.

End VideoAnalyzerLegacy.

(* ================================================================== *)
(** ** lib/thumbnail-generator.ts: [generateCustomThumbnail] *)

Module CustomThumbnail.
Import ThumbnailGenerator.

(** [options: { faceImageBase64?: string; model?: string }] *)
Record CustomOptions : Type := {
  custom_faceImageBase64 : option jsstring;
  custom_model : option jsstring
}.

Definition customPrompt (prompt : jsstring) : jsstring :=
  js "Generate a professional YouTube thumbnail image at 1280x720 resolution (16:9 aspect ratio).

" ++ prompt ++
  js "

IMPORTANT: High contrast, single focal point, bold composition. Professional YouTube thumbnail quality. Avoid cluttering the bottom-right corner.".

Definition customImageOptions (options : CustomOptions) : ImageOptions :=
  {| img_model := Some (opt_or_default (custom_model options) OpenRouter.MODELS.IMAGE_FLASH);
     referenceImageBase64 := custom_faceImageBase64 options;
     aspectRatio := None;
     imageSize := None |}.

Definition customConcept (prompt : jsstring) : ThumbnailConcept :=
  {| c_description := prompt;
     c_textOverlay := [];
     c_mood := js "custom";
     c_visualStyle := js "custom";
     c_faceExpression := js "natural" |}.

Definition generateCustomThumbnail (w : World) (prompt : jsstring)
           (options : CustomOptions) : M GeneratedThumbnail :=
  r <- OpenRouter.generateImage w (customPrompt prompt) (customImageOptions options) ;;
  stamp <- now w ;;
  ret {| id := js "thumb-custom-" ++ of_N stamp;
         thumb_imageBase64 := imageBase64 r;
         concept := customConcept prompt;
         textOverlay := [];
         width := 1280;
         height := 720 |}.

End CustomThumbnail.

(* ================================================================== *)
(** ** app/api/analyze/route.ts *)

Module AnalyzeRoute.

(** The two fields that the handler reads from the body; [None] is an
    absent field. *)
Record RequestBody : Type := {
  youtubeUrl : option jsstring;
  description : option jsstring
}.

Definition NextRequest : Type := (Failure + RequestBody)%type.

Inductive ResponseBody : Type :=
| BodyError (error : jsstring)
| BodyAnalysis (analysis : JsValue).

Record NextResponse : Type := { http_status : N; http_body : ResponseBody }.

Definition POST (w : World) (request : NextRequest) : M NextResponse :=
  try_catch
    (body <- builtin request ;;
     if negb (opt_truthy (youtubeUrl body)) && negb (opt_truthy (description body)) then
       ret {| http_status := 400;
              http_body := BodyError (js "Please provide a YouTube URL or video description") |}
     else
       analysis <-
         (if opt_truthy (youtubeUrl body)
          then VideoAnalyzer.analyzeVideo w (nullish (youtubeUrl body) [])
          else DescriptionAnalyzer.analyzeDescription w (nullish (description body) [])) ;;
       ret {| http_status := 200; http_body := BodyAnalysis analysis |})
    (fun error =>
       emit (EvConsoleError (js "Analysis error:") (Some error)) ;;;
       ret {| http_status := 500; http_body := BodyError (error_message error) |}).

End AnalyzeRoute.

(* ================================================================== *)
(** ** app/api/text-suggestions/route.ts *)

Module TextSuggestionsRoute.

Record RequestBody : Type := {
  topic : option jsstring;
  mood : option jsstring;
  currentText : option jsstring
}.

Definition NextRequest : Type := (Failure + RequestBody)%type.

Inductive ResponseBody : Type :=
| BodyError (error : jsstring)
| BodySuggestions (suggestions : JsValue).

Record NextResponse : Type := { http_status : N; http_body : ResponseBody }.

Definition suggestionsPrompt (body : RequestBody) : jsstring :=
  js "You are a YouTube thumbnail text expert. Generate attention-grabbing text overlay suggestions for a YouTube thumbnail.

TOPIC: " ++ nullish (topic body) [] ++
  js "
MOOD: " ++ opt_or_default (mood body) (js "engaging") ++
  js "
" ++ (if opt_truthy (currentText body)
        then js "CURRENT TEXT: " ++ nullish (currentText body) [] else []) ++
  js "

Rules for thumbnail text:
- Maximum 4 words
- Create curiosity/urgency
- Use power words (SECRET, HIDDEN, EXPOSED, INSANE, etc.)
- Don't duplicate the video title
- Should be readable at small sizes

Generate exactly 8 text overlay suggestions. Return as a JSON array of strings.
" ++
  tpl "Example: [^DON'T DO THIS^, ^GAME CHANGER^, ^THEY LIED^, ^EXPOSED^]

Return ONLY the JSON array, no explanation.".

Definition suggestionsMessages (body : RequestBody) : list OpenRouterMessage :=
  [ {| role := js "user"; msg_content := ContentString (suggestionsPrompt body) |} ].

Definition suggestionsOptions : CompletionOptions :=
  {| opt_model := None;
     opt_temperature := Some (9 # 10);
     opt_maxTokens := Some 256%N |}.

Definition POST (w : World) (request : NextRequest) : M NextResponse :=
  try_catch
    (body <- builtin request ;;
     if negb (opt_truthy (topic body)) then
       ret {| http_status := 400; http_body := BodyError (js "Please provide a topic") |}
     else
       result <- OpenRouter.textCompletion w (suggestionsMessages body)
                                           suggestionsOptions ;;
       suggestions <- builtin (JSON_parse w (VideoAnalyzer.strip_fences result)) ;;
       ret {| http_status := 200; http_body := BodySuggestions suggestions |})
    (fun error =>
       emit (EvConsoleError (js "Text suggestion error:") (Some error)) ;;;
       ret {| http_status := 500;
              http_body := BodyError (js "Failed to generate text suggestions") |}).

End TextSuggestionsRoute.

(* ================================================================== *)
(** ** app/api/generate/route.ts *)

Module GenerateRoute.
Import ThumbnailGenerator CustomThumbnail.

Record RequestBody : Type := {
  body_analysis : option VideoAnalysis;
  body_customPrompt : option jsstring;
  body_faceImageBase64 : option jsstring;
  body_faceImages : option (list jsstring);
  body_faceDescription : option jsstring;
  body_model : option jsstring;
  body_count : option Z
}.

Definition NextRequest : Type := (Failure + RequestBody)%type.

(** An element of the [thumbnails] array of the response. *)
Record ResponseThumbnail : Type := {
  out_id : jsstring;
  imageDataUrl : jsstring;
  out_concept : ThumbnailConcept;
  out_textOverlay : jsstring;
  out_width : N;
  out_height : N
}.

Inductive ResponseBody : Type :=
| BodyError (error : jsstring)
| BodyThumbnails (thumbnails : list ResponseThumbnail).

Record NextResponse : Type := { http_status : N; http_body : ResponseBody }.

(** [faceImageBase64 || (faceImages && faceImages[0]) || undefined] *)
Definition primaryFaceImage (body : RequestBody) : option jsstring :=
  if opt_truthy (body_faceImageBase64 body) then body_faceImageBase64 body
  else
    match body_faceImages body with
    | Some (first :: _) => if truthy first then Some first else None
    | _ => None
    end.

(** [count || 4] *)
Definition countOrDefault (body : RequestBody) : Z :=
  match body_count body with
  | Some c => if (c =? 0)%Z then 4%Z else c
  | None => 4%Z
  end.

Definition customOptions (body : RequestBody) : CustomOptions :=
  {| custom_faceImageBase64 := primaryFaceImage body;
     custom_model := body_model body |}.

Definition generateOptions (body : RequestBody) : GenerateOptions :=
  {| faceImageBase64 := primaryFaceImage body;
     faceDescription := body_faceDescription body;
     model := body_model body;
     count := Some (countOrDefault body) |}.

Definition responseThumbnail (t : GeneratedThumbnail) : ResponseThumbnail :=
  {| out_id := id t;
     imageDataUrl := js "data:image/png;base64," ++ thumb_imageBase64 t;
     out_concept := concept t;
     out_textOverlay := textOverlay t;
     out_width := width t;
     out_height := height t |}.

(** The cases of the two tests [!analysis && !customPrompt] and
    [customPrompt]; [analysis] is an object or absent. *)
Definition POST (w : World) (request : NextRequest) : M NextResponse :=
  try_catch
    (body <- builtin request ;;
     match body_analysis body, opt_truthy (body_customPrompt body) with
     | None, false =>
         ret {| http_status := 400;
                http_body := BodyError (js "Please provide video analysis or a custom prompt") |}
     | _, true =>
         thumbnail <- generateCustomThumbnail w (nullish (body_customPrompt body) [])
                                              (customOptions body) ;;
         ret {| http_status := 200;
                http_body := BodyThumbnails (map responseThumbnail [thumbnail]) |}
     | Some analysis, false =>
         thumbnails <- generateThumbnails w analysis (generateOptions body) ;;
         ret {| http_status := 200;
                http_body := BodyThumbnails (map responseThumbnail thumbnails) |}
     end)
    (fun error =>
       emit (EvConsoleError (js "Generation error:") (Some error)) ;;;
       ret {| http_status := 500; http_body := BodyError (error_message error) |}).

End GenerateRoute.

(* ================================================================== *)
(** ** Further notions used to state the properties *)

(** *** The completion of a run of [textCompletion] *)

Module Completion.
Import OpenRouter Generation.

(** The request that [textCompletion] sends. *)
Definition completionRequest (apiKey : jsstring) (messages : list OpenRouterMessage)
           (options : CompletionOptions) : Request :=
  POST OPENROUTER_API_URL (request_headers apiKey)
       {| req_model := opt_or_default (opt_model options) MODELS.ANALYSIS;
          req_messages := messages;
          req_temperature := Some (nullish (opt_temperature options) (7 # 10));
          req_max_tokens := Some (nullish (opt_maxTokens options) 2048%N);
          req_modalities := None;
          req_image_config := None;
          req_provider_order := None |}.

(** The text read from a response. *)
Definition completionOfResponse (response : Response) : Error + jsstring :=
  if negb (ok response) then
    match raising (text response) with
    | inl e => inl e
    | inr error =>
        inl (Err (js "OpenRouter API error (" ++ of_N (status response)
                    ++ js "): " ++ error))
    end
  else
    match raising (json response) with
    | inl e => inl e
    | inr data => completionText data
    end.

(** The outcome of a completion whose request is external call number
    [n]. *)
Definition completion (w : World) (n : nat) (messages : list OpenRouterMessage)
           (options : CompletionOptions) : Error + jsstring :=
  match OPENROUTER_API_KEY w with
  | Some apiKey =>
      if truthy apiKey then
        match raising (fetch w n (completionRequest apiKey messages options)) with
        | inl e => inl e
        | inr response => completionOfResponse response
        end
      else inl ConfigurationError
  | None => inl ConfigurationError
  end.

(** The trace that a call of the provider leaves. *)
Definition afterRequest (w : World) (tr : list Event) (req : jsstring -> Request)
  : list Event :=
  if has_key w then tr ++ [EvFetch (req (nullish (OPENROUTER_API_KEY w) []))] else tr.

(** An error raised by the runtime, by a library or by an external
    call, as opposed to one that the sources construct. *)
Definition is_runtime_error (e : Error) : bool :=
  match e with
  | Exn _ _ => true
  | Err _ => false
  end.

(** An error message of the provider client for a response that is not
    2xx. *)
Definition is_http_error (prefix : jsstring) (e : Error) : Prop :=
  exists code body, e = Err (prefix ++ of_N code ++ js "): " ++ body).


(** The parse of a completion by the two analyzers of
    [lib/video-analyzer.ts]: fences removed, and the error [failed] of the
    analyzer when the parser refuses the text. *)
Definition parsed (w : World) (failed : Error) (text : jsstring) : Error + JsValue :=
  match JSON_parse w (VideoAnalyzer.strip_fences text) with
  | inl _ => inl failed
  | inr v => inr v
  end.



End Completion.

(** *** Worlds and requests of the transcript and metadata properties *)

Module MoreSources.
Import VideoAnalyzer Sources.

Definition oembedRequest (q : jsstring) : Request :=
  GET (js "https://www.youtube.com/oembed?url=" ++ q ++ js "&format=json") 10000.

Definition noMetadata : VideoMetadata := {| title := []; author := [] |}.

(** Sources (a) to (c) fail and the second web API answers with an array
    of segments without text. *)
Definition blankSegmentsWorld : World :=
  {| OPENROUTER_API_KEY := None;
     JSON_parse := fun _ => inl failure;
     encodeURIComponent := fun s => inr s;
     fetchTranscript := fun _ _ => inl failure;
     execFileAsync := fun _ _ _ => inl failure;
     fetch := fun n _ =>
       match n with
       | 3%nat => inr (okResponse
                         {| data_transcript := None; data_text := None;
                            data_content := Some (SupaSegments []);
                            data_title := None; data_author_name := None;
                            data_choices := None |})
       | _ => inl failure
       end;
     Date_now := fun _ => 0%N |}.

(** The world seen [k] external calls later. *)
Definition later (k : nat) (w : World) : World :=
  {| OPENROUTER_API_KEY := OPENROUTER_API_KEY w;
     JSON_parse := JSON_parse w;
     encodeURIComponent := encodeURIComponent w;
     fetchTranscript := fun n => fetchTranscript w (n + k);
     execFileAsync := fun n => execFileAsync w (n + k);
     fetch := fun n => fetch w (n + k);
     Date_now := fun n => Date_now w (n + k) |}.

End MoreSources.

(** *** Normalised spacing *)

Module Spacing.

(** Every whitespace unit of [s] is a space that a unit other than a
    whitespace follows: no tab or line break, no two whitespaces in a
    row, none at the end. *)
Fixpoint spaced (s : jsstring) : bool :=
  match s with
  | [] => true
  | c :: rest =>
      (if is_space c
       then (c =? 32)%N && match rest with
                           | d :: _ => negb (is_space d)
                           | [] => false
                           end
       else true)
      && spaced rest
  end.

Definition starts_clean (s : jsstring) : bool :=
  match s with
  | [] => true
  | c :: _ => negb (is_space c)
  end.

Definition ends_clean (s : jsstring) : Prop :=
  forall pre c, s = pre ++ [c] -> is_space c = false.

Definition normalized (s : jsstring) : bool := starts_clean s && spaced s.

End Spacing.

(** *** Code fences *)

Module Fences.

(** The pattern [p\n?] for a literal text [p]. *)
Definition fence (p : jsstring) : regex := RSeq (RLit p) (ROpt (RChar 10)).

End Fences.

(** *** Identifiers, log lines and thumbnails of the generator *)

Module Generated.

(** The code units of a decimal numeral. *)
Fixpoint digits (d : Decimal.uint) : jsstring :=
  match d with
  | Decimal.Nil => []
  | Decimal.D0 d' => 48%N :: digits d'
  | Decimal.D1 d' => 49%N :: digits d'
  | Decimal.D2 d' => 50%N :: digits d'
  | Decimal.D3 d' => 51%N :: digits d'
  | Decimal.D4 d' => 52%N :: digits d'
  | Decimal.D5 d' => 53%N :: digits d'
  | Decimal.D6 d' => 54%N :: digits d'
  | Decimal.D7 d' => 55%N :: digits d'
  | Decimal.D8 d' => 56%N :: digits d'
  | Decimal.D9 d' => 57%N :: digits d'
  end.

(** The line that the generator logs when the generation for concept
    number [i] fails with [e]. *)
Definition failureLog (e : Error) (i : nat) : Event :=
  EvConsoleError (js "Failed to generate thumbnail " ++ of_N (N.of_nat (i + 1)) ++ js ":")
                 (Some e).

(** The thumbnail [t] renders the concept [c]: same overlay, mood, style
    and expression, at 1280x720. *)
Definition renders (c : ThumbnailGenerator.ThumbnailConcept)
           (t : ThumbnailGenerator.GeneratedThumbnail) : Prop :=
  ThumbnailGenerator.width t = 1280%N /\
  ThumbnailGenerator.height t = 720%N /\
  ThumbnailGenerator.textOverlay t = ThumbnailGenerator.c_textOverlay c /\
  ThumbnailGenerator.c_textOverlay (ThumbnailGenerator.concept t)
  = ThumbnailGenerator.c_textOverlay c /\
  ThumbnailGenerator.c_mood (ThumbnailGenerator.concept t) = ThumbnailGenerator.c_mood c /\
  ThumbnailGenerator.c_visualStyle (ThumbnailGenerator.concept t)
  = ThumbnailGenerator.c_visualStyle c /\
  ThumbnailGenerator.c_faceExpression (ThumbnailGenerator.concept t)
  = ThumbnailGenerator.c_faceExpression c.

End Generated.

(** *** Notions for the endpoints *)

Module Endpoints.
Import ThumbnailGenerator CustomThumbnail.

(** The thumbnail that [generateCustomThumbnail] builds at time [stamp]
    from the image [r]. *)
Definition customThumbnail (stamp : N) (prompt : jsstring) (r : ImageResult)
  : GeneratedThumbnail :=
  {| id := js "thumb-custom-" ++ of_N stamp;
     thumb_imageBase64 := imageBase64 r;
     concept := customConcept prompt;
     textOverlay := [];
     width := 1280;
     height := 720 |}.

(** The body with the fields that the custom path reads. *)
Definition customOnly (body : GenerateRoute.RequestBody) : GenerateRoute.RequestBody :=
  {| GenerateRoute.body_analysis := None;
     GenerateRoute.body_customPrompt := GenerateRoute.body_customPrompt body;
     GenerateRoute.body_faceImageBase64 := GenerateRoute.body_faceImageBase64 body;
     GenerateRoute.body_faceImages := GenerateRoute.body_faceImages body;
     GenerateRoute.body_faceDescription := None;
     GenerateRoute.body_model := GenerateRoute.body_model body;
     GenerateRoute.body_count := None |}.

(** The options that the generator would get if the endpoint passed the
    count on as it is. *)
Definition passedOptions (body : GenerateRoute.RequestBody) : GenerateOptions :=
  {| faceImageBase64 := GenerateRoute.primaryFaceImage body;
     faceDescription := GenerateRoute.body_faceDescription body;
     model := GenerateRoute.body_model body;
     count := GenerateRoute.body_count body |}.

(** A body of the generation endpoint with a custom prompt only. *)
Definition promptBody (prompt : jsstring) : GenerateRoute.RequestBody :=
  {| GenerateRoute.body_analysis := None;
     GenerateRoute.body_customPrompt := Some prompt;
     GenerateRoute.body_faceImageBase64 := None;
     GenerateRoute.body_faceImages := None;
     GenerateRoute.body_faceDescription := None;
     GenerateRoute.body_model := None;
     GenerateRoute.body_count := None |}.

(** A body of the generation endpoint with an analysis only. *)
Definition analysisBody (analysis : VideoAnalysis) (c : option Z)
  : GenerateRoute.RequestBody :=
  {| GenerateRoute.body_analysis := Some analysis;
     GenerateRoute.body_customPrompt := None;
     GenerateRoute.body_faceImageBase64 := None;
     GenerateRoute.body_faceImages := None;
     GenerateRoute.body_faceDescription := None;
     GenerateRoute.body_model := None;
     GenerateRoute.body_count := c |}.

Definition jpegUrl : jsstring := js "data:image/jpeg;base64,/9j/4AAQSkZJRg==".

(** A message with a JPEG image in the side channel. *)
Definition jpegMessage : ResponseMessage :=
  {| content := ContentNone;
     images := Some [ {| entry_image_url := Some {| url := jpegUrl |} |} ] |}.

End Endpoints.

(** *** Bodies of the analysis and suggestion endpoints *)

Module RouteBodies.

(** The body of the analysis endpoint with the description left out. *)
Definition urlOnly (body : AnalyzeRoute.RequestBody) : AnalyzeRoute.RequestBody :=
  {| AnalyzeRoute.youtubeUrl := AnalyzeRoute.youtubeUrl body;
     AnalyzeRoute.description := None |}.

Definition topicBody (topic : jsstring) : TextSuggestionsRoute.RequestBody :=
  {| TextSuggestionsRoute.topic := Some topic;
     TextSuggestionsRoute.mood := None;
     TextSuggestionsRoute.currentText := None |}.

Definition fixedMessage : jsstring := js "Failed to generate text suggestions".

End RouteBodies.

(* ================================================================== *)
(** * Properties *)

(** Splitting of a conjunction into its conjuncts. *)
Ltac split_all := repeat match goal with |- _ /\ _ => split end.

(** Case analysis on the condition of the first conditional of the goal. *)
Ltac case_if :=
  match goal with
  | |- context [if ?b then _ else _] => destruct b eqn:?
  end.

(** ** Sanity checks of the string and pattern primitives *)

Example js_decodes_utf8 : js "[♪♪♪]" = [91; 9834; 9834; 9834; 93]%N.
Proof. vm_compute. reflexivity. Qed.

Example replace_all_entities :
  replace_all (RLit (js "&amp;")) (js "&") (js "a &amp;&amp;#39; b") = js "a &&#39; b".
Proof. vm_compute. reflexivity. Qed.

Example replace_all_spaces :
  replace_all (RPlus (RClass is_space)) (js " ") (js "a  b 	 c") = js "a b c".
Proof. vm_compute. reflexivity. Qed.

Example replace_all_empty_matches :
  replace_all (RStar (RChar 120)) (js "-") (js "abc") = js "-a-b-c-".
Proof. vm_compute. reflexivity. Qed.

Example replace_all_nocase :
  replace_all (RLitI (js "[Music]")) [] (js "x [MUSIC] y [music] z") = js "x  y  z".
Proof. vm_compute. reflexivity. Qed.

Example trim_both_ends : trim (js "  a b
") = js "a b".
Proof. vm_compute. reflexivity. Qed.

Example strip_fences_json :
  VideoAnalyzer.strip_fences (tpl "```json
{^a^: 1}
```") = tpl "{^a^: 1}".
Proof. vm_compute. reflexivity. Qed.

Example clean_transcript_double_encoded :
  VideoAnalyzer.clean_transcript (js "it&amp;#39;s  [Music] ♪ fine ") = js "it's fine".
Proof. vm_compute. reflexivity. Qed.

Example slice0_negative :
  ThumbnailGenerator.slice0 [1; 2; 3; 4]%nat (-1) = [1; 2; 3]%nat.
Proof. vm_compute. reflexivity. Qed.

(** ** The matcher *)

Section RegexFacts.

Variable A : Type.
Implicit Types (s p : jsstring) (g : option jsstring)
         (k : jsstring -> option jsstring -> option A).

Lemma rmatch_RLitBy eqc p s g k :
  rmatch (RLitBy eqc p) s g k =
  if starts_by eqc p s then k (skipn (length p) s) g else None.
Proof.
  revert s; induction p as [|c p IH]; intros s; simpl.
  - reflexivity.
  - destruct s as [|x s]; simpl; [reflexivity|].
    destruct (eqc c x); simpl; [apply IH | reflexivity].
Qed.

Lemma rmatch_RRep_class n f s g k :
  rmatch (RRep n (RClass f)) s g k =
  if all_first n f s then k (skipn n s) g else None.
Proof.
  revert s; induction n as [|n IH]; intros s; simpl.
  - reflexivity.
  - destruct s as [|x s]; simpl; [reflexivity|].
    destruct (f x); simpl; [apply IH | reflexivity].
Qed.

End RegexFacts.

(** *** The fuel of the iteration is enough *)

Section StarFuel.

Variable A : Type.
Implicit Types (s : jsstring) (g : option jsstring)
         (k : jsstring -> option jsstring -> option A).

Lemma star_loop_ext (step : matcher A) k1 k2 :
  extensional step -> (forall s g, k1 s g = k2 s g) ->
  forall fuel s g, star_loop step k1 fuel s g = star_loop step k2 fuel s g.
Proof.
  intros Hstep Hk fuel; induction fuel as [|fuel IH]; intros s g; cbn [star_loop].
  - apply Hk.
  - assert (E : step s g (fun s' g' =>
                            if (length s' <? length s)%nat
                            then star_loop step k1 fuel s' g' else None)
                = step s g (fun s' g' =>
                              if (length s' <? length s)%nat
                              then star_loop step k2 fuel s' g' else None)).
    { apply Hstep. intros s' g'.
      destruct (length s' <? length s)%nat; [apply IH | reflexivity]. }
    now rewrite E, Hk.
Qed.

Lemma rmatch_ext r : extensional (fun s g (k : continuation A) => rmatch r s g k).
Proof.
  unfold extensional.
  induction r as [|f|a IHa b IHb|a IHa|a IHa|a IHa]; intros s g k1 k2 H; cbn [rmatch].
  - apply H.
  - destruct s as [|c s]; [reflexivity|]. destruct (f c); [apply H | reflexivity].
  - apply IHa. intros s' g'. now apply IHb.
  - now rewrite (IHa s g k1 k2 H), H.
  - apply star_loop_ext; [exact IHa | exact H].
  - apply IHa. intros s' g'. apply H.
Qed.

Lemma star_loop_failing (step : matcher A) :
  extensional step -> failing_closed step ->
  forall fuel s g, star_loop step (fun _ _ => None) fuel s g = None.
Proof.
  intros Hext Hfail fuel; induction fuel as [|fuel IH]; intros s g; cbn [star_loop].
  - reflexivity.
  - assert (E : step s g (fun s' g' =>
                            if (length s' <? length s)%nat
                            then star_loop step (fun _ _ => None) fuel s' g' else None)
                = step s g (fun _ _ => None)).
    { apply Hext. intros s' g'.
      destruct (length s' <? length s)%nat; [apply IH | reflexivity]. }
    now rewrite E, Hfail.
Qed.

Lemma rmatch_failing r : failing_closed (fun s g (k : continuation A) => rmatch r s g k).
Proof.
  unfold failing_closed.
  induction r as [|f|a IHa b IHb|a IHa|a IHa|a IHa]; intros s g; cbn [rmatch].
  - reflexivity.
  - destruct s as [|c s]; [reflexivity|]. now destruct (f c).
  - transitivity (rmatch a s g (fun _ _ => @None A)); [|apply IHa].
    apply (rmatch_ext a). intros s' g'. apply IHb.
  - now rewrite IHa.
  - apply star_loop_failing; [apply rmatch_ext | exact IHa].
  - transitivity (rmatch a s g (fun _ _ => @None A)); [|apply IHa].
    apply (rmatch_ext a). reflexivity.
Qed.

(** The iteration never runs out of fuel: any fuel that covers the length
    of the input gives the same result. *)
Lemma star_loop_fuel (step : matcher A) k :
  extensional step -> failing_closed step ->
  forall fuel1 fuel2 s g,
    (length s <= fuel1)%nat -> (length s <= fuel2)%nat ->
    star_loop step k fuel1 s g = star_loop step k fuel2 s g.
Proof.
  intros Hext Hfail.
  assert (Hnil : forall fuel g, star_loop step k fuel [] g = k [] g).
  { intros [|fuel] g; cbn [star_loop]; [reflexivity|].
    assert (E : step [] g (fun s' g' =>
                             if (length s' <? length (@nil N))%nat
                             then star_loop step k fuel s' g' else None)
                = step [] g (fun _ _ => None))
      by (apply Hext; intros s' g'; reflexivity).
    now rewrite E, Hfail. }
  induction fuel1 as [|fuel1 IH]; intros fuel2 s g H1 H2.
  - destruct s; [|simpl in H1; lia]. now rewrite !Hnil.
  - destruct fuel2 as [|fuel2].
    + destruct s; [|simpl in H2; lia]. now rewrite !Hnil.
    + cbn [star_loop].
      assert (E : step s g (fun s' g' =>
                              if (length s' <? length s)%nat
                              then star_loop step k fuel1 s' g' else None)
                  = step s g (fun s' g' =>
                                if (length s' <? length s)%nat
                                then star_loop step k fuel2 s' g' else None)).
      { apply Hext. intros s' g'.
        destruct (length s' <? length s)%nat eqn:E; [|reflexivity].
        apply Nat.ltb_lt in E. apply IH; lia. }
      now rewrite E.
Qed.

(** [a*] gives the same result with any fuel that covers the input. *)
Lemma rmatch_star_fuel a s g k fuel :
  (length s <= fuel)%nat ->
  rmatch (RStar a) s g k = star_loop (fun s' g' k' => rmatch a s' g' k') k fuel s g.
Proof.
  intros H. cbn [rmatch].
  apply star_loop_fuel; [apply rmatch_ext | apply rmatch_failing | lia | exact H].
Qed.

End StarFuel.

Lemma starts_by_eq_iff p s :
  starts_by N.eqb p s = true <-> exists rest, s = p ++ rest.
Proof.
  revert s; induction p as [|c p IH]; intros s; simpl.
  - split; [intros _; now exists s | reflexivity].
  - destruct s as [|x s].
    + split; [discriminate | intros [r Hr]; discriminate].
    + rewrite andb_true_iff, N.eqb_eq, IH. split.
      * intros [-> [r ->]]. now exists r.
      * intros [r Hr]. injection Hr as -> ->. split; [reflexivity | now exists r].
Qed.

Lemma starts_by_app eqc p rest :
  (forall c, eqc c c = true) -> starts_by eqc p (p ++ rest) = true.
Proof.
  intros Hrefl; induction p as [|c p IH]; simpl; [reflexivity|].
  now rewrite Hrefl, IH.
Qed.

Lemma all_first_iff n f s :
  all_first n f s = true <->
  exists a b, s = a ++ b /\ length a = n /\ forallb f a = true.
Proof.
  revert s; induction n as [|n IH]; intros s; simpl.
  - split; [intros _; exists (@nil N), s; now repeat split|reflexivity].
  - destruct s as [|x s].
    + split; [discriminate|].
      intros (a & b & Hs & Hl & _). destruct a; discriminate.
    + rewrite andb_true_iff, IH. split.
      * intros [Hx (a & b & -> & Hl & Ha)].
        exists (x :: a), b. simpl. rewrite Hx, Ha, Hl. now repeat split.
      * intros (a & b & Hs & Hl & Ha). destruct a as [|y a]; [discriminate|].
        simpl in *. injection Hs as -> ->. injection Hl as Hl.
        apply andb_true_iff in Ha as [Hy Ha]. split; [assumption|].
        now exists a, b.
Qed.

Lemma skipn_app_exact {T} (a b : list T) : skipn (length a) (a ++ b) = b.
Proof. induction a; simpl; auto. Qed.

Lemma firstn_app_exact {T} (a b : list T) : firstn (length a) (a ++ b) = a.
Proof. induction a; simpl; [reflexivity | now f_equal]. Qed.

Lemma app_same_length_inv {T} (a a' b b' : list T) :
  a ++ b = a' ++ b' -> length a = length a' -> a = a' /\ b = b'.
Proof.
  revert a'; induction a as [|x a IH]; intros [|y a'] H Hl; simpl in *;
    try discriminate; [now split|].
  injection H as -> H. injection Hl as Hl.
  destruct (IH _ H Hl) as [-> ->]. now split.
Qed.

(* ------------------------------------------------------------------ *)
(** ** extractVideoId *)

Module UrlShapesFacts.
Import VideoAnalyzer UrlShapes.

Lemma shape_here_iff marker s :
  shape_here marker s = true <->
  exists v, valid_id v /\ shape_at marker [] v s.
Proof.
  unfold shape_here, shape_at, valid_id.
  rewrite andb_true_iff, starts_by_eq_iff, all_first_iff. split.
  - intros [[rest ->] (a & b & Hr & Hl & Ha)].
    rewrite skipn_app_exact in Hr. subst rest.
    exists a. split; [now split | now exists b].
  - intros (v & [Hl Hv] & post & ->). simpl. split.
    + now exists (v ++ post).
    + rewrite skipn_app_exact. now exists v, post.
Qed.

(** The match of a shape pattern at the head of [s]. *)
Lemma match_here_id_pattern marker s :
  match_here (id_pattern marker) s =
  if shape_here marker s
  then Some {| matched := firstn (length marker + 11) s;
               group1 := Some (firstn 11 (skipn (length marker) s));
               remainder := skipn 11 (skipn (length marker) s) |}
  else None.
Proof.
  unfold match_here, id_pattern, shape_here, RLit. cbn [rmatch].
  rewrite rmatch_RLitBy.
  destruct (starts_by N.eqb marker s) eqn:Hs; [|reflexivity].
  cbn [rmatch andb]. rewrite rmatch_RRep_class.
  destruct (all_first 11 is_id_char (skipn (length marker) s)) eqn:Ha; [|reflexivity].
  apply starts_by_eq_iff in Hs as [rest ->].
  apply all_first_iff in Ha as (a & b & Hr & Hl & _).
  rewrite skipn_app_exact in *. subst rest.
  assert (E : skipn 11 (a ++ b) = b) by (rewrite <- Hl; apply skipn_app_exact).
  rewrite E. f_equal. f_equal.
  - f_equal. rewrite !length_app. lia.
  - f_equal. f_equal. rewrite !length_app. lia.
Qed.

Lemma captured_id marker v post s :
  s = marker ++ v ++ post -> valid_id v ->
  firstn 11 (skipn (length marker) s) = v.
Proof.
  intros -> [Hl _]. rewrite skipn_app_exact, <- Hl. apply firstn_app_exact.
Qed.

(** A successful search returns the identifier of the leftmost
    occurrence of the shape. *)
Lemma exec_id_pattern_some marker u m :
  exec (id_pattern marker) u = Some m ->
  exists pre v, valid_id v /\ shape_at marker pre v u /\
                leftmost marker pre u /\ group1 m = Some v.
Proof.
  revert m; induction u as [|c u IH]; intros m; simpl;
    rewrite match_here_id_pattern.
  - destruct (shape_here marker []) eqn:H; [|discriminate].
    intros [= <-]. apply shape_here_iff in H as (v & Hv & post & Hu).
    exists (@nil N), v. refine (conj Hv (conj _ (conj _ _))); try assumption.
    + now exists post.
    + intros pre' v' _ _. simpl. lia.
    + cbn [group1]. f_equal. exact (captured_id marker v post _ Hu Hv).
  - destruct (shape_here marker (c :: u)) eqn:H.
    + intros [= <-]. apply shape_here_iff in H as (v & Hv & post & Hu).
      exists (@nil N), v. refine (conj Hv (conj _ (conj _ _))); try assumption.
      * now exists post.
      * intros pre' v' _ _. simpl. lia.
      * cbn [group1]. f_equal. exact (captured_id marker v post _ Hu Hv).
    + intros Hm. destruct (IH _ Hm) as (pre & v & Hv & [post Hu] & Hmin & Hg).
      exists (c :: pre), v. refine (conj Hv (conj _ (conj _ _))); try assumption.
      * exists post. simpl. now rewrite Hu.
      * intros pre' v' Hv' [post' Hu'].
        destruct pre' as [|c' pre'].
        -- assert (shape_here marker (c :: u) = true).
           { apply shape_here_iff. exists v'. split; [assumption | now exists post']. }
           congruence.
        -- simpl in Hu'. injection Hu' as _ Hu'. simpl.
           apply le_n_S. apply (Hmin pre' v' Hv'). now exists post'.
Qed.

Lemma exec_id_pattern_none marker u :
  exec (id_pattern marker) u = None -> ~ has_shape marker u.
Proof.
  induction u as [|c u IH]; simpl; rewrite match_here_id_pattern.
  - destruct (shape_here marker []) eqn:H; [discriminate|]. intros _.
    intros (pre & v & Hv & post & Hu).
    destruct pre; [|discriminate].
    assert (shape_here marker [] = true).
    { apply shape_here_iff. exists v. split; [assumption | now exists post]. }
    congruence.
  - destruct (shape_here marker (c :: u)) eqn:H; [discriminate|].
    intros Hn (pre & v & Hv & post & Hu).
    destruct pre as [|c' pre].
    + assert (shape_here marker (c :: u) = true).
      { apply shape_here_iff. exists v. split; [assumption | now exists post]. }
      congruence.
    + simpl in Hu. injection Hu as _ Hu.
      apply (IH Hn). exists pre, v. split; [assumption | now exists post].
Qed.

Lemma exec_id_pattern_leftmost marker pre v u :
  valid_id v -> shape_at marker pre v u -> leftmost marker pre u ->
  exists m, exec (id_pattern marker) u = Some m /\ group1 m = Some v.
Proof.
  intros Hv Hs Hmin.
  destruct (exec (id_pattern marker) u) as [m|] eqn:He.
  - exists m. split; [reflexivity|].
    destruct (exec_id_pattern_some _ _ _ He) as (pre2 & v2 & Hv2 & Hs2 & Hmin2 & Hg).
    rewrite Hg. f_equal.
    assert (Hl : length pre2 = length pre).
    { apply Nat.le_antisymm; [apply (Hmin2 pre v Hv Hs) | apply (Hmin pre2 v2 Hv2 Hs2)]. }
    destruct Hs as [post Hu], Hs2 as [post2 Hu2]. rewrite Hu in Hu2.
    destruct (app_same_length_inv _ _ _ _ Hu2 (eq_sym Hl)) as [_ E].
    apply app_inv_head in E.
    destruct Hv as [L1 _], Hv2 as [L2 _].
    apply app_same_length_inv in E; [|congruence]. symmetry. apply E.
  - exfalso. apply (exec_id_pattern_none _ _ He). now exists pre, v.
Qed.

Lemma first_capture_none ms u :
  (forall m, In m ms -> ~ has_shape m u) ->
  first_capture (map id_pattern ms) u = None.
Proof.
  induction ms as [|mk ms IH]; intros H; simpl; [reflexivity|].
  destruct (exec (id_pattern mk) u) as [m|] eqn:He.
  - exfalso. destruct (exec_id_pattern_some _ _ _ He) as (pre & v & Hv & Hs & _).
    apply (H mk); [now left | now exists pre, v].
  - apply IH. intros m Hm. apply H. now right.
Qed.

Lemma first_capture_priority ms k marker pre v u :
  nth_error ms k = Some marker ->
  (forall j m, (j < k)%nat -> nth_error ms j = Some m -> ~ has_shape m u) ->
  valid_id v -> shape_at marker pre v u -> leftmost marker pre u ->
  first_capture (map id_pattern ms) u = Some v.
Proof.
  revert k; induction ms as [|mk ms IH]; intros k Hk Hno Hv Hs Hmin.
  - destruct k; discriminate.
  - destruct k as [|k]; simpl in *.
    + injection Hk as ->.
      destruct (exec_id_pattern_leftmost _ _ _ _ Hv Hs Hmin) as (m & -> & Hg).
      exact Hg.
    + destruct (exec (id_pattern mk) u) as [m|] eqn:He.
      * exfalso. destruct (exec_id_pattern_some _ _ _ He) as (p2 & v2 & Hv2 & Hs2 & _).
        apply (Hno 0%nat mk); [lia | reflexivity | now exists p2, v2].
      * apply (IH k); try assumption.
        intros j m Hj Hm. apply (Hno (S j) m); [lia | exact Hm].
Qed.

Lemma first_capture_some ms u v :
  first_capture (map id_pattern ms) u = Some v ->
  exists k marker pre,
    nth_error ms k = Some marker /\ valid_id v /\ shape_at marker pre v u /\
    leftmost marker pre u /\
    (forall j m, (j < k)%nat -> nth_error ms j = Some m -> ~ has_shape m u).
Proof.
  induction ms as [|mk ms IH]; simpl; [discriminate|].
  destruct (exec (id_pattern mk) u) as [m|] eqn:He.
  - intros Hg. destruct (exec_id_pattern_some _ _ _ He) as (pre & v' & Hv & Hs & Hmin & Hg').
    assert (v' = v) by congruence. subst v'.
    exists 0%nat, mk, pre.
    refine (conj eq_refl (conj Hv (conj Hs (conj Hmin _)))). intros j m' Hj. lia.
  - intros H. destruct (IH H) as (k & marker & pre & Hk & Hv & Hs & Hmin & Hno).
    exists (S k), marker, pre.
    refine (conj Hk (conj Hv (conj Hs (conj Hmin _)))).
    intros [|j] m' Hj Hm; simpl in Hm.
    + injection Hm as <-. now apply exec_id_pattern_none.
    + apply (Hno j m'); [lia | exact Hm].
Qed.

Lemma leftmost_check marker pre u :
  shape_before marker (length pre) u = false -> leftmost marker pre u.
Proof.
  revert u; induction pre as [|c pre IH]; intros u H pre' v' Hv' [post' Hu'].
  - simpl. lia.
  - simpl in H. apply orb_false_iff in H as [Hh Hr].
    destruct pre' as [|c' pre'].
    + assert (shape_here marker u = true).
      { apply shape_here_iff. exists v'. split; [assumption | now exists post']. }
      congruence.
    + simpl. apply le_n_S. subst u. simpl in Hr.
      apply (IH _ Hr pre' v' Hv'). now exists post'.
Qed.

Lemma extractTranscript_invalid w u tr :
  extractVideoId u = None ->
  extractTranscript w u tr = (inl InvalidYouTubeUrl, tr).
Proof. intros H. unfold extractTranscript. now rewrite H. Qed.

(** C2, as stated, at a URL that shows two shapes: the URL has the
    [youtu.be/] shape with identifier [AAAAAAAAAAA], and the identifier
    returned is the one of the [watch?v=] shape. *)
Lemma extractVideoId_two_shapes :
  valid_id (js "AAAAAAAAAAA") /\
  shape_at (js "youtu.be/") (js "https://") (js "AAAAAAAAAAA") two_shapes /\
  extractVideoId two_shapes = Some (js "BBBBBBBBBBB") /\
  extractVideoId two_shapes <> Some (js "AAAAAAAAAAA").
Proof.
  split; [split; vm_compute; reflexivity|].
  split; [exists (js "?ref=youtube.com/watch?v=BBBBBBBBBBB"); vm_compute; reflexivity|].
  split; [vm_compute; reflexivity | vm_compute; discriminate].
Qed.

(** C2 (amended): [extractVideoId] returns the identifier of the leftmost
    occurrence of the first shape, in the order [watch?v=], [youtu.be/],
    [embed/], [shorts/], that occurs in the URL with an 11-character
    identifier; whatever it returns is such an identifier; and for a URL
    that shows none of the four shapes it returns [null], and
    [extractTranscript] fails with the invalid-URL error before any
    external call. *)
Theorem extractVideoId_shapes (u : jsstring) :
  (forall k marker pre v,
      nth_error markers k = Some marker ->
      valid_id v -> shape_at marker pre v u ->
      no_earlier_shape k u -> leftmost marker pre u ->
      extractVideoId u = Some v) /\
  (forall v, extractVideoId u = Some v ->
             exists k marker pre,
               nth_error markers k = Some marker /\ valid_id v /\
               shape_at marker pre v u /\ leftmost marker pre u /\
               no_earlier_shape k u) /\
  ((forall marker, In marker markers -> ~ has_shape marker u) ->
   extractVideoId u = None /\
   forall w tr, extractTranscript w u tr = (inl InvalidYouTubeUrl, tr)).
Proof.
  split; [|split].
  - intros k marker pre v Hk Hv Hs Hno Hmin.
    exact (first_capture_priority markers k marker pre v u Hk Hno Hv Hs Hmin).
  - intros v H. exact (first_capture_some markers u v H).
  - intros H. pose proof (first_capture_none markers u H) as E.
    split; [exact E|]. intros w tr. now apply extractTranscript_invalid.
Qed.

Lemma extractVideoId_shapes_witness :
  extractVideoId (js "https://www.youtube.com/watch?v=dQw4w9WgXcQ&t=42s")
  = Some (js "dQw4w9WgXcQ") /\
  extractVideoId (js "https://youtu.be/dQw4w9WgXcQ") = Some (js "dQw4w9WgXcQ") /\
  extractVideoId (js "https://vimeo.com/watch?v=dQw4w9WgXcQ") = None.
Proof.
  split; [|split].
  - apply (proj1 (extractVideoId_shapes _) 0%nat (js "youtube.com/watch?v=")
                 (js "https://www.") (js "dQw4w9WgXcQ")).
    + vm_compute; reflexivity.
    + split; vm_compute; reflexivity.
    + exists (js "&t=42s"). vm_compute; reflexivity.
    + intros j m Hj. lia.
    + apply leftmost_check. vm_compute; reflexivity.
  - apply (proj1 (extractVideoId_shapes _) 1%nat (js "youtu.be/")
                 (js "https://") (js "dQw4w9WgXcQ")).
    + vm_compute; reflexivity.
    + split; vm_compute; reflexivity.
    + exists []. vm_compute; reflexivity.
    + intros [|j] m Hj Hm; [|lia]. injection Hm as <-.
      apply exec_id_pattern_none. vm_compute; reflexivity.
    + apply leftmost_check. vm_compute; reflexivity.
  - apply (proj2 (proj2 (extractVideoId_shapes _))).
    intros marker [<-|[<-|[<-|[<-|[]]]]]; apply exec_id_pattern_none; vm_compute; reflexivity.
Defined.

End UrlShapesFacts.

(* ------------------------------------------------------------------ *)
(** ** Global replacement *)

Module ReplacementFacts.
Import Replacement.

Lemma starts_by_iff eqc p s :
  starts_by eqc p s = true <-> exists m b, matches_by eqc p m /\ s = m ++ b.
Proof.
  unfold matches_by. revert s; induction p as [|c p IH]; intros s; simpl.
  - split; [intros _; exists [], s; split; [constructor | reflexivity] | reflexivity].
  - destruct s as [|x s].
    + split; [discriminate|]. intros (m & b & Hm & Hs).
      inversion Hm; subst. discriminate.
    + rewrite andb_true_iff, IH. split.
      * intros [Hx (m & b & Hm & ->)]. exists (x :: m), b.
        split; [now constructor | reflexivity].
      * intros (m & b & Hm & Hs). inversion Hm as [|c' y p' m' Hy Hm']; subst.
        simpl in Hs. injection Hs as -> ->. split; [assumption | now exists m', b].
Qed.

Lemma matches_by_length eqc p m : matches_by eqc p m -> length m = length p.
Proof. intros H. symmetry. exact (Forall2_length H). Qed.

Lemma match_here_RLitBy eqc p s :
  match_here (RLitBy eqc p) s =
  if starts_by eqc p s
  then Some {| matched := firstn (length p) s; group1 := None;
               remainder := skipn (length p) s |}
  else None.
Proof.
  unfold match_here. rewrite rmatch_RLitBy.
  destruct (starts_by eqc p s) eqn:H; [|reflexivity].
  apply starts_by_iff in H as (m & b & Hm & ->).
  apply matches_by_length in Hm. rewrite <- Hm, skipn_app_exact.
  do 3 f_equal. rewrite length_app. lia.
Qed.

Lemma replace_go_skip r rep n s :
  (n <= length s)%nat -> replace_go r rep n s = replace_all r rep (skipn n s).
Proof.
  unfold replace_all. revert s; induction n as [|n IH]; intros s Hn.
  - reflexivity.
  - destruct s as [|c s]; simpl in Hn; [lia|].
    simpl. apply IH. lia.
Qed.

(** The pattern matches at the head: the match is replaced and the scan
    resumes after it. *)
Lemma replace_all_here eqc p rep m b :
  p <> [] -> matches_by eqc p m ->
  replace_all (RLitBy eqc p) rep (m ++ b) = rep ++ replace_all (RLitBy eqc p) rep b.
Proof.
  intros Hp Hm. pose proof (matches_by_length _ _ _ Hm) as Hl.
  assert (Hs : starts_by eqc p (m ++ b) = true)
    by (apply starts_by_iff; now exists m, b).
  unfold replace_all at 1.
  destruct m as [|x m]; [destruct p; [congruence | discriminate]|].
  simpl app. cbn [replace_go]. rewrite match_here_RLitBy.
  simpl app in Hs. rewrite Hs. cbn [matched]. f_equal.
  rewrite <- Hl. change (x :: m ++ b) with ((x :: m) ++ b).
  rewrite firstn_app_exact. simpl length.
  cbv iota beta.
  rewrite (replace_go_skip _ _ (length m) (m ++ b)) by (rewrite length_app; lia).
  now rewrite skipn_app_exact.
Qed.

(** The pattern does not match at the head: the code unit is kept. *)
Lemma replace_all_skip eqc p rep c s :
  starts_by eqc p (c :: s) = false ->
  replace_all (RLitBy eqc p) rep (c :: s) = c :: replace_all (RLitBy eqc p) rep s.
Proof.
  intros H. unfold replace_all. cbn [replace_go].
  now rewrite match_here_RLitBy, H.
Qed.

Lemma replace_all_nil eqc p rep :
  p <> [] -> replace_all (RLitBy eqc p) rep [] = [].
Proof.
  intros Hp. unfold replace_all. cbn [replace_go].
  rewrite match_here_RLitBy. destruct p; [congruence | reflexivity].
Qed.

Lemma no_occurrence_nil eqc p : p <> [] -> ~ occurs eqc p [].
Proof.
  intros Hp (a & m & b & Hm & Hs). apply matches_by_length in Hm.
  destruct a; [|discriminate]. destruct m; [|discriminate].
  destruct p; [congruence | discriminate].
Qed.

Lemma ReplacedAll_cons eqc p rep c s s' :
  starts_by eqc p (c :: s) = false ->
  ReplacedAll eqc p rep s s' -> ReplacedAll eqc p rep (c :: s) (c :: s').
Proof.
  intros Hh H.
  assert (Hhead : ~ occurs_at eqc p [] (c :: s)).
  { intros (m & b & Hm & Hs). simpl in Hs.
    assert (starts_by eqc p (c :: s) = true)
      by (apply starts_by_iff; now exists m, b).
    congruence. }
  destruct H as [s Hno | a m b b' Hm Hmin Hrest].
  - apply RA_none. intros ([|x a] & Ha); [now apply Hhead|].
    destruct Ha as (m & b & Hm & Hs). simpl in Hs. injection Hs as _ Hs.
    apply Hno. now exists a, m, b.
  - apply (RA_first eqc p rep (c :: a) m b b' Hm); [|assumption].
    intros [|x a'] Ha'; [now destruct Hhead|].
    destruct Ha' as (m' & b0 & Hm' & Hs). simpl in Hs. injection Hs as _ Hs.
    simpl. apply le_n_S. apply Hmin. now exists m', b0.
Qed.

(** The replacement of the sources implements the replacement of every
    occurrence. *)
Lemma replace_all_spec eqc p rep s :
  p <> [] -> ReplacedAll eqc p rep s (replace_all (RLitBy eqc p) rep s).
Proof.
  intros Hp. remember (length s) as n eqn:Hn.
  revert s Hn; induction n as [n IH] using lt_wf_ind; intros s Hn.
  destruct s as [|c s].
  - rewrite replace_all_nil by assumption. apply RA_none.
    now apply no_occurrence_nil.
  - destruct (starts_by eqc p (c :: s)) eqn:Hs.
    + apply starts_by_iff in Hs as (m & b & Hm & Hs). rewrite Hs.
      rewrite (replace_all_here eqc p rep m b Hp Hm).
      apply (RA_first eqc p rep [] m b _ Hm).
      * intros a' _. simpl. lia.
      * apply (IH (length b)); [|reflexivity].
        subst n. rewrite Hs, length_app.
        apply matches_by_length in Hm. destruct p; [congruence|].
        simpl in Hm. lia.
    + rewrite replace_all_skip by assumption.
      apply ReplacedAll_cons; [assumption|].
      apply (IH (length s)); [subst n; simpl; lia | reflexivity].
Qed.

(** The replacement of every occurrence determines its result. *)
Lemma ReplacedAll_functional eqc p rep s s1 s2 :
  p <> [] ->
  ReplacedAll eqc p rep s s1 -> ReplacedAll eqc p rep s s2 -> s1 = s2.
Proof.
  intros Hp H1; revert s2.
  induction H1 as [s Hno | a m b b' Hm Hmin Hrest IH]; intros s2 H2.
  - inversion H2 as [s' Hno' | a2 m2 b2 b2' Hm2 Hmin2 Hrest2 Es]; subst; [reflexivity|].
    exfalso. apply Hno. now exists a2, m2, b2.
  - inversion H2 as [s' Hno' | a2 m2 b2 b2' Hm2 Hmin2 Hrest2 Es]; subst.
    + exfalso. apply Hno'. now exists a, m, b.
    + assert (Hl : length a2 = length a).
      { apply Nat.le_antisymm.
        - apply Hmin2. rewrite Es. now exists m, b.
        - apply Hmin. rewrite <- Es. now exists m2, b2. }
      destruct (app_same_length_inv _ _ _ _ Es Hl) as [-> E].
      assert (Hlm : length m2 = length m)
        by (rewrite (matches_by_length _ _ _ Hm), (matches_by_length _ _ _ Hm2);
            reflexivity).
      destruct (app_same_length_inv _ _ _ _ E Hlm) as [-> ->].
      f_equal. f_equal. now apply IH.
Qed.

(** Whatever the pattern, the result only holds code units of the input
    or of the replacement text. *)
Lemma replace_go_In r rep x n s :
  In x (replace_go r rep n s) -> In x rep \/ In x s.
Proof.
  revert n; induction s as [|c s IH]; intros n.
  - destruct n; cbn [replace_go]; [|intros []].
    destruct (match_here r []) as [m|]; [|intros []].
    destruct (length (matched m)); rewrite app_nil_r; now left.
  - destruct n as [|n]; cbn [replace_go].
    + destruct (match_here r (c :: s)) as [m|].
      * intros H. apply in_app_or in H as [H|H]; [now left|].
        destruct (length (matched m)) as [|k].
        -- destruct H as [<-|H]; [right; now left|].
           destruct (IH _ H); [now left | right; now right].
        -- destruct (IH _ H); [now left | right; now right].
      * intros [<-|H]; [right; now left|].
        destruct (IH _ H); [now left | right; now right].
    + intros H. destruct (IH _ H); [now left | right; now right].
Qed.

Lemma replace_all_In r rep x s :
  In x (replace_all r rep s) -> In x rep \/ In x s.
Proof. apply replace_go_In. Qed.

Lemma drop_while_In f x s : In x (drop_while f s) -> In x s.
Proof.
  induction s as [|c s IH]; simpl; [tauto|].
  destruct (f c); [intros H; right; now apply IH | tauto].
Qed.

Lemma trim_In x s : In x (trim s) -> In x s.
Proof.
  unfold trim. intros H. apply in_rev in H. apply drop_while_In in H.
  apply in_rev in H. now apply drop_while_In in H.
Qed.

(** Deleting a one-unit pattern leaves no such unit. *)
Lemma replace_all_unit_gone c s :
  ~ In c (replace_all (RLit [c]) [] s).
Proof.
  unfold RLit. induction s as [|x s IH].
  - rewrite replace_all_nil by discriminate. intros [].
  - destruct (starts_by N.eqb [c] (x :: s)) eqn:H.
    + apply starts_by_iff in H as (m & b & Hm & Hs).
      pose proof (matches_by_length _ _ _ Hm) as Hl.
      destruct m as [|y [|? ?]]; try discriminate.
      simpl in Hs. injection Hs as -> ->.
      change (y :: b) with ([y] ++ b).
      now rewrite (replace_all_here N.eqb [c] [] [y] b) by (discriminate || assumption).
    + rewrite replace_all_skip by assumption.
      intros [->|Hin]; [|now apply IH].
      simpl in H. now rewrite N.eqb_refl in H.
Qed.

End ReplacementFacts.

(* ------------------------------------------------------------------ *)
(** ** extractTranscript *)

Lemma bind_run {A B} (m : M A) (k : A -> M B) tr :
  bind m k tr =
  match m tr with
  | (inr a, tr') => k a tr'
  | (inl e, tr') => (inl e, tr')
  end.
Proof. reflexivity. Qed.

Lemma calls_snoc tr e :
  calls (tr ++ [e]) = (calls tr + if is_external e then 1 else 0)%nat.
Proof.
  unfold calls. rewrite filter_app, length_app. simpl.
  destruct (is_external e); reflexivity.
Qed.

Module TranscriptFacts.
Import VideoAnalyzer UrlShapes Replacement Sources.

Lemma extractVideoId_truthy u v : extractVideoId u = Some v -> truthy v = true.
Proof.
  intros H. destruct (UrlShapesFacts.first_capture_some markers u v H)
    as (_ & _ & _ & _ & [Hl _] & _).
  destruct v; [discriminate | reflexivity].
Qed.

Lemma fromLibrary_run w videoId tr :
  fromLibrary w videoId tr =
  (inr (libraryText w (calls tr) videoId), tr ++ [libraryEvent videoId]).
Proof.
  unfold fromLibrary, libraryText, libraryProduced, accept_long, libraryEvent,
    try_catch, bind, external, raising, ret.
  destruct (fetchTranscript w (calls tr) videoId) as [f|[|seg segs]];
    try reflexivity.
  change (0 <? length (seg :: segs))%nat with true. cbv iota.
  case_if; reflexivity.
Qed.

Lemma fromVtd_run w u tr :
  fromVtd w u tr = (inr (vtdText w (calls tr) u), tr ++ [vtdEvent u]).
Proof.
  unfold fromVtd, vtdText, vtdProduced, accept_long, vtdEvent, vtdArgs,
    try_catch, bind, external, raising, ret.
  destruct (execFileAsync w (calls tr) _ _) as [f|stdout]; [reflexivity|].
  destruct (trim stdout) as [|c t]; [reflexivity|].
  cbn [truthy andb]. case_if; reflexivity.
Qed.

Lemma fromTranscriptIo_run w u tr :
  fromTranscriptIo w u tr =
  match encodeURIComponent w u with
  | inl _ => (inr None, tr)
  | inr q => (inr (transcriptIoText w (calls tr) q),
              tr ++ [EvFetch (transcriptIoRequest q)])
  end.
Proof.
  unfold fromTranscriptIo, transcriptIoText, transcriptIoProduced, okData,
    accept_nonempty, transcriptIoRequest,
    try_catch, bind, external, builtin, lift, raising, ret.
  destruct (encodeURIComponent w u) as [f|q]; [reflexivity|].
  destruct (fetch w (calls tr) _) as [f|response]; [reflexivity|].
  destruct (ok response); [|reflexivity].
  destruct (json response) as [f|data]; [reflexivity|].
  unfold opt_or.
  destruct (data_transcript data) as [[|c t]|], (data_text data) as [[|c' t']|];
    reflexivity.
Qed.

Lemma fromSupadata_run w u tr :
  fromSupadata w u tr =
  match encodeURIComponent w u with
  | inl _ => (inr None, tr)
  | inr q => (inr (supadataText w (calls tr) q),
              tr ++ [EvFetch (supadataRequest q)])
  end.
Proof.
  unfold fromSupadata, supadataText, okData, accept_nonempty, supadataRequest,
    try_catch, bind, external, builtin, lift, raising, ret.
  destruct (encodeURIComponent w u) as [f|q]; [reflexivity|].
  destruct (fetch w (calls tr) _) as [f|response]; [reflexivity|].
  destruct (ok response); [|reflexivity].
  destruct (json response) as [f|data]; [reflexivity|].
  destruct (data_content data) as [[[|c s]|texts]|]; reflexivity.
Qed.

(** The resolver is the chain over the four sources. *)
Lemma extractTranscript_chain w u videoId tr :
  extractVideoId u = Some videoId ->
  extractTranscript w u tr =
  (fst (chain w (calls tr) u videoId), tr ++ snd (chain w (calls tr) u videoId)).
Proof.
  intros Hid. pose proof (extractVideoId_truthy _ _ Hid) as Ht.
  assert (E1 : calls (tr ++ [libraryEvent videoId]) = (calls tr + 1)%nat)
    by (rewrite calls_snoc; reflexivity).
  assert (E2 : calls ((tr ++ [libraryEvent videoId]) ++ [vtdEvent u])
               = (calls tr + 2)%nat)
    by (rewrite calls_snoc, E1; cbn [is_external vtdEvent]; lia).
  assert (E3 : forall r, calls (((tr ++ [libraryEvent videoId]) ++ [vtdEvent u])
                                  ++ [EvFetch r]) = (calls tr + 3)%nat)
    by (intros r; rewrite calls_snoc, E2; cbn [is_external]; lia).
  unfold extractTranscript, chain. rewrite Hid, Ht. cbn [negb].
  unfold bind at 1. rewrite fromLibrary_run.
  destruct (libraryText w (calls tr) videoId) as [t|]; [reflexivity|].
  unfold bind at 1. rewrite fromVtd_run, E1.
  destruct (vtdText w (calls tr + 1) u) as [t|];
    [cbn [fst snd ret]; now rewrite <- app_assoc|].
  unfold bind at 1. rewrite fromTranscriptIo_run, E2.
  destruct (encodeURIComponent w u) as [f|q] eqn:Hq.
  - unfold bind. rewrite fromSupadata_run, Hq.
    cbn [fst snd throw]. now rewrite <- app_assoc.
  - destruct (transcriptIoText w (calls tr + 2) q) as [t|];
      [cbn [fst snd ret]; now rewrite <- !app_assoc|].
    unfold bind. rewrite fromSupadata_run, Hq, E3.
    destruct (supadataText w (calls tr + 3) q) as [t|];
      cbn [fst snd ret throw]; now rewrite <- !app_assoc.
Qed.

Lemma request_distinct q q' : transcriptIoRequest q <> supadataRequest q'.
Proof. unfold transcriptIoRequest, supadataRequest. vm_compute. discriminate. Qed.

End TranscriptFacts.

Module TranscriptProperties.
Import VideoAnalyzer UrlShapes Replacement Sources TranscriptFacts.

(** C1, as stated, in a world where sources (a) and (b) fail, source (c)
    answers with a text of 6 characters and source (d) would answer with
    more than 20: the resolver stops at (c), returns the 6 characters and
    never calls (d). *)
Lemma extractTranscript_short_api_text :
  extractVideoId sampleUrl = Some sampleId /\
  libraryText shortApiWorld 0 sampleId = None /\
  vtdText shortApiWorld 1 sampleUrl = None /\
  transcriptIoProduced shortApiWorld 2 sampleUrl = Some (js "Hi all") /\
  (length (js "Hi all") <= 20)%nat /\
  supadataText shortApiWorld 3 sampleUrl
  = Some (js "a transcript of more than twenty characters") /\
  extractTranscript shortApiWorld sampleUrl []
  = (inr (js "Hi all"),
     [libraryEvent sampleId; vtdEvent sampleUrl;
      EvFetch (transcriptIoRequest sampleUrl)]).
Proof. split_all; vm_compute; (reflexivity || lia). Qed.

(** C1 (amended): [extractTranscript] tries the four sources in the fixed
    order (a) library, (b) command-line tool, (c) first web API, (d)
    second web API, and stops at the first source whose text is accepted:
    a text longer than 20 characters for (a) and (b), any non-empty text
    for (c) and (d) (for (d), also the joined texts of an array).  If (a)
    yields at least 21 characters of cleaned text, (b)-(d) are never
    called, and each later source is called only after every earlier
    source has failed or had its text refused. *)
Theorem extractTranscript_fallback_order
        (w : World) (u videoId : jsstring) (tr : list Event) :
  extractVideoId u = Some videoId ->
  let n := calls tr in
  let added := snd (chain w n u videoId) in
  extractTranscript w u tr = (fst (chain w n u videoId), tr ++ added) /\
  (exists later, added ++ later = allSourceEvents w u videoId) /\
  (forall t, libraryProduced w n videoId = Some t -> (21 <= length t)%nat ->
             extractTranscript w u tr = (inr t, tr ++ [libraryEvent videoId])) /\
  (In (vtdEvent u) added -> libraryText w n videoId = None) /\
  (forall q, In (EvFetch (transcriptIoRequest q)) added ->
             libraryText w n videoId = None /\ vtdText w (n + 1) u = None) /\
  (forall q, In (EvFetch (supadataRequest q)) added ->
             libraryText w n videoId = None /\ vtdText w (n + 1) u = None /\
             transcriptIoText w (n + 2) q = None).
Proof.
  intros Hid n added.
  pose proof (extractTranscript_chain w u videoId tr Hid) as Hchain.
  fold n in Hchain. fold added in Hchain.
  split; [exact Hchain|].
  split; [|split].
  - subst added. unfold chain, allSourceEvents.
    destruct (libraryText w n videoId);
      [eexists; cbn [snd app]; reflexivity|].
    destruct (vtdText w (n + 1) u);
      [eexists; cbn [snd app]; reflexivity|].
    destruct (encodeURIComponent w u) as [f|q];
      [exists []; reflexivity|].
    destruct (transcriptIoText w (n + 2) q);
      [eexists; cbn [snd app]; reflexivity|].
    destruct (supadataText w (n + 3) q); exists []; reflexivity.
  - intros t Ht Hlen. rewrite Hchain. subst added. unfold chain, libraryText.
    rewrite Ht. unfold accept_long.
    assert (E : (20 <? length t)%nat = true) by (apply Nat.ltb_lt; lia).
    now rewrite E.
  - subst added. unfold chain.
    destruct (libraryText w n videoId) as [t|].
    { cbn [snd In]. unfold libraryEvent, vtdEvent.
      repeat split; intros; intuition discriminate. }
    destruct (vtdText w (n + 1) u) as [t|].
    { cbn [snd In]. unfold libraryEvent, vtdEvent.
      repeat split; intros; intuition discriminate. }
    destruct (encodeURIComponent w u) as [f|q0].
    { cbn [snd In]. unfold libraryEvent, vtdEvent.
      repeat split; intros; intuition discriminate. }
    assert (Hinj : forall q, EvFetch (supadataRequest q0) = EvFetch (supadataRequest q)
                             -> q0 = q).
    { intros q [= E]. exact E. }
    assert (Hd : forall q, EvFetch (transcriptIoRequest q0)
                           <> EvFetch (supadataRequest q)).
    { intros q E. apply (request_distinct q0 q). now injection E. }
    destruct (transcriptIoText w (n + 2) q0) as [t|] eqn:Hc.
    { cbn [snd In]. unfold libraryEvent, vtdEvent.
      repeat split; intros; try reflexivity;
        exfalso; intuition (try discriminate); eapply Hd; eassumption. }
    destruct (supadataText w (n + 3) q0) as [t|]; cbn [snd In];
      unfold libraryEvent, vtdEvent;
      (repeat split; intros; try reflexivity;
       match goal with
       | H : _ \/ _ |- transcriptIoText _ _ ?q = None =>
           assert (q0 = q) by
             (destruct H as [H|[H|[H|[H|[]]]]];
              [discriminate | discriminate | exfalso; eapply Hd; eassumption
              | now apply Hinj]);
           now subst
       end).
Qed.

Lemma extractTranscript_fallback_order_witness :
  extractVideoId sampleUrl = Some sampleId /\
  extractTranscript (libraryWorld markedSegment) sampleUrl []
  = (inr (tpl "Tom & Jerry sing ^la la^ for <you> 'now'"), [libraryEvent sampleId]).
Proof.
  assert (H : extractVideoId sampleUrl = Some sampleId) by (vm_compute; reflexivity).
  split; [exact H|].
  destruct (extractTranscript_fallback_order
              (libraryWorld markedSegment) sampleUrl sampleId [] H)
    as (_ & _ & H3 & _).
  apply H3; vm_compute; [reflexivity | lia].
Defined.

End TranscriptProperties.

Module CleaningProperties.
Import VideoAnalyzer UrlShapes Replacement Sources TranscriptFacts ReplacementFacts.

Lemma clean_transcript_Cleaned raw : Cleaned raw (clean_transcript raw).
Proof.
  unfold Cleaned, clean_transcript.
  exists (decode_amp raw), (decode_apos (decode_amp raw)),
    (decode_quot (decode_apos (decode_amp raw))),
    (decode_lt (decode_quot (decode_apos (decode_amp raw)))),
    (decode_gt (decode_lt (decode_quot (decode_apos (decode_amp raw))))),
    (strip_notes (decode_gt (decode_lt (decode_quot (decode_apos (decode_amp raw)))))),
    (strip_note
       (strip_notes (decode_gt (decode_lt (decode_quot (decode_apos (decode_amp raw))))))),
    (strip_music
       (strip_note
          (strip_notes
             (decode_gt (decode_lt (decode_quot (decode_apos (decode_amp raw)))))))).
  split_all; try reflexivity;
    match goal with
    | |- ReplacedAll ?eqc ?p ?rep ?s _ =>
        apply (replace_all_spec eqc p rep s); vm_compute; discriminate
    end.
Qed.

(** The step-by-step description determines the cleaned text. *)
Lemma Cleaned_functional raw c1 c2 : Cleaned raw c1 -> Cleaned raw c2 -> c1 = c2.
Proof.
  intros (a1 & a2 & a3 & a4 & a5 & a6 & a7 & a8 & A1 & A2 & A3 & A4 & A5 & A6 & A7 & A8 & ->)
         (b1 & b2 & b3 & b4 & b5 & b6 & b7 & b8 & B1 & B2 & B3 & B4 & B5 & B6 & B7 & B8 & ->).
  assert (Hne : forall p : jsstring, (0 < length p)%nat -> p <> [])
    by (intros [|] H; [simpl in H; lia | discriminate]).
  assert (a1 = b1) by (eapply ReplacedAll_functional; [|exact A1|exact B1];
                       apply Hne; vm_compute; lia).
  subst b1.
  assert (a2 = b2) by (eapply ReplacedAll_functional; [|exact A2|exact B2];
                       apply Hne; vm_compute; lia).
  subst b2.
  assert (a3 = b3) by (eapply ReplacedAll_functional; [|exact A3|exact B3];
                       apply Hne; vm_compute; lia).
  subst b3.
  assert (a4 = b4) by (eapply ReplacedAll_functional; [|exact A4|exact B4];
                       apply Hne; vm_compute; lia).
  subst b4.
  assert (a5 = b5) by (eapply ReplacedAll_functional; [|exact A5|exact B5];
                       apply Hne; vm_compute; lia).
  subst b5.
  assert (a6 = b6) by (eapply ReplacedAll_functional; [|exact A6|exact B6];
                       apply Hne; vm_compute; lia).
  subst b6.
  assert (a7 = b7) by (eapply ReplacedAll_functional; [|exact A7|exact B7];
                       apply Hne; vm_compute; lia).
  subst b7.
  assert (a8 = b8) by (eapply ReplacedAll_functional; [|exact A8|exact B8];
                       apply Hne; vm_compute; lia).
  now subst b8.
Qed.

Lemma clean_transcript_no_note raw : ~ In note (clean_transcript raw).
Proof.
  unfold clean_transcript, collapse_spaces. intros H.
  apply replace_all_In in H as [H|H].
  - vm_compute in H. destruct H as [H|[]]. discriminate.
  - apply trim_In in H. unfold strip_music in H.
    apply replace_all_In in H as [[]|H].
    revert H. apply (replace_all_unit_gone note).
Qed.

(** C9: a transcript obtained from the library is cleaned before its
    length is compared with 20: each occurrence of [&amp;], [&#39;],
    [&quot;], [&lt;], [&gt;] is replaced by [&], ['], the double quote,
    [<], [>], in this order of passes, the markers [[♪♪♪]], the
    music-note characters and the markers [[Music]] (in any case) are
    removed, and no music-note character remains.  The texts of the
    fallback sources are returned as produced: the trimmed output of the
    command-line tool, and the texts of the two web APIs, verbatim. *)
Theorem library_transcript_cleaned
        (w : World) (u videoId : jsstring) (tr : list Event) :
  extractVideoId u = Some videoId ->
  let n := calls tr in
  (forall seg segs,
      fetchTranscript w n videoId = inr (seg :: segs) ->
      let raw := join (js " ") (map seg_text (seg :: segs)) in
      let cleaned := clean_transcript raw in
      Cleaned raw cleaned /\ ~ In note cleaned /\
      ((20 < length cleaned)%nat ->
       extractTranscript w u tr = (inr cleaned, tr ++ [libraryEvent videoId])) /\
      ((length cleaned <= 20)%nat ->
       libraryText w n videoId = None /\
       In (vtdEvent u) (trace_after (extractTranscript w u) tr))) /\
  (libraryText w n videoId = None ->
   (forall stdout,
       execFileAsync w (n + 1) (js "node") (vtdArgs u) = inr stdout ->
       (20 < length (trim stdout))%nat ->
       result (extractTranscript w u) tr = inr (trim stdout)) /\
   (vtdText w (n + 1) u = None ->
    forall q, encodeURIComponent w u = inr q ->
      (forall data t,
          okData w (n + 2) (transcriptIoRequest q) = Some data ->
          opt_or (data_transcript data) (data_text data) = Some t ->
          truthy t = true ->
          result (extractTranscript w u) tr = inr t) /\
      (transcriptIoText w (n + 2) q = None ->
       forall data,
         okData w (n + 3) (supadataRequest q) = Some data ->
         (forall s, data_content data = Some (SupaString s) -> truthy s = true ->
                    result (extractTranscript w u) tr = inr s) /\
         (forall texts, data_content data = Some (SupaSegments texts) ->
                        result (extractTranscript w u) tr
                        = inr (join (js " ") texts))))).
Proof.
  intros Hid n.
  pose proof (extractTranscript_chain w u videoId tr Hid) as Hchain. fold n in Hchain.
  unfold result, trace_after. rewrite Hchain. cbn [fst snd].
  split.
  - intros seg segs Hf.
    set (raw := join (js " ") (map seg_text (seg :: segs))).
    set (cleaned := clean_transcript raw).
    assert (Hp : libraryProduced w n videoId = Some cleaned)
      by (unfold libraryProduced; now rewrite Hf).
    split; [apply clean_transcript_Cleaned|].
    split; [apply clean_transcript_no_note|].
    unfold chain, libraryText. rewrite Hp. unfold accept_long. split.
    + intros Hlen. apply Nat.ltb_lt in Hlen. now rewrite Hlen.
    + intros Hlen. assert (E : (20 <? length cleaned)%nat = false)
        by (apply Nat.ltb_ge; lia).
      rewrite E. split; [reflexivity|].
      apply in_or_app. right.
      destruct (vtdText w (n + 1) u); [cbn; tauto|].
      destruct (encodeURIComponent w u) as [f|q]; [cbn; tauto|].
      destruct (transcriptIoText w (n + 2) q); [cbn; tauto|].
      destruct (supadataText w (n + 3) q); cbn; tauto.
  - intros Ha. unfold chain. rewrite Ha. split.
    + intros stdout Hb Hlen. unfold vtdText, vtdProduced, accept_long.
      rewrite Hb. apply Nat.ltb_lt in Hlen. now rewrite Hlen.
    + intros Hb q Hq. rewrite Hb, Hq. split.
      * intros data t Hd Ht Htr.
        unfold transcriptIoText, transcriptIoProduced, accept_nonempty.
        now rewrite Hd, Ht, Htr.
      * intros Hc data Hd. rewrite Hc. unfold supadataText. rewrite Hd. split.
        -- intros s Hs Htr. rewrite Hs. unfold accept_nonempty. now rewrite Htr.
        -- intros texts Hs. now rewrite Hs.
Qed.

Lemma library_transcript_cleaned_witness :
  extractVideoId sampleUrl = Some sampleId /\
  extractTranscript (libraryWorld markedSegment) sampleUrl []
  = (inr (tpl "Tom & Jerry sing ^la la^ for <you> 'now'"), [libraryEvent sampleId]) /\
  result (extractTranscript vtdWorld sampleUrl) [] = inr (trim markedSegment) /\
  result (extractTranscript shortApiWorld sampleUrl) [] = inr (js "Hi all") /\
  result (extractTranscript segmentsApiWorld sampleUrl) []
  = inr (js "Tom &amp; Jerry ♪ sing").
Proof.
  assert (H : extractVideoId sampleUrl = Some sampleId) by (vm_compute; reflexivity).
  split; [exact H|]. split_all.
  - destruct (library_transcript_cleaned
                (libraryWorld markedSegment) sampleUrl sampleId [] H) as [Ha _].
    destruct (Ha {| seg_text := markedSegment |} [] eq_refl) as (_ & _ & Hlong & _).
    apply Hlong. vm_compute. lia.
  - destruct (library_transcript_cleaned vtdWorld sampleUrl sampleId [] H) as [_ Hb].
    destruct (Hb eq_refl) as [Hvtd _].
    apply Hvtd; vm_compute; [reflexivity | lia].
  - destruct (library_transcript_cleaned shortApiWorld sampleUrl sampleId [] H) as [_ Hb].
    destruct (Hb eq_refl) as [_ Hapi].
    destruct (Hapi eq_refl sampleUrl eq_refl) as [Hc _].
    apply (Hc {| data_transcript := Some (js "Hi all");
                 data_text := None; data_content := None;
                 data_title := None; data_author_name := None;
                 data_choices := None |}); reflexivity.
  - destruct (library_transcript_cleaned segmentsApiWorld sampleUrl sampleId [] H)
      as [_ Hb].
    destruct (Hb eq_refl) as [_ Hapi].
    destruct (Hapi eq_refl sampleUrl eq_refl) as [_ Hd].
    destruct (Hd eq_refl
                 {| data_transcript := None; data_text := None;
                    data_content := Some (SupaSegments [js "Tom &amp; Jerry"; js "♪ sing"]);
                    data_title := None; data_author_name := None;
                    data_choices := None |} eq_refl) as [_ Hseg].
    rewrite (Hseg [js "Tom &amp; Jerry"; js "♪ sing"] eq_refl).
    vm_compute. reflexivity.
Defined.

End CleaningProperties.

(* ------------------------------------------------------------------ *)
(** ** generateImage *)

Module ImageFacts.
Import OpenRouter ImageShapes Sources.

Lemma rmatch_class_cons (A : Type) (f : N -> bool) c s g
      (k : jsstring -> option jsstring -> option A) :
  rmatch (RClass f) (c :: s) g k = if f c then k s g else None.
Proof. reflexivity. Qed.

Lemma rmatch_class_nil (A : Type) (f : N -> bool) g
      (k : jsstring -> option jsstring -> option A) :
  rmatch (RClass f) [] g k = None.
Proof. reflexivity. Qed.

Lemma rmatch_seq (A : Type) a b s g
      (k : jsstring -> option jsstring -> option A) :
  rmatch (RSeq a b) s g k = rmatch a s g (fun s' g' => rmatch b s' g' k).
Proof. reflexivity. Qed.

Lemma rmatch_star (A : Type) a s g
      (k : jsstring -> option jsstring -> option A) :
  rmatch (RStar a) s g k
  = star_loop (fun s' g' k' => rmatch a s' g' k') k (length s) s g.
Proof. reflexivity. Qed.

(** A greedy run of a class, followed by something the continuation
    accepts. *)
Lemma star_loop_class_run (A : Type) (f : N -> bool)
      (k : jsstring -> option jsstring -> option A) run :
  forall fuel rest g x,
    forallb f run = true ->
    (length (run ++ rest) <= fuel)%nat ->
    k rest g = Some x ->
    match rest with [] => True | c :: _ => f c = false end ->
    star_loop (fun s' g' k' => rmatch (RClass f) s' g' k') k fuel (run ++ rest) g
    = Some x.
Proof.
  induction run as [|c run IH]; intros fuel rest g x Hrun Hfuel Hk Hrest.
  - cbn [app]. destruct fuel as [|fuel]; cbn [star_loop]; [exact Hk|].
    destruct rest as [|c rest].
    + now rewrite rmatch_class_nil.
    + now rewrite rmatch_class_cons, Hrest.
  - simpl in Hrun. apply andb_true_iff in Hrun as [Hc Hrun].
    destruct fuel as [|fuel]; [simpl in Hfuel; lia|].
    cbn [star_loop app]. rewrite rmatch_class_cons, Hc.
    assert (E : (length (run ++ rest) <? length (c :: run ++ rest))%nat = true)
      by (apply Nat.ltb_lt; simpl; lia).
    rewrite E. rewrite (IH fuel rest g x Hrun); [reflexivity | | exact Hk | exact Hrest].
    simpl in Hfuel. lia.
Qed.

(** The image bytes of a data URL are what follows its prefix. *)
Lemma strip_data_url_prefix fmt b :
  fmt <> [] -> forallb is_word fmt = true ->
  strip_data_url (js "data:image/" ++ fmt ++ js ";base64," ++ b) = b.
Proof.
  intros Hne Hw. destruct fmt as [|c fmt]; [congruence|].
  simpl in Hw. apply andb_true_iff in Hw as [Hc Hw].
  unfold strip_data_url, replace_prefix, match_here, data_url_prefix, RPlus, RLit.
  rewrite rmatch_seq, rmatch_RLitBy.
  rewrite (starts_by_app N.eqb) by apply N.eqb_refl.
  rewrite skipn_app_exact. rewrite !rmatch_seq. cbn [app].
  rewrite rmatch_class_cons, Hc, rmatch_star.
  erewrite star_loop_class_run;
    [ | exact Hw | apply Nat.le_refl | | vm_compute; reflexivity].
  2: { rewrite rmatch_RLitBy.
       rewrite (starts_by_app N.eqb) by apply N.eqb_refl.
       rewrite skipn_app_exact. reflexivity. }
  reflexivity.
Qed.


Lemma generateImage_no_key w prompt options tr :
  opt_truthy (OPENROUTER_API_KEY w) = false ->
  generateImage w prompt options tr = (inl ConfigurationError, tr).
Proof.
  unfold generateImage, opt_truthy. destruct (OPENROUTER_API_KEY w) as [k|];
    [|reflexivity].
  intros ->. reflexivity.
Qed.

Lemma first_side_url_truthy m u : first_side_url m = Some u -> truthy u = true.
Proof.
  unfold first_side_url.
  destruct (images m) as [[|img rest]|]; try discriminate.
  destruct (option_map url (entry_image_url img)) as [u'|]; [|discriminate].
  destruct (truthy u') eqn:E; [|discriminate]. now intros [= <-].
Qed.

(** The image of a message whose first side-channel entry has a URL. *)
Lemma imageOfMessage_side m u :
  first_side_url m = Some u ->
  imageOfMessage m
  = inr {| imageBase64 := strip_data_url u;
           revisedPrompt := opt_or (text_content m) None |}.
Proof.
  unfold first_side_url, imageOfMessage, text_content.
  destruct (images m) as [[|img rest]|]; try discriminate.
  destruct (option_map url (entry_image_url img)) as [u'|]; [|discriminate].
  destruct (truthy u') eqn:E; [|discriminate]. now intros [= <-].
Qed.

(** The earlier revision of the client reads the inline shape only; the
    current one agrees with it on the messages whose first side-channel
    entry has no URL. *)
Lemma imageOfMessage_inline m :
  first_side_url m = None ->
  imageOfMessage m = OpenRouterLegacy.imageOfContent (content m).
Proof.
  unfold first_side_url, imageOfMessage, OpenRouterLegacy.imageOfContent.
  destruct (images m) as [[|img rest]|]; try reflexivity.
  destruct (option_map url (entry_image_url img)) as [u'|]; [|reflexivity].
  destruct (truthy u'); [discriminate | reflexivity].
Qed.



End ImageFacts.

Module ImageProperties.
Import OpenRouter ImageShapes Sources ImageFacts.

Lemma legacy_misses_side_channel :
  OpenRouterLegacy.imageOfResponse (okResponse (dataOf sideMessage)) = inl NoImageReturned /\
  imageOfResponse (okResponse (dataOf sideMessage))
  = inr {| imageBase64 := js "iVBORw0KGgo="; revisedPrompt := None |}.
Proof. split; vm_compute; reflexivity. Qed.




End ImageProperties.

(* ------------------------------------------------------------------ *)
(** ** generateThumbnails *)

Module GenerationFacts.
Import OpenRouter ThumbnailGenerator Generation.

Lemma generateImage_outcome w prompt options tr :
  generateImage w prompt options tr =
  (generation w (calls tr) prompt options,
   if has_key w
   then tr ++ [EvFetch (imageRequest (nullish (OPENROUTER_API_KEY w) []) prompt options)]
   else tr).
Proof.
  unfold generateImage, generation, has_key, opt_truthy.
  destruct (OPENROUTER_API_KEY w) as [k|]; [|reflexivity].
  destruct (truthy k); cbn [negb nullish]; [|reflexivity].
  unfold bind, external, lift.
  destruct (raising (fetch w (calls tr) _)); reflexivity.
Qed.

Lemma generation_no_key w n prompt options :
  has_key w = false -> generation w n prompt options = inl ConfigurationError.
Proof.
  unfold has_key, opt_truthy, generation.
  destruct (OPENROUTER_API_KEY w) as [k|]; [|reflexivity]. now intros ->.
Qed.

Lemma indexed_from_cons j c cs :
  indexed_from j (c :: cs) = (j, c) :: indexed_from (S j) cs.
Proof. reflexivity. Qed.

Lemma indexed_from_In j cs i c :
  In (i, c) (indexed_from j cs) <-> (j <= i)%nat /\ nth_error cs (i - j) = Some c.
Proof.
  revert j; induction cs as [|c0 cs IH]; intros j.
  - unfold indexed_from. simpl. split; [tauto|]. intros [_ H].
    destruct (i - j)%nat; discriminate.
  - rewrite indexed_from_cons. simpl. rewrite IH. split.
    + intros [[= -> ->]|[Hle Hn]].
      * split; [lia|]. now rewrite Nat.sub_diag.
      * split; [lia|]. replace (i - j)%nat with (S (i - S j)) by lia. exact Hn.
    + intros [Hle Hn]. destruct (i - j)%nat as [|d] eqn:Hd.
      * left. simpl in Hn. injection Hn as ->. f_equal. lia.
      * right. split; [lia|]. simpl in Hn.
        replace (i - S j)%nat with d by lia. exact Hn.
Qed.

Lemma items_length w analysis options n0 l :
  length (flat_map (item w analysis options n0) l)
  = length (filter (fun ic => succeeded (outcome w analysis options n0 (fst ic) (snd ic))) l).
Proof.
  induction l as [|ic l IH]; [reflexivity|].
  cbn [flat_map filter]. rewrite length_app, IH. unfold item.
  destruct (outcome w analysis options n0 (fst ic) (snd ic)); reflexivity.
Qed.

Lemma filter_length_le {T} (f : T -> bool) l : (length (filter f l) <= length l)%nat.
Proof. induction l as [|x l IH]; simpl; [lia|]. destruct (f x); simpl; lia. Qed.

Lemma filter_nil_iff {T} (f : T -> bool) l :
  filter f l = [] <-> forall x, In x l -> f x = false.
Proof.
  induction l as [|x l IH]; simpl; [tauto|].
  destruct (f x) eqn:Hx.
  - split; [discriminate|]. intros H. specialize (H x (or_introl eq_refl)). congruence.
  - rewrite IH. split.
    + intros H y [<-|Hy]; [assumption | now apply H].
    + intros H y Hy. apply H. now right.
Qed.

Lemma indexed_from_length j cs : length (indexed_from j cs) = length cs.
Proof.
  unfold indexed_from. rewrite length_combine, length_seq. apply Nat.min_id.
Qed.

(** The loop keeps the successful items, in order, and issues one request
    per concept. *)
Lemma generateLoop_spec w analysis options n0 cs :
  forall j results tr,
    (has_key w = true -> calls tr = (n0 + j)%nat) ->
    exists tr',
      generateLoop w analysis options j cs results tr
      = (inr (results ++ flat_map (item w analysis options n0) (indexed_from j cs)), tr')
      /\ calls tr' = (calls tr + if has_key w then length cs else 0)%nat.
Proof.
  induction cs as [|c cs IH]; intros j results tr Hcalls.
  - exists tr. cbn [generateLoop flat_map indexed_from length seq combine].
    rewrite app_nil_r. split; [reflexivity | destruct (has_key w); cbn [length]; lia].
  - cbn [generateLoop]. rewrite indexed_from_cons. cbn [flat_map].
    unfold item at 1, outcome. cbn [fst snd].
    unfold bind at 1. unfold try_catch. unfold bind at 1.
    rewrite generateImage_outcome.
    destruct (has_key w) eqn:Hk.
    + rewrite (Hcalls eq_refl).
      set (req := EvFetch _).
      assert (E1 : calls (tr ++ [req]) = (n0 + S j)%nat)
        by (rewrite calls_snoc, (Hcalls eq_refl); subst req; cbn [is_external]; lia).
      destruct (generation w (n0 + j) _ _) as [e|r].
      * unfold bind, emit, ret.
        set (log := EvConsoleError _ _).
        destruct (IH (S j) results ((tr ++ [req]) ++ [log])) as (tr' & Hrun & Hc).
        { intros _. rewrite calls_snoc, E1. subst log. cbn [is_external]. lia. }
        exists tr'. split; [exact Hrun|].
        rewrite Hc, calls_snoc, E1. subst log.
        cbn [is_external length]. lia.
      * unfold bind, now, ret. rewrite E1.
        destruct (IH (S j) (results ++ [thumbnail (Date_now w (n0 + S j)) j c r])
                     (tr ++ [req])) as (tr' & Hrun & Hc).
        { intros _. exact E1. }
        exists tr'. rewrite Hrun. split.
        -- rewrite <- app_assoc. cbn [app].
           now replace (n0 + j + 1)%nat with (n0 + S j)%nat by lia.
        -- rewrite Hc, E1. cbn [length]. lia.
    + rewrite (generation_no_key w _ _ _ Hk), (generation_no_key w _ _ _ Hk).
      unfold bind, emit, ret.
      set (log := EvConsoleError _ _).
      destruct (IH (S j) results (tr ++ [log])) as (tr' & Hrun & Hc).
      { intros H. discriminate. }
      exists tr'. split; [exact Hrun|].
      rewrite Hc, calls_snoc. subst log. cbn [is_external]. lia.
Qed.

(** The result of a run, from the outcomes of its generations. *)
Lemma generateThumbnails_run w analysis options tr :
  exists tr',
    generateThumbnails w analysis options tr
    = (match successes w analysis options (calls tr) (attempted analysis options) with
       | [] => inl NoThumbnailsGenerated
       | good => inr good
       end, tr')
    /\ calls tr' = (calls tr + if has_key w
                               then length (attempted analysis options) else 0)%nat.
Proof.
  destruct (generateLoop_spec w analysis options (calls tr)
                              (attempted analysis options) 0 [] tr)
    as (tr' & Hrun & Hc); [intros _; lia|].
  exists tr'. split; [|exact Hc].
  unfold generateThumbnails, bind. rewrite Hrun. cbn [app]. unfold successes.
  destruct (flat_map _ _); reflexivity.
Qed.

Lemma generateLoop_without_count w analysis options cs :
  forall j results tr,
    generateLoop w analysis (without_count options) j cs results tr
    = generateLoop w analysis options j cs results tr.
Proof.
  induction cs as [|c cs IH]; intros j results tr; [reflexivity|].
  cbn [generateLoop]. rewrite !(bind_run _ _ tr).
  change (faceDescription (without_count options)) with (faceDescription options).
  change (imageOptions (without_count options)) with (imageOptions options).
  destruct (try_catch _ _ tr) as [[e|r] tr']; [reflexivity | apply IH].
Qed.

Lemma generateThumbnails_result w analysis options tr :
  result (generateThumbnails w analysis options) tr
  = match successes w analysis options (calls tr) (attempted analysis options) with
    | [] => inl NoThumbnailsGenerated
    | good => inr good
    end.
Proof.
  destruct (generateThumbnails_run w analysis options tr) as (tr' & Hrun & _).
  unfold result. now rewrite Hrun.
Qed.

Lemma successes_length w analysis options n0 cs :
  length (successes w analysis options n0 cs)
  = length (filter (fun ic => succeeded (outcome w analysis options n0 (fst ic) (snd ic)))
                   (indexed_from 0 cs)).
Proof. apply items_length. Qed.

(** The run fails exactly when every attempted generation fails. *)
Lemma no_thumbnails_iff w analysis options tr :
  result (generateThumbnails w analysis options) tr = inl NoThumbnailsGenerated <->
  forall i c, nth_error (attempted analysis options) i = Some c ->
              succeeded (outcome w analysis options (calls tr) i c) = false.
Proof.
  rewrite generateThumbnails_result.
  pose proof (successes_length w analysis options (calls tr)
                               (attempted analysis options)) as Hlen.
  split.
  - intros H i c Hi.
    destruct (successes w analysis options (calls tr) (attempted analysis options));
      [|discriminate].
    symmetry in Hlen. apply length_zero_iff_nil in Hlen.
    apply (proj1 (filter_nil_iff _ _) Hlen (i, c)).
    apply indexed_from_In. split; [lia|]. now rewrite Nat.sub_0_r.
  - intros H.
    assert (Hf : filter (fun ic => succeeded
                                     (outcome w analysis options (calls tr)
                                              (fst ic) (snd ic)))
                        (indexed_from 0 (attempted analysis options)) = []).
    { apply filter_nil_iff. intros [i c] Hin.
      apply indexed_from_In in Hin as [_ Hin]. rewrite Nat.sub_0_r in Hin.
      now apply H. }
    rewrite Hf in Hlen. apply length_zero_iff_nil in Hlen. now rewrite Hlen.
Qed.

(** With a positive count the attempted concepts are the first
    min(count, number of concepts) ones. *)
Lemma attempted_cap analysis options :
  (0 < requestedCount options)%Z ->
  attempted analysis options
  = firstn (Z.to_nat (Z.min (requestedCount options)
                            (Z.of_nat (length (thumbnailConcepts analysis)))))
           (thumbnailConcepts analysis).
Proof.
  intros Hpos. unfold attempted, slice0.
  set (len := Z.of_nat (length (thumbnailConcepts analysis))).
  assert (0 <= len)%Z by (subst len; lia).
  replace (Z.min (requestedCount options) len <? 0)%Z with false
    by (symmetry; apply Z.ltb_ge; lia).
  f_equal. f_equal. lia.
Qed.

End GenerationFacts.

Module GenerationProperties.
Import OpenRouter ThumbnailGenerator Generation GenerationFacts ImageShapes.

(** C4: [generateThumbnails] returns exactly the items whose generation
    succeeded, in concept order, and omits the failed ones; it raises the
    no-thumbnails error if and only if every attempted generation fails;
    with four attempted concepts of which exactly one fails it returns
    three thumbnails. *)
Theorem generateThumbnails_partial_success
        (w : World) (analysis : VideoAnalysis) (options : GenerateOptions)
        (tr : list Event) :
  let cs := attempted analysis options in
  let n0 := calls tr in
  let good := successes w analysis options n0 cs in
  result (generateThumbnails w analysis options) tr
  = match good with
    | [] => inl NoThumbnailsGenerated
    | _ => inr good
    end /\
  length good
  = length (filter (fun ic => succeeded (outcome w analysis options n0 (fst ic) (snd ic)))
                   (indexed_from 0 cs)) /\
  (result (generateThumbnails w analysis options) tr = inl NoThumbnailsGenerated <->
   forall i c, nth_error cs i = Some c ->
               succeeded (outcome w analysis options n0 i c) = false) /\
  (length cs = 4%nat ->
   forall j, (j < 4)%nat ->
     (forall i c, nth_error cs i = Some c ->
                  succeeded (outcome w analysis options n0 i c) = negb (i =? j)%nat) ->
     exists thumbs,
       result (generateThumbnails w analysis options) tr = inr thumbs /\
       length thumbs = 3%nat).
Proof.
  intros cs n0 good.
  assert (Hres : result (generateThumbnails w analysis options) tr
                 = match good with [] => inl NoThumbnailsGenerated | _ => inr good end).
  { rewrite generateThumbnails_result. subst good cs n0.
    destruct (successes w analysis options (calls tr) (attempted analysis options));
      reflexivity. }
  pose proof (successes_length w analysis options n0 cs) as Hlen. fold good in Hlen.
  split; [exact Hres|]. split; [exact Hlen|]. split.
  - apply no_thumbnails_iff.
  - intros H4 j Hj Hout.
    assert (H3 : length good = 3%nat).
    { rewrite Hlen.
      destruct cs as [|c0 [|c1 [|c2 [|c3 [|c4 cs']]]]]; try discriminate.
      unfold indexed_from. cbn [length seq combine filter fst snd].
      rewrite (Hout 0%nat c0 eq_refl), (Hout 1%nat c1 eq_refl),
        (Hout 2%nat c2 eq_refl), (Hout 3%nat c3 eq_refl).
      destruct j as [|[|[|[|j]]]]; try reflexivity. lia. }
    exists good. split; [|exact H3].
    rewrite Hres. destruct good; [discriminate | reflexivity].
Qed.

Lemma generateThumbnails_partial_success_witness :
  exists thumbs,
    result (generateThumbnails secondFailsWorld sampleAnalysis (optionsWithCount None)) []
    = inr thumbs /\ length thumbs = 3%nat.
Proof.
  destruct (generateThumbnails_partial_success
              secondFailsWorld sampleAnalysis (optionsWithCount None) [])
    as (_ & _ & _ & H).
  apply (H eq_refl 1%nat); [lia|].
  intros [|[|[|[|i]]]] c Hc; try (injection Hc as <-; vm_compute; reflexivity).
  destruct i; discriminate.
Defined.

(** C6, as stated, for a requested count of 0 against four concepts: the
    run yields four thumbnails, more than min(0, 4). *)
Lemma generateThumbnails_count_zero_yields_four :
  match result (generateThumbnails (providerWorld sideMessage) sampleAnalysis
                                   (optionsWithCount (Some 0%Z))) [] with
  | inr thumbs =>
      length thumbs = 4%nat /\
      (Z.min 0 (Z.of_nat (length (thumbnailConcepts sampleAnalysis))) < Z.of_nat (length thumbs))%Z
  | inl _ => False
  end.
Proof. vm_compute. split; reflexivity. Qed.

(** C6 (amended): when the requested count is positive, and when it is
    left out (or is 0) and the default of 4 applies, [generateThumbnails]
    attempts exactly the first min(count, number of concepts) concepts,
    issues at most that many requests and returns at most that many
    thumbnails; so a count of 6 against four concepts gives at most four. *)
Theorem generateThumbnails_count_cap
        (w : World) (analysis : VideoAnalysis) (options : GenerateOptions)
        (tr : list Event) :
  (0 < requestedCount options)%Z ->
  let bound :=
    Z.to_nat (Z.min (requestedCount options)
                    (Z.of_nat (length (thumbnailConcepts analysis)))) in
  attempted analysis options = firstn bound (thumbnailConcepts analysis) /\
  length (attempted analysis options) = bound /\
  (calls (trace_after (generateThumbnails w analysis options) tr) - calls tr <= bound)%nat /\
  (forall thumbs,
      result (generateThumbnails w analysis options) tr = inr thumbs ->
      (length thumbs <= bound)%nat) /\
  (forall c, count options = Some c -> c <> 0%Z -> requestedCount options = c) /\
  (count options = None -> requestedCount options = 4%Z).
Proof.
  intros Hpos bound.
  assert (Hatt : attempted analysis options = firstn bound (thumbnailConcepts analysis))
    by (apply attempted_cap; exact Hpos).
  assert (Hlen : length (attempted analysis options) = bound).
  { rewrite Hatt, length_firstn. subst bound. lia. }
  split; [exact Hatt|]. split; [exact Hlen|].
  destruct (generateThumbnails_run w analysis options tr) as (tr' & Hrun & Hc).
  unfold trace_after, result. rewrite Hrun. cbn [fst snd]. split; [|split; [|split]].
  - rewrite Hc, Hlen. destruct (has_key w); lia.
  - intros thumbs Ht.
    assert (Hle : (length (successes w analysis options (calls tr)
                                     (attempted analysis options)) <= bound)%nat).
    { unfold successes. rewrite items_length.
      etransitivity; [apply filter_length_le|].
      now rewrite indexed_from_length, Hlen. }
    destruct (successes w analysis options (calls tr) (attempted analysis options));
      [discriminate|].
    injection Ht as <-. exact Hle.
  - intros c Hc' Hnz. unfold requestedCount. rewrite Hc'.
    destruct (c =? 0)%Z eqn:E; [apply Z.eqb_eq in E; congruence | reflexivity].
  - intros Hn. unfold requestedCount. now rewrite Hn.
Qed.

Lemma generateThumbnails_count_cap_witness :
  attempted sampleAnalysis (optionsWithCount (Some 6%Z))
  = thumbnailConcepts sampleAnalysis /\
  forall thumbs,
    result (generateThumbnails (providerWorld sideMessage) sampleAnalysis
                               (optionsWithCount (Some 6%Z))) [] = inr thumbs ->
    (length thumbs <= 4)%nat.
Proof.
  assert (Hpos : (0 < requestedCount (optionsWithCount (Some 6%Z)))%Z)
    by (vm_compute; reflexivity).
  destruct (generateThumbnails_count_cap (providerWorld sideMessage) sampleAnalysis
                                         (optionsWithCount (Some 6%Z)) [] Hpos)
    as (Ha & _ & _ & Ht & _).
  split; [exact Ha | exact Ht].
Defined.

(** C10: a count of 0 behaves exactly as a count left out: the default of
    4 applies, capped to the number of concepts, and with at least one
    concept at least one generation is attempted. *)
Theorem generateThumbnails_count_zero_is_default
        (w : World) (analysis : VideoAnalysis) (options : GenerateOptions)
        (tr : list Event) :
  count options = Some 0%Z ->
  generateThumbnails w analysis options tr
  = generateThumbnails w analysis (without_count options) tr /\
  attempted analysis options = firstn 4 (thumbnailConcepts analysis) /\
  (thumbnailConcepts analysis <> [] -> attempted analysis options <> []) /\
  (result (generateThumbnails w analysis options) tr = inl NoThumbnailsGenerated <->
   forall i c, nth_error (firstn 4 (thumbnailConcepts analysis)) i = Some c ->
               succeeded (outcome w analysis options (calls tr) i c) = false).
Proof.
  intros H0.
  assert (Hreq : requestedCount options = 4%Z)
    by (unfold requestedCount; now rewrite H0).
  assert (Hsame : attempted analysis (without_count options) = attempted analysis options)
    by (unfold attempted; now rewrite Hreq).
  assert (Hpos : (0 < requestedCount options)%Z) by (rewrite Hreq; lia).
  pose proof (attempted_cap analysis options Hpos) as Hatt.
  assert (Hfour : attempted analysis options = firstn 4 (thumbnailConcepts analysis)).
  { rewrite Hatt, Hreq.
    destruct (thumbnailConcepts analysis) as [|c0 [|c1 [|c2 [|c3 rest]]]]; try reflexivity.
    replace (Z.to_nat (Z.min 4 (Z.of_nat (length (c0 :: c1 :: c2 :: c3 :: rest)))))
      with 4%nat by (cbn [length]; lia).
    reflexivity. }
  split; [|split; [exact Hfour|split]].
  - unfold generateThumbnails. rewrite !(bind_run _ _ tr), Hsame.
    now rewrite generateLoop_without_count.
  - rewrite Hfour. destruct (thumbnailConcepts analysis); [congruence | discriminate].
  - rewrite <- Hfour. apply no_thumbnails_iff.
Qed.

Lemma generateThumbnails_count_zero_is_default_witness :
  generateThumbnails (providerWorld sideMessage) sampleAnalysis (optionsWithCount (Some 0%Z)) []
  = generateThumbnails (providerWorld sideMessage) sampleAnalysis (optionsWithCount None) [] /\
  attempted sampleAnalysis (optionsWithCount (Some 0%Z)) = thumbnailConcepts sampleAnalysis.
Proof.
  destruct (generateThumbnails_count_zero_is_default
              (providerWorld sideMessage) sampleAnalysis (optionsWithCount (Some 0%Z)) []
              eq_refl) as (H1 & H2 & _).
  split; [exact H1 | exact H2].
Defined.

End GenerationProperties.

(* ------------------------------------------------------------------ *)
(** ** analyzeFace and the face-analyze endpoint *)

Module FaceProperties.
Import OpenRouter FaceAnalyzer FaceAnalyzeRoute AnalyzerWorlds.

(** C7: with an empty image list [analyzeFace] raises the invalid-input
    error before any external call; and the endpoint answers a request
    whose [faceImages] is missing, not an array, empty or longer than 5
    with status 400 and leaves the trace untouched: the analyzer is not
    called. *)
Theorem face_endpoint_rejects (w : World) (tr : list Event) :
  (analyzeFace w [] tr = (inl FacePhotoRequired, tr ++ [invoked]) /\
   calls (trace_after (analyzeFace w []) tr) = calls tr) /\
  POST w (inr {| faceImages := FieldArray [] |}) tr
  = (inr {| http_status := 400;
            http_body := BodyError (js "Please provide at least one face image (base64)") |},
     tr) /\
  (forall items,
      (5 < length items)%nat ->
      POST w (inr {| faceImages := FieldArray items |}) tr
      = (inr {| http_status := 400;
                http_body := BodyError (js "Maximum 5 reference photos allowed") |},
         tr)) /\
  (forall field,
      field = FieldAbsent \/ field = FieldNotArray ->
      POST w (inr {| faceImages := field |}) tr
      = (inr {| http_status := 400;
                http_body := BodyError (js "Please provide at least one face image (base64)") |},
         tr)).
Proof.
  split; [|split; [|split]].
  - assert (E : analyzeFace w [] tr = (inl FacePhotoRequired, tr ++ [invoked]))
      by reflexivity.
    split; [exact E|]. unfold trace_after. rewrite E. cbn [snd].
    rewrite calls_snoc. cbn [invoked is_external]. lia.
  - reflexivity.
  - intros items Hlen.
    destruct items as [|x items]; [simpl in Hlen; lia|].
    unfold POST, try_catch. rewrite bind_run. cbn [builtin lift raising faceImages].
    change (length (x :: items) =? 0)%nat with false. cbv iota.
    apply Nat.ltb_lt in Hlen. rewrite Hlen. reflexivity.
  - intros field [->| ->]; reflexivity.
Qed.

Lemma face_endpoint_rejects_witness :
  POST Sources.deadWorld (inr {| faceImages := FieldArray sixPhotos |}) []
  = (inr {| http_status := 400;
            http_body := BodyError (js "Maximum 5 reference photos allowed") |}, []).
Proof.
  apply (proj1 (proj2 (proj2 (face_endpoint_rejects Sources.deadWorld [])))).
  vm_compute. lia.
Defined.

(** C8: when the text of the completion, with its fences stripped, does not
    parse as JSON, [analyzeFace] does not raise: it returns the trimmed raw
    text as description, no key features, "unknown" for age range and
    gender presentation, and the number of input images as photo count. *)
Theorem analyzeFace_degrades
        (w : World) (faceImagesBase64 : list jsstring) (tr tr' : list Event)
        (response : jsstring) (f : Failure) :
  faceImagesBase64 <> [] ->
  textCompletion w (faceMessages faceImagesBase64) faceOptions (tr ++ [invoked])
  = (inr response, tr') ->
  JSON_parse w (strip_fences response) = inl f ->
  exists fa,
    result (analyzeFace w faceImagesBase64) tr = inr fa /\
    description fa = VString (trim response) /\
    keyFeatures fa = VArray [] /\
    ageRange fa = VString (js "unknown") /\
    genderPresentation fa = VString (js "unknown") /\
    photoCount fa = length faceImagesBase64.
Proof.
  intros Hne Hc Hp.
  exists (rawFallback response (length faceImagesBase64)).
  split; [|now split_all].
  unfold result, analyzeFace. rewrite bind_run. cbn [emit].
  destruct faceImagesBase64 as [|x xs]; [congruence|].
  change (length (x :: xs) =? 0)%nat with false. cbv iota.
  rewrite bind_run. fold invoked. rewrite Hc.
  unfold try_catch. rewrite bind_run. unfold builtin, lift. rewrite Hp.
  reflexivity.
Qed.

Lemma analyzeFace_degrades_witness :
  exists fa,
    result (analyzeFace (proseWorld (js "  A man in his 30s with a beard. ")) [js "AAAA"]) []
    = inr fa /\
    description fa = VString (js "A man in his 30s with a beard.") /\
    keyFeatures fa = VArray [] /\
    ageRange fa = VString (js "unknown") /\
    genderPresentation fa = VString (js "unknown") /\
    photoCount fa = 1%nat.
Proof.
  set (w := proseWorld (js "  A man in his 30s with a beard. ")).
  destruct (analyzeFace_degrades
              w [js "AAAA"] []
              (snd (textCompletion w (faceMessages [js "AAAA"]) faceOptions ([] ++ [invoked])))
              (js "  A man in his 30s with a beard. ")
              {| failure_name := js "SyntaxError"; failure_message := js "Unexpected token" |})
    as (fa & H1 & H2 & H3 & H4 & H5 & H6).
  - discriminate.
  - vm_compute. reflexivity.
  - reflexivity.
  - exists fa. split; [exact H1|]. split; [|now split_all].
    rewrite H2. vm_compute. reflexivity.
Defined.

End FaceProperties.

(* ------------------------------------------------------------------ *)
(** ** analyzeVideo *)

Module AnalysisProperties.
Import OpenRouter VideoAnalyzer AnalyzerWorlds.

Lemma resolvedTranscript_total w u tr :
  exists transcript tr1, resolvedTranscript w u tr = (inr transcript, tr1).
Proof.
  unfold resolvedTranscript, try_catch.
  destruct (extractTranscript w u tr) as [[e|t] tr1]; eexists; eexists; reflexivity.
Qed.

Lemma getVideoMetadata_total w u tr :
  exists metadata tr1, getVideoMetadata w u tr = (inr metadata, tr1).
Proof.
  unfold getVideoMetadata. rewrite bind_run. unfold try_catch.
  match goal with
  | |- context [match ?m tr with _ => _ end] => destruct (m tr) as [[e|[md|]] tr1]
  end; eexists; eexists; reflexivity.
Qed.

(** A failing completion never raises the no-content error. *)
Lemma textCompletion_error w messages options tr e tr' :
  textCompletion w messages options tr = (inl e, tr') -> e <> NoContentAvailable.
Proof.
  unfold textCompletion.
  destruct (OPENROUTER_API_KEY w) as [k|];
    [|intros [= <- _]; vm_compute; discriminate].
  destruct (truthy k); cbn [negb];
    [|intros [= <- _]; vm_compute; discriminate].
  rewrite bind_run. unfold external.
  destruct (fetch w (calls tr) _) as [f|response]; cbn [raising];
    [intros [= <- _]; discriminate|].
  destruct (ok response); cbn [negb].
  - rewrite bind_run. unfold builtin, lift.
    destruct (json response) as [f|data]; cbn [raising];
      [intros [= <- _]; discriminate|].
    unfold completionText, first_message.
    destruct (data_choices data) as [[|c cs]|];
      [discriminate | | intros [= <- _]; discriminate].
    destruct (message c) as [m|]; [|discriminate].
    destruct (content m); discriminate.
  - rewrite bind_run. unfold builtin, lift.
    destruct (text response) as [f|body]; cbn [raising];
      [intros [= <- _]; discriminate|].
    unfold throw. intros [= <- _] H. unfold NoContentAvailable in H.
    injection H as H. vm_compute in H. discriminate.
Qed.

(** C5: [analyzeVideo] raises the no-content error if and only if both the
    resolved transcript and the title of the metadata are empty; when one
    of them is not empty it builds the prompt, and with a completion that
    parses it returns the parsed analysis. *)
Theorem analyzeVideo_no_content (w : World) (u : jsstring) (tr : list Event) :
  exists transcript tr1 metadata tr2,
    resolvedTranscript w u tr = (inr transcript, tr1) /\
    getVideoMetadata w u tr1 = (inr metadata, tr2) /\
    (result (analyzeVideo w u) tr = inl NoContentAvailable <->
     transcript = [] /\ title metadata = []) /\
    (~ (transcript = [] /\ title metadata = []) ->
     forall completion tr3 v,
       textCompletion w (analysisMessages metadata transcript) analysisOptions tr2
       = (inr completion, tr3) ->
       JSON_parse w (strip_fences completion) = inr v ->
       analyzeVideo w u tr = (inr v, tr3)).
Proof.
  destruct (resolvedTranscript_total w u tr) as (transcript & tr1 & Ht).
  destruct (getVideoMetadata_total w u tr1) as (metadata & tr2 & Hm).
  exists transcript, tr1, metadata, tr2.
  split; [exact Ht|]. split; [exact Hm|].
  unfold result, analyzeVideo. rewrite bind_run, Ht, bind_run, Hm.
  destruct transcript as [|c t]; [destruct (title metadata) as [|c' t'] eqn:Htitle|];
    cbn [truthy negb andb].
  - split.
    + split; [intros _; now split|]. intros _. reflexivity.
    + intros H. exfalso. apply H. now split.
  - split.
    + split; [|intros [_ H]; discriminate].
      rewrite bind_run.
      destruct (textCompletion w _ _ tr2) as [[e|completion] tr3] eqn:Hc.
      * cbn [fst]. intros [= ->]. exfalso.
        now apply (textCompletion_error _ _ _ _ _ _ Hc).
      * unfold try_catch, builtin, lift.
        destruct (JSON_parse w (strip_fences completion)); cbn [raising fst throw];
          intros H; [injection H as H; vm_compute in H|]; discriminate.
    + intros _ completion tr3 v Hc Hp. rewrite bind_run, Hc.
      unfold try_catch, builtin, lift. now rewrite Hp.
  - split.
    + split; [|intros [H _]; discriminate].
      rewrite bind_run.
      destruct (textCompletion w _ _ tr2) as [[e|completion] tr3] eqn:Hc.
      * cbn [fst]. intros [= ->]. exfalso.
        now apply (textCompletion_error _ _ _ _ _ _ Hc).
      * unfold try_catch, builtin, lift.
        destruct (JSON_parse w (strip_fences completion)); cbn [raising fst throw];
          intros H; [injection H as H; vm_compute in H|]; discriminate.
    + intros _ completion tr3 v Hc Hp. rewrite bind_run, Hc.
      unfold try_catch, builtin, lift. now rewrite Hp.
Qed.

Lemma analyzeVideo_no_content_witness :
  result (analyzeVideo titleOnlyWorld Sources.sampleUrl) [] = inr (VObject []) /\
  result (analyzeVideo Sources.deadWorld Sources.sampleUrl) [] = inl NoContentAvailable.
Proof.
  split.
  - destruct (analyzeVideo_no_content titleOnlyWorld Sources.sampleUrl [])
      as (transcript & tr1 & metadata & tr2 & Ht & Hm & _ & Hgo).
    assert (Et : (inr transcript : Error + jsstring, tr1)
                 = (inr [], snd (resolvedTranscript titleOnlyWorld Sources.sampleUrl [])))
      by (rewrite <- Ht; vm_compute; reflexivity).
    injection Et as -> ->.
    assert (Em : (inr metadata : Error + VideoMetadata, tr2)
                 = (inr {| title := js "Foxes at dawn"; author := [] |},
                    snd (getVideoMetadata
                           titleOnlyWorld Sources.sampleUrl
                           (snd (resolvedTranscript titleOnlyWorld Sources.sampleUrl [])))))
      by (rewrite <- Hm; vm_compute; reflexivity).
    injection Em as -> ->.
    unfold result.
    erewrite Hgo; [reflexivity | | | ].
    + intros [_ H]. vm_compute in H. discriminate.
    + vm_compute. reflexivity.
    + vm_compute. reflexivity.
  - destruct (analyzeVideo_no_content Sources.deadWorld Sources.sampleUrl [])
      as (transcript & tr1 & metadata & tr2 & Ht & Hm & Hiff & _).
    apply Hiff.
    assert (Et : (inr transcript : Error + jsstring, tr1)
                 = (inr [], snd (resolvedTranscript Sources.deadWorld Sources.sampleUrl [])))
      by (rewrite <- Ht; vm_compute; reflexivity).
    injection Et as -> ->.
    assert (Em : (inr metadata : Error + VideoMetadata, tr2)
                 = (inr {| title := []; author := [] |},
                    snd (getVideoMetadata
                           Sources.deadWorld Sources.sampleUrl
                           (snd (resolvedTranscript Sources.deadWorld Sources.sampleUrl [])))))
      by (rewrite <- Hm; vm_compute; reflexivity).
    injection Em as -> ->. split; reflexivity.
Defined.

End AnalysisProperties.

(* ================================================================== *)
(** ** Further properties of the clients, the analyzers, the generator and
    the endpoints *)

Module ProviderFacts.
Import OpenRouter Generation Completion ImageShapes.

Lemma textCompletion_outcome w messages options tr :
  textCompletion w messages options tr =
  (completion w (calls tr) messages options,
   afterRequest w tr (fun apiKey => completionRequest apiKey messages options)).
Proof.
  unfold textCompletion, completion, afterRequest, has_key.
  destruct (OPENROUTER_API_KEY w) as [apiKey|]; [|reflexivity].
  cbn [opt_truthy nullish].
  destruct (truthy apiKey); [|reflexivity].
  cbn [negb].
  fold (completionRequest apiKey messages options).
  rewrite bind_run. unfold external.
  destruct (fetch w (calls tr) (completionRequest apiKey messages options))
    as [f|response]; [reflexivity|].
  cbn [raising]. unfold completionOfResponse.
  destruct (ok response); cbn [negb].
  - rewrite bind_run. unfold builtin, lift.
    destruct (json response); reflexivity.
  - rewrite bind_run. unfold builtin, lift.
    destruct (text response); reflexivity.
Qed.

Lemma generateImage_after w prompt options tr :
  generateImage w prompt options tr =
  (generation w (calls tr) prompt options,
   afterRequest w tr (fun apiKey => imageRequest apiKey prompt options)).
Proof. apply GenerationFacts.generateImage_outcome. Qed.

Lemma afterRequest_calls w tr req :
  calls (afterRequest w tr req) = (calls tr + if has_key w then 1 else 0)%nat.
Proof.
  unfold afterRequest. destruct (has_key w).
  - now rewrite calls_snoc.
  - lia.
Qed.

Lemma has_key_true w :
  has_key w = true -> exists apiKey, OPENROUTER_API_KEY w = Some apiKey /\ apiKey <> [].
Proof.
  unfold has_key, opt_truthy. destruct (OPENROUTER_API_KEY w) as [k|]; [|discriminate].
  intros H. exists k. split; [reflexivity|]. now destruct k.
Qed.

Lemma completion_no_key w n messages options :
  has_key w = false -> completion w n messages options = inl ConfigurationError.
Proof.
  unfold has_key, completion, opt_truthy.
  destruct (OPENROUTER_API_KEY w) as [k|]; [|reflexivity].
  now intros ->.
Qed.

End ProviderFacts.

Module ProviderProperties.
Import OpenRouter Generation Completion ImageShapes ProviderFacts.

(** X1: the provider client sends at most one request per call and never
    retries.  Without an API key, [textCompletion] and [generateImage]
    fail with the configuration error and contact nobody; with a key,
    each of them leaves exactly one request, a POST to the fixed endpoint
    that carries the key, whatever the provider answers. *)
Theorem provider_single_request
        (w : World) (messages : list OpenRouterMessage) (options : CompletionOptions)
        (prompt : jsstring) (ioptions : ImageOptions) (tr : list Event) :
  let tr1 := trace_after (textCompletion w messages options) tr in
  let tr2 := trace_after (generateImage w prompt ioptions) tr in
  (has_key w = false ->
   textCompletion w messages options tr = (inl ConfigurationError, tr) /\
   generateImage w prompt ioptions tr = (inl ConfigurationError, tr)) /\
  (forall apiKey,
      OPENROUTER_API_KEY w = Some apiKey -> apiKey <> [] ->
      tr1 = tr ++ [EvFetch (completionRequest apiKey messages options)] /\
      tr2 = tr ++ [EvFetch (imageRequest apiKey prompt ioptions)] /\
      (exists body, completionRequest apiKey messages options
                    = POST OPENROUTER_API_URL (request_headers apiKey) body) /\
      (exists body, imageRequest apiKey prompt ioptions
                    = POST OPENROUTER_API_URL (request_headers apiKey) body) /\
      In (js "Authorization", js "Bearer " ++ apiKey) (request_headers apiKey)) /\
  (calls tr1 <= calls tr + 1)%nat /\
  (calls tr2 <= calls tr + 1)%nat.
Proof.
  cbv zeta. unfold trace_after.
  rewrite textCompletion_outcome, generateImage_after. cbn [snd].
  split_all.
  - intros H. unfold afterRequest. rewrite H.
    now rewrite completion_no_key, GenerationFacts.generation_no_key.
  - intros apiKey Hk Hne.
    assert (Hkey : has_key w = true).
    { unfold has_key. rewrite Hk. now destruct apiKey. }
    unfold afterRequest. rewrite Hkey, Hk. cbn [nullish].
    split_all; try reflexivity.
    + eexists. reflexivity.
    + eexists. reflexivity.
    + left. reflexivity.
  - rewrite afterRequest_calls. destruct (has_key w); lia.
  - rewrite afterRequest_calls. destruct (has_key w); lia.
Qed.



End ProviderProperties.

Module DataUrlProperties.
Import OpenRouter ImageShapes.

Lemma starts_by_starts_with p s : starts_by N.eqb p s = starts_with p s.
Proof.
  revert s. induction p as [|a p IH]; intros [|b s]; simpl; try reflexivity.
  now rewrite IH.
Qed.

(** X3: what the client removes from an image URL.  A data URL of any
    image type loses its header and keeps its payload; a text that does
    not begin with [data:image/] is kept whole, so that a bare base64
    payload passes through unchanged. *)
Theorem strip_data_url_payload (u : jsstring) :
  (forall fmt b,
      fmt <> [] -> forallb is_word fmt = true ->
      u = js "data:image/" ++ fmt ++ js ";base64," ++ b ->
      strip_data_url u = b) /\
  (starts_with (js "data:image/") u = false -> strip_data_url u = u) /\
  (forall m, images m = Some [ {| entry_image_url := Some {| url := u |} |} ] ->
             u <> [] ->
             exists p, imageOfMessage m
                       = inr {| imageBase64 := strip_data_url u; revisedPrompt := p |}).
Proof.
  split_all.
  - intros fmt b Hne Hw ->. now apply ImageFacts.strip_data_url_prefix.
  - intros H. unfold strip_data_url, replace_prefix, match_here, data_url_prefix.
    rewrite ImageFacts.rmatch_seq. unfold RLit. rewrite rmatch_RLitBy.
    now rewrite starts_by_starts_with, H.
  - intros m Hm Hne. unfold imageOfMessage. rewrite Hm. cbn [entry_image_url option_map url].
    assert (Ht : truthy u = true) by now destruct u.
    rewrite Ht. eexists. reflexivity.
Qed.

Lemma strip_data_url_payload_witness :
  strip_data_url (js "data:image/webp;base64,UklGRg==") = js "UklGRg==" /\
  strip_data_url (js "UklGRg==") = js "UklGRg==".
Proof.
  split.
  - refine (proj1 (strip_data_url_payload _) (js "webp") (js "UklGRg==") _ eq_refl eq_refl).
    vm_compute. discriminate.
  - exact (proj1 (proj2 (strip_data_url_payload (js "UklGRg=="))) eq_refl).
Defined.

End DataUrlProperties.

Module ResolverProperties.
Import VideoAnalyzer Sources MoreSources TranscriptFacts.

Lemma chain_cases w n u videoId :
  (fst (chain w n u videoId) = inl NoTranscriptAvailable \/
   exists t, fst (chain w n u videoId) = inr t) /\
  (length (snd (chain w n u videoId)) <= 4)%nat /\
  Forall (fun e => is_external e = true) (snd (chain w n u videoId)).
Proof.
  unfold chain.
  destruct (libraryText w n videoId);
    [cbn; split_all; [right; eauto | lia | repeat constructor]|].
  destruct (vtdText w (n + 1) u);
    [cbn; split_all; [right; eauto | lia | repeat constructor]|].
  destruct (encodeURIComponent w u) as [f|q];
    [cbn; split_all; [left; reflexivity | lia | repeat constructor]|].
  destruct (transcriptIoText w (n + 2) q);
    [cbn; split_all; [right; eauto | lia | repeat constructor]|].
  destruct (supadataText w (n + 3) q);
    cbn; split_all; [right; eauto | lia | repeat constructor
                     | left; reflexivity | lia | repeat constructor].
Qed.

Lemma calls_app tr tr' : calls (tr ++ tr') = (calls tr + calls tr')%nat.
Proof. unfold calls. now rewrite filter_app, length_app. Qed.

Lemma calls_le tr : (calls tr <= length tr)%nat.
Proof. apply GenerationFacts.filter_length_le. Qed.

Lemma extractVideoId_cases u :
  extractVideoId u = None \/ exists videoId, extractVideoId u = Some videoId.
Proof. destruct (extractVideoId u); eauto. Qed.

(** X4: the outcomes of the transcript resolver.  It fails in two ways
    only, with the invalid-URL error or with the no-transcript error:
    the failure of a source is never passed on.  The URL is invalid
    exactly when no identifier can be extracted, and then nothing is
    called.  A run makes at most four external calls and logs nothing. *)
Theorem extractTranscript_outcomes (w : World) (u : jsstring) (tr : list Event) :
  let r := result (extractTranscript w u) tr in
  let tr' := trace_after (extractTranscript w u) tr in
  (r = inl InvalidYouTubeUrl \/ r = inl NoTranscriptAvailable \/ exists t, r = inr t) /\
  (r = inl InvalidYouTubeUrl <-> extractVideoId u = None) /\
  (extractVideoId u = None -> tr' = tr) /\
  (exists added, tr' = tr ++ added /\ (length added <= 4)%nat /\
                 Forall (fun e => is_external e = true) added) /\
  (calls tr' <= calls tr + 4)%nat.
Proof.
  cbv zeta. unfold result, trace_after.
  destruct (extractVideoId_cases u) as [Hn|[videoId Hv]].
  - rewrite (UrlShapesFacts.extractTranscript_invalid w u tr Hn). cbn [fst snd].
    split_all; auto.
    + tauto.
    + exists []. rewrite app_nil_r. split_all; [reflexivity | simpl; lia | constructor].
    + lia.
  - rewrite (extractTranscript_chain w u videoId tr Hv). cbn [fst snd].
    destruct (chain_cases w (calls tr) u videoId) as (Hr & Hl & Hx).
    split_all.
    + tauto.
    + split; [|rewrite Hv; discriminate].
      intros H. destruct Hr as [Hr|[t Hr]]; rewrite Hr in H; [|discriminate].
      exfalso. revert H. vm_compute. discriminate.
    + rewrite Hv. discriminate.
    + eauto.
    + rewrite calls_app.
      pose proof (calls_le (snd (chain w (calls tr) u videoId))). lia.
Qed.

(** X5: a transcript that the resolver returns is not empty, with one
    exception: when the second web API answers with an array of segments,
    the joined texts are returned as they are, also when they are
    empty. *)
Theorem extractTranscript_text_nonempty
        (w : World) (u : jsstring) (tr : list Event) (t : jsstring) :
  result (extractTranscript w u) tr = inr t ->
  t <> [] \/
  exists q data texts,
    encodeURIComponent w u = inr q /\
    okData w (calls tr + 3) (supadataRequest q) = Some data /\
    data_content data = Some (SupaSegments texts) /\
    join (js " ") texts = [].
Proof.
  unfold result.
  destruct (extractVideoId_cases u) as [Hn|[videoId Hv]].
  { rewrite (UrlShapesFacts.extractTranscript_invalid w u tr Hn). discriminate. }
  rewrite (extractTranscript_chain w u videoId tr Hv). cbn [fst].
  unfold chain.
  assert (Hlong : forall o x, accept_long o = Some x -> x <> []).
  { intros [y|] x; unfold accept_long; [|discriminate].
    destruct y as [|c y]; [cbn; discriminate|].
    destruct (20 <? length (c :: y))%nat; [|discriminate].
    intros [= <-]. discriminate. }
  assert (Hne : forall o x, accept_nonempty o = Some x -> x <> []).
  { intros [y|] x; unfold accept_nonempty; [|discriminate].
    destruct y as [|c y]; cbn; [discriminate|]. intros [= <-]. discriminate. }
  destruct (libraryText w (calls tr) videoId) as [a|] eqn:Ea.
  { cbn. intros [= <-]. left. exact (Hlong _ _ Ea). }
  destruct (vtdText w (calls tr + 1) u) as [b|] eqn:Eb.
  { cbn. intros [= <-]. left. exact (Hlong _ _ Eb). }
  destruct (encodeURIComponent w u) as [f|q]; [discriminate|].
  destruct (transcriptIoText w (calls tr + 2) q) as [c|] eqn:Ec.
  { cbn. intros [= <-]. left. exact (Hne _ _ Ec). }
  destruct (supadataText w (calls tr + 3) q) as [d|] eqn:Ed; [|discriminate].
  cbn. intros [= <-].
  unfold supadataText in Ed.
  destruct (okData w (calls tr + 3) (supadataRequest q)) as [data|] eqn:Eo; [|discriminate].
  destruct (data_content data) as [[s|texts]|] eqn:Edc; [| |discriminate].
  - left. exact (Hne _ _ Ed).
  - injection Ed as <-.
    destruct (join (js " ") texts) eqn:Ej; [|left; discriminate].
    right. exists q, data, texts. auto.
Qed.

Lemma extractTranscript_text_nonempty_witness :
  result (extractTranscript blankSegmentsWorld sampleUrl) [] = inr [] /\
  ([] <> @nil N \/
   exists q data texts,
     encodeURIComponent blankSegmentsWorld sampleUrl = inr q /\
     okData blankSegmentsWorld (calls [] + 3) (supadataRequest q) = Some data /\
     data_content data = Some (SupaSegments texts) /\
     join (js " ") texts = []).
Proof.
  assert (H : result (extractTranscript blankSegmentsWorld sampleUrl) [] = inr []).
  { vm_compute. reflexivity. }
  split; [exact H|].
  exact (extractTranscript_text_nonempty blankSegmentsWorld sampleUrl [] [] H).
Defined.

End ResolverProperties.

Module MetadataProperties.
Import VideoAnalyzer Sources MoreSources TranscriptFacts.

(** The metadata read from the body of a 2xx answer. *)
Lemma getVideoMetadata_run w u tr :
  getVideoMetadata w u tr =
  match encodeURIComponent w u with
  | inl _ => (inr noMetadata, tr)
  | inr q =>
      (inr match okData w (calls tr) (oembedRequest q) with
           | Some data => {| title := opt_or_default (data_title data) [];
                             author := opt_or_default (data_author_name data) [] |}
           | None => noMetadata
           end,
       tr ++ [EvFetch (oembedRequest q)])
  end.
Proof.
  unfold getVideoMetadata, okData, oembedRequest, noMetadata,
    try_catch, bind, external, builtin, lift, raising, ret.
  destruct (encodeURIComponent w u) as [f|q]; [reflexivity|].
  destruct (fetch w (calls tr) _) as [f|response]; [reflexivity|].
  destruct (ok response); [|reflexivity].
  destruct (json response) as [f|data]; reflexivity.
Qed.

(** X6: the metadata lookup never fails and asks the oEmbed endpoint at
    most once.  When the URL cannot be encoded, the request fails, the
    answer is not 2xx or its body is not JSON, the title and the author
    are empty; otherwise they are the [title] and [author_name] fields of
    the body, empty when absent. *)
Theorem getVideoMetadata_never_fails (w : World) (u : jsstring) (tr : list Event) :
  exists metadata,
    result (getVideoMetadata w u) tr = inr metadata /\
    (calls (trace_after (getVideoMetadata w u) tr) <= calls tr + 1)%nat /\
    (forall f, encodeURIComponent w u = inl f ->
               metadata = noMetadata /\ trace_after (getVideoMetadata w u) tr = tr) /\
    (forall q, encodeURIComponent w u = inr q ->
               trace_after (getVideoMetadata w u) tr = tr ++ [EvFetch (oembedRequest q)] /\
               (okData w (calls tr) (oembedRequest q) = None -> metadata = noMetadata) /\
               (forall data, okData w (calls tr) (oembedRequest q) = Some data ->
                             title metadata = opt_or_default (data_title data) [] /\
                             author metadata = opt_or_default (data_author_name data) [])).
Proof.
  unfold result, trace_after. rewrite getVideoMetadata_run.
  destruct (encodeURIComponent w u) as [f|q]; cbn [fst snd].
  - exists noMetadata. split_all; [reflexivity | lia | auto | discriminate].
  - eexists. split_all; [reflexivity | | discriminate |].
    + rewrite calls_snoc. cbn [is_external]. lia.
    + intros q' [= <-]. split_all; [reflexivity | |].
      * now intros ->.
      * intros data ->. split; reflexivity.
Qed.

End MetadataProperties.

Module LegacyResolverProperties.
Import VideoAnalyzer Sources MoreSources TranscriptFacts.

Lemma legacy_run w u videoId tr :
  extractVideoId u = Some videoId ->
  VideoAnalyzerLegacy.extractTranscript w u tr =
  match encodeURIComponent w u with
  | inl _ => (inl NoTranscriptAvailable, tr)
  | inr q =>
      match transcriptIoText w (calls tr) q with
      | Some t => (inr t, tr ++ [EvFetch (transcriptIoRequest q)])
      | None =>
          (match supadataText w (calls tr + 1) q with
           | Some t => inr t
           | None => inl NoTranscriptAvailable
           end,
           tr ++ [EvFetch (transcriptIoRequest q); EvFetch (supadataRequest q)])
      end
  end.
Proof.
  intros Hid. pose proof (extractVideoId_truthy _ _ Hid) as Ht.
  unfold VideoAnalyzerLegacy.extractTranscript. rewrite Hid, Ht. cbn [negb].
  rewrite bind_run, fromTranscriptIo_run.
  destruct (encodeURIComponent w u) as [f|q] eqn:Hq.
  - rewrite bind_run, fromSupadata_run, Hq. reflexivity.
  - destruct (transcriptIoText w (calls tr) q) as [t|]; [reflexivity|].
    rewrite bind_run, fromSupadata_run, Hq, calls_snoc. cbn [is_external].
    rewrite <- app_assoc. cbn [app].
    destruct (supadataText w (calls tr + 1) q); reflexivity.
Qed.

(** X7: the current resolver extends the earlier revision, which asked
    the two web APIs only.  When the transcript library and the
    command-line tool give no usable text, the current resolver returns
    what the earlier one returns in the world seen two calls later; the
    earlier one calls nothing but [fetch], at most twice. *)
Theorem current_resolver_extends_legacy
        (w : World) (u videoId : jsstring) (tr : list Event) :
  extractVideoId u = Some videoId ->
  libraryText w (calls tr) videoId = None ->
  vtdText w (calls tr + 1) u = None ->
  result (extractTranscript w u) tr
  = result (VideoAnalyzerLegacy.extractTranscript (later 2 w) u) tr /\
  trace_after (extractTranscript w u) tr
  = tr ++ [libraryEvent videoId; vtdEvent u]
       ++ skipn (length tr)
                (trace_after (VideoAnalyzerLegacy.extractTranscript (later 2 w) u) tr) /\
  (exists reqs,
      trace_after (VideoAnalyzerLegacy.extractTranscript (later 2 w) u) tr
      = tr ++ map EvFetch reqs /\ (length reqs <= 2)%nat).
Proof.
  intros Hid Ha Hb. unfold result, trace_after.
  rewrite (extractTranscript_chain w u videoId tr Hid), (legacy_run _ u videoId tr Hid).
  unfold chain. rewrite Ha, Hb.
  change (encodeURIComponent (later 2 w) u) with (encodeURIComponent w u).
  destruct (encodeURIComponent w u) as [f|q].
  - cbn [fst snd]. split_all; [reflexivity | |].
    + rewrite skipn_all. reflexivity.
    + exists []. split; [now rewrite app_nil_r | simpl; lia].
  - change (transcriptIoText (later 2 w) (calls tr) q)
      with (transcriptIoText w (calls tr + 2) q).
    change (supadataText (later 2 w) (calls tr + 1) q)
      with (supadataText w (calls tr + 1 + 2) q).
    replace (calls tr + 1 + 2)%nat with (calls tr + 3)%nat by lia.
    destruct (transcriptIoText w (calls tr + 2) q) as [t|].
    + cbn [fst snd]. split_all; [reflexivity | |].
      * now rewrite skipn_app_exact.
      * exists [transcriptIoRequest q]. split; [reflexivity | simpl; lia].
    + destruct (supadataText w (calls tr + 3) q) as [t|]; cbn [fst snd];
        (split_all; [reflexivity | now rewrite skipn_app_exact |]);
        exists [transcriptIoRequest q; supadataRequest q];
        (split; [reflexivity | simpl; lia]).
Qed.

Lemma current_resolver_extends_legacy_witness :
  result (extractTranscript shortApiWorld sampleUrl) []
  = result (VideoAnalyzerLegacy.extractTranscript (later 2 shortApiWorld) sampleUrl) [].
Proof.
  exact (proj1 (current_resolver_extends_legacy shortApiWorld sampleUrl sampleId []
                  ltac:(vm_compute; reflexivity) ltac:(vm_compute; reflexivity)
                  ltac:(vm_compute; reflexivity))).
Defined.

End LegacyResolverProperties.

Module SpacingFacts.
Import VideoAnalyzer Spacing ImageFacts ReplacementFacts.

Lemma match_here_plus_none f c s :
  f c = false -> match_here (RPlus (RClass f)) (c :: s) = None.
Proof.
  intros H. unfold match_here, RPlus. now rewrite rmatch_seq, rmatch_class_cons, H.
Qed.

Lemma match_here_plus_run f c run rest :
  f c = true -> forallb f run = true ->
  match rest with [] => True | d :: _ => f d = false end ->
  match_here (RPlus (RClass f)) (c :: run ++ rest)
  = Some {| matched := c :: run; group1 := None; remainder := rest |}.
Proof.
  intros Hc Hrun Hrest. unfold match_here, RPlus.
  rewrite rmatch_seq, rmatch_class_cons, Hc, rmatch_star.
  erewrite star_loop_class_run;
    [ | exact Hrun | apply Nat.le_refl | reflexivity | exact Hrest].
  do 2 f_equal.
  change (c :: run ++ rest) with ((c :: run) ++ rest).
  replace (length ((c :: run) ++ rest) - length rest)%nat with (length (c :: run))
    by (rewrite length_app; lia).
  apply firstn_app_exact.
Qed.

Lemma collapse_nil : collapse_spaces [] = [].
Proof. reflexivity. Qed.

Lemma collapse_other c s :
  is_space c = false -> collapse_spaces (c :: s) = c :: collapse_spaces s.
Proof.
  intros H. unfold collapse_spaces, replace_all. cbn [replace_go].
  now rewrite match_here_plus_none.
Qed.

Lemma collapse_run c run rest :
  is_space c = true -> forallb is_space run = true ->
  match rest with [] => True | d :: _ => is_space d = false end ->
  collapse_spaces (c :: run ++ rest) = 32%N :: collapse_spaces rest.
Proof.
  intros Hc Hrun Hrest. unfold collapse_spaces, replace_all at 1. cbn [replace_go].
  rewrite match_here_plus_run by assumption.
  cbn [matched length]. cbv iota beta.
  rewrite (replace_go_skip _ _ (length run) (run ++ rest)) by (rewrite length_app; lia).
  now rewrite skipn_app_exact.
Qed.

(** A text is a run of units satisfying [f] followed by a rest that does
    not begin with such a unit. *)
Lemma span f (s : jsstring) :
  exists run rest,
    s = run ++ rest /\ forallb f run = true /\
    match rest with [] => True | d :: _ => f d = false end.
Proof.
  induction s as [|c s (run & rest & -> & Hrun & Hrest)].
  - exists [], []. auto.
  - destruct (f c) eqn:Hc.
    + exists (c :: run), rest. simpl. rewrite Hc. auto.
    + exists [], (c :: run ++ rest). auto.
Qed.

Lemma ends_clean_tail c s : ends_clean (c :: s) -> ends_clean s.
Proof. intros H pre x ->. exact (H (c :: pre) x eq_refl). Qed.

Lemma ends_clean_suffix a b : ends_clean (a ++ b) -> ends_clean b.
Proof. intros H pre x ->. apply (H (a ++ pre) x). now rewrite app_assoc. Qed.

Lemma ends_clean_not_all_space c run :
  is_space c = true -> forallb is_space run = true -> ~ ends_clean (c :: run).
Proof.
  intros Hc Hrun H.
  destruct (exists_last (l := c :: run)) as (pre & x & E); [discriminate|].
  pose proof (H pre x E) as Hx.
  assert (Hall : forallb is_space (c :: run) = true) by (simpl; now rewrite Hc).
  rewrite E, forallb_app in Hall. apply andb_true_iff in Hall as [_ Hall].
  simpl in Hall. rewrite Hx in Hall. discriminate.
Qed.

Lemma collapse_spaced n :
  forall s, (length s <= n)%nat -> ends_clean s ->
            spaced (collapse_spaces s) = true /\
            starts_clean (collapse_spaces s) = starts_clean s.
Proof.
  induction n as [|n IH]; intros s Hn He.
  - destruct s; [|simpl in Hn; lia]. split; reflexivity.
  - destruct s as [|c s]; [split; reflexivity|].
    simpl in Hn. destruct (is_space c) eqn:Hc.
    + destruct (span is_space s) as (run & rest & -> & Hrun & Hrest).
      rewrite collapse_run by assumption.
      destruct rest as [|d rest].
      { exfalso. rewrite app_nil_r in He.
        exact (ends_clean_not_all_space c run Hc Hrun He). }
      assert (Hl : (length (d :: rest) <= n)%nat)
        by (rewrite length_app in Hn; lia).
      assert (He' : ends_clean (d :: rest))
        by (apply (ends_clean_suffix (c :: run)); exact He).
      destruct (IH (d :: rest) Hl He') as [Hs Hh].
      rewrite collapse_other in * by assumption.
      split.
      * rewrite <- Hs. cbn [spaced]. change (is_space 32) with true. cbv iota.
        rewrite Hrest. reflexivity.
      * cbn [starts_clean]. now rewrite Hc.
    + rewrite collapse_other by assumption.
      destruct (IH s ltac:(lia) (ends_clean_tail _ _ He)) as [Hs Hh].
      split.
      * cbn [spaced]. rewrite Hc. exact Hs.
      * reflexivity.
Qed.

Lemma drop_while_head f s c r : drop_while f s = c :: r -> f c = false.
Proof.
  induction s as [|x s IH]; simpl; [discriminate|].
  destruct (f x) eqn:Hx; [exact IH|]. now intros [= <- _].
Qed.

Lemma drop_while_snoc f s c :
  f c = false -> exists s', drop_while f (s ++ [c]) = s' ++ [c].
Proof.
  intros Hc. induction s as [|x s [s' IH]]; simpl.
  - rewrite Hc. now exists [].
  - destruct (f x); [eauto|]. now exists (x :: s).
Qed.

Lemma trim_ends_clean s : ends_clean (trim s).
Proof.
  intros pre c E. unfold trim in E.
  apply (f_equal (@rev N)) in E. rewrite rev_involutive, rev_app_distr in E.
  simpl in E. exact (drop_while_head _ _ _ _ E).
Qed.

Lemma trim_starts_clean s : starts_clean (trim s) = true.
Proof.
  unfold trim. destruct (drop_while is_space s) as [|c t] eqn:E; [reflexivity|].
  pose proof (drop_while_head _ _ _ _ E) as Hc.
  simpl rev. destruct (drop_while_snoc is_space (rev t) c Hc) as [s' ->].
  rewrite rev_app_distr. simpl. now rewrite Hc.
Qed.

Lemma spaced_last s c : spaced (s ++ [c]) = true -> is_space c = false.
Proof.
  induction s as [|x s IH]; simpl.
  - destruct (is_space c); [|reflexivity].
    rewrite andb_false_r. discriminate.
  - intros H. apply andb_true_iff in H as [_ H]. auto.
Qed.

Lemma drop_while_clean s : starts_clean s = true -> drop_while is_space s = s.
Proof.
  destruct s as [|c s]; [reflexivity|]. simpl.
  now destruct (is_space c).
Qed.

Lemma normalized_trim s : normalized s = true -> trim s = s.
Proof.
  unfold normalized. intros H. apply andb_true_iff in H as [Hh Hs].
  unfold trim. rewrite (drop_while_clean s Hh).
  rewrite drop_while_clean; [apply rev_involutive|].
  destruct (rev s) as [|c r] eqn:E; [reflexivity|].
  apply (f_equal (@rev N)) in E. rewrite rev_involutive in E. simpl in E.
  rewrite E in Hs. simpl. now rewrite (spaced_last _ _ Hs).
Qed.

Lemma spaced_units s c : spaced s = true -> In c s -> is_space c = true -> c = 32%N.
Proof.
  induction s as [|x s IH]; simpl; [tauto|].
  intros H [<-|Hin] Hc; apply andb_true_iff in H as [Hx H]; [|auto].
  rewrite Hc in Hx. apply andb_true_iff in Hx as [Hx _]. now apply N.eqb_eq in Hx.
Qed.

Lemma spaced_pairs s pre c d post :
  spaced s = true -> s = pre ++ c :: d :: post -> is_space c = true -> is_space d = false.
Proof.
  intros H ->. induction pre as [|x pre IH]; simpl in H.
  - intros Hc. rewrite Hc in H. apply andb_true_iff in H as [H _].
    apply andb_true_iff in H as [_ H]. now apply negb_true_iff in H.
  - apply andb_true_iff in H as [_ H]. auto.
Qed.

End SpacingFacts.

Module SpacingProperties.
Import VideoAnalyzer Spacing SpacingFacts.

(** X8: the spacing of a cleaned transcript is normalised.  The only
    whitespace that the cleaning of a library transcript leaves is the
    single space between two other characters: no tab, no line break, no
    two whitespaces in a row, none at either end; trimming it again
    changes nothing. *)
Theorem clean_transcript_spacing (raw : jsstring) :
  let cleaned := clean_transcript raw in
  normalized cleaned = true /\
  (forall c, In c cleaned -> is_space c = true -> c = 32%N) /\
  (forall pre c d post, cleaned = pre ++ c :: d :: post ->
                        is_space c = true -> is_space d = false) /\
  trim cleaned = cleaned.
Proof.
  cbv zeta. unfold clean_transcript.
  set (s := trim _).
  destruct (collapse_spaced (length s) s (Nat.le_refl _) (trim_ends_clean _))
    as [Hs Hh].
  assert (Hn : normalized (collapse_spaces s) = true).
  { unfold normalized. rewrite Hh, Hs. unfold s. now rewrite trim_starts_clean. }
  split_all.
  - exact Hn.
  - intros c. now apply spaced_units.
  - intros pre c d post E. exact (spaced_pairs _ pre c d post Hs E).
  - now apply normalized_trim.
Qed.

End SpacingProperties.

Module FenceFacts.
Import VideoAnalyzer Fences ImageFacts ReplacementFacts.

Lemma match_here_fence_none p s :
  starts_by N.eqb p s = false -> match_here (fence p) s = None.
Proof.
  intros H. unfold match_here, fence, RLit. now rewrite rmatch_seq, rmatch_RLitBy, H.
Qed.

Lemma match_here_fence_line p rest :
  match_here (fence p) (p ++ 10%N :: rest)
  = Some {| matched := p ++ [10%N]; group1 := None; remainder := rest |}.
Proof.
  unfold match_here, fence, RLit. rewrite rmatch_seq, rmatch_RLitBy.
  rewrite (starts_by_app N.eqb) by apply N.eqb_refl.
  rewrite skipn_app_exact. cbn [rmatch RChar N.eqb Pos.eqb].
  do 2 f_equal.
  replace (p ++ 10%N :: rest) with ((p ++ [10%N]) ++ rest)
    by (now rewrite <- app_assoc).
  replace (length ((p ++ [10%N]) ++ rest) - length rest)%nat with (length (p ++ [10%N]))
    by (rewrite (length_app (p ++ [10%N])); lia).
  apply firstn_app_exact.
Qed.

Lemma replace_fence_skip p rep c s :
  starts_by N.eqb p (c :: s) = false ->
  replace_all (fence p) rep (c :: s) = c :: replace_all (fence p) rep s.
Proof.
  intros H. unfold replace_all. cbn [replace_go].
  now rewrite match_here_fence_none.
Qed.

Lemma replace_fence_nil p rep : p <> [] -> replace_all (fence p) rep [] = [].
Proof.
  intros Hp. unfold replace_all. cbn [replace_go].
  rewrite match_here_fence_none; [reflexivity|]. destruct p; [congruence | reflexivity].
Qed.

(** A text without backtick is copied. *)
Lemma replace_fence_plain p rep s t :
  ~ In 96%N s ->
  replace_all (fence (96%N :: p)) rep (s ++ t) = s ++ replace_all (fence (96%N :: p)) rep t.
Proof.
  induction s as [|c s IH]; intros Hs; [reflexivity|].
  cbn [app]. rewrite replace_fence_skip.
  - rewrite IH; [reflexivity|]. intros H. apply Hs. now right.
  - cbn [starts_by]. destruct (N.eqb_spec 96 c) as [<-|]; [|reflexivity].
    exfalso. apply Hs. now left.
Qed.

(** A fence followed by a line break is removed with the line break. *)
Lemma replace_fence_line p rest :
  p <> [] ->
  replace_all (fence p) [] (p ++ 10%N :: rest) = replace_all (fence p) [] rest.
Proof.
  intros Hp. unfold replace_all at 1.
  destruct p as [|x p]; [congruence|].
  cbn [app replace_go].
  change (x :: p ++ 10%N :: rest) with ((x :: p) ++ 10%N :: rest).
  rewrite match_here_fence_line. cbn [matched app length]. cbv iota beta.
  rewrite (replace_go_skip _ _ (length (p ++ [10%N])) (p ++ 10%N :: rest)).
  - replace (p ++ 10%N :: rest) with ((p ++ [10%N]) ++ rest) by (now rewrite <- app_assoc).
    now rewrite skipn_app_exact.
  - rewrite !length_app. simpl. lia.
Qed.

Lemma drop_while_app f (s t : jsstring) :
  drop_while f (s ++ t)
  = if forallb f s then drop_while f t else drop_while f s ++ t.
Proof.
  induction s as [|c s IH]; [reflexivity|]. simpl.
  destruct (f c); [exact IH | reflexivity].
Qed.

Lemma drop_while_all f (s : jsstring) : forallb f s = true -> drop_while f s = [].
Proof.
  induction s as [|c s IH]; [reflexivity|]. simpl.
  destruct (f c); [exact IH | discriminate].
Qed.

(** Whitespace at the end does not survive trimming. *)
Lemma trim_snoc_space s c : is_space c = true -> trim (s ++ [c]) = trim s.
Proof.
  intros Hc. unfold trim. rewrite drop_while_app.
  destruct (forallb is_space s) eqn:Hs.
  - rewrite (drop_while_all _ s Hs). simpl. now rewrite Hc.
  - rewrite rev_app_distr. simpl. now rewrite Hc.
Qed.

End FenceFacts.

Module FenceProperties.
Import VideoAnalyzer Fences FenceFacts.

(** X9: the analyzers tolerate markdown fences around the provider's
    JSON.  For a body without backtick, wrapped in a [```json] fence or
    in a plain fence, each on its own line, or not wrapped at all, the
    text handed to the JSON parser is the trimmed body. *)
Theorem strip_fences_unwraps (body : jsstring) :
  ~ In 96%N body ->
  strip_fences (js "```json" ++ [10%N] ++ body ++ [10%N] ++ js "```") = trim body /\
  strip_fences (js "```" ++ [10%N] ++ body ++ [10%N] ++ js "```") = trim body /\
  strip_fences body = trim body.
Proof.
  intros Hb. unfold strip_fences.
  change (RSeq (RLit (js "```json")) (ROpt (RChar 10))) with (fence (js "```json")).
  change (RSeq (RLit (js "```")) (ROpt (RChar 10))) with (fence (js "```")).
  assert (T1 : replace_all (fence (js "```json")) [] ([10%N] ++ js "```")
               = [10%N] ++ js "```") by (vm_compute; reflexivity).
  assert (T2 : replace_all (fence (js "```")) [] ([10%N] ++ js "```") = [10%N])
    by (vm_compute; reflexivity).
  assert (B1 : replace_all (fence (js "```json")) [] (body ++ [10%N] ++ js "```")
               = body ++ [10%N] ++ js "```").
  { change (js "```json") with (96%N :: js "``json").
    rewrite replace_fence_plain by exact Hb. apply (f_equal (app body)). exact T1. }
  assert (B2 : replace_all (fence (js "```")) [] (body ++ [10%N] ++ js "```")
               = body ++ [10%N]).
  { change (js "```") with (96%N :: js "``") at 1.
    rewrite replace_fence_plain by exact Hb. apply (f_equal (app body)). exact T2. }
  assert (Hj : js "```json" <> []) by (vm_compute; discriminate).
  assert (Ht : js "```" <> []) by (vm_compute; discriminate).
  pose proof (trim_snoc_space body 10%N eq_refl) as Htrim.
  split_all.
  - rewrite <- Htrim. apply (f_equal trim).
    etransitivity; [|exact B2]. apply (f_equal (replace_all _ _)).
    etransitivity; [|exact B1].
    exact (replace_fence_line (js "```json") (body ++ [10%N] ++ js "```") Hj).
  - rewrite <- Htrim. apply (f_equal trim).
    etransitivity; [|exact B2].
    etransitivity;
      [|exact (replace_fence_line (js "```") (body ++ [10%N] ++ js "```") Ht)].
    apply (f_equal (replace_all _ _)).
    change (js "```" ++ [10%N] ++ body ++ [10%N] ++ js "```")
      with (96%N :: 96%N :: 96%N :: 10%N :: body ++ [10%N] ++ js "```").
    change (fence (js "```json")) with (fence (96%N :: js "``json")).
    rewrite !replace_fence_skip by reflexivity.
    exact (f_equal (fun x => 96%N :: 96%N :: 96%N :: 10%N :: x) B1).
  - rewrite <- (app_nil_r body) at 1.
    change (js "```json") with (96%N :: js "``json").
    change (js "```") with (96%N :: js "``").
    rewrite (replace_fence_plain _ _ body []) by exact Hb.
    rewrite replace_fence_nil by discriminate. rewrite app_nil_r.
    rewrite <- (app_nil_r body) at 1.
    rewrite (replace_fence_plain _ _ body []) by exact Hb.
    rewrite replace_fence_nil by discriminate. now rewrite app_nil_r.
Qed.

Lemma strip_fences_unwraps_witness :
  strip_fences (tpl "```json
{^title^: ^Foxes^}
```") = tpl "{^title^: ^Foxes^}".
Proof.
  refine (proj1 (strip_fences_unwraps (tpl "{^title^: ^Foxes^}") _)).
  vm_compute. intuition discriminate.
Defined.

End FenceProperties.

Module AnalyzerFacts.
Import OpenRouter VideoAnalyzer DescriptionAnalyzer Generation Completion ProviderFacts.
Import Sources MoreSources TranscriptFacts.

(** The shapes of the errors of a completion. *)
Lemma completion_error w n messages options e :
  completion w n messages options = inl e ->
  e = ConfigurationError \/ is_runtime_error e = true \/
  is_http_error (js "OpenRouter API error (") e.
Proof.
  unfold completion.
  destruct (OPENROUTER_API_KEY w) as [k|]; [|intros [= <-]; now left].
  destruct (truthy k); [|intros [= <-]; now left].
  destruct (fetch w n _) as [f|response]; cbn [raising];
    [intros [= <-]; right; now left|].
  unfold completionOfResponse.
  destruct (ok response); cbn [negb].
  - destruct (json response) as [f|data]; cbn [raising];
      [intros [= <-]; right; now left|].
    unfold completionText, first_message.
    destruct (data_choices data) as [[|c cs]|];
      [discriminate | | intros [= <-]; right; now left].
    destruct (message c) as [m|]; [|discriminate].
    destruct (content m); discriminate.
  - destruct (text response) as [f|body]; cbn [raising];
      [intros [= <-]; right; now left|].
    intros [= <-]. right. right. exists (status response), body. reflexivity.
Qed.

Lemma http_error_distinct e m :
  is_http_error (js "OpenRouter API error (") e ->
  (forall rest, m <> 79%N :: rest) -> e <> Err m.
Proof.
  intros (code & body & ->) Hm H. injection H as H.
  apply (Hm (js "penRouter API error (" ++ of_N code ++ js "): " ++ body)).
  rewrite <- H. reflexivity.
Qed.

Lemma runtime_error_distinct e m : is_runtime_error e = true -> e <> Err m.
Proof. destruct e; [discriminate|]. intros _. discriminate. Qed.

Lemma extractTranscript_trace w u tr :
  exists added,
    trace_after (extractTranscript w u) tr = tr ++ added /\
    (calls (tr ++ added) <= calls tr + 4)%nat.
Proof.
  unfold trace_after.
  destruct (extractVideoId u) as [videoId|] eqn:Hv.
  - rewrite (extractTranscript_chain w u videoId tr Hv). cbn [snd].
    exists (snd (chain w (calls tr) u videoId)). split; [reflexivity|].
    destruct (ResolverProperties.chain_cases w (calls tr) u videoId) as (_ & Hl & _).
    rewrite ResolverProperties.calls_app.
    pose proof (ResolverProperties.calls_le (snd (chain w (calls tr) u videoId))). lia.
  - rewrite (UrlShapesFacts.extractTranscript_invalid w u tr Hv). cbn [snd].
    exists []. rewrite app_nil_r. split; [reflexivity | lia].
Qed.

Lemma resolvedTranscript_run w u tr :
  exists transcript,
    resolvedTranscript w u tr
    = (inr transcript, trace_after (extractTranscript w u) tr).
Proof.
  unfold resolvedTranscript, try_catch, trace_after.
  destruct (extractTranscript w u tr) as [[e|t] tr1]; eexists; reflexivity.
Qed.

Lemma parse_run w failed text tr :
  try_catch (builtin (JSON_parse w (strip_fences text))) (fun _ => throw failed) tr
  = (parsed w failed text, tr).
Proof.
  unfold try_catch, builtin, lift, raising, throw, parsed.
  destruct (JSON_parse w (strip_fences text)); reflexivity.
Qed.

Lemma analyzeDescription_run w d tr :
  analyzeDescription w d tr =
  (match completion w (calls tr) (descriptionMessages d) descriptionOptions with
   | inl e => inl e
   | inr text => parsed w DescriptionParseError text
   end,
   afterRequest w tr (fun k => completionRequest k (descriptionMessages d) descriptionOptions)).
Proof.
  unfold analyzeDescription. rewrite bind_run, textCompletion_outcome.
  destruct (completion w (calls tr) _ _) as [e|text]; [reflexivity|].
  apply parse_run.
Qed.

Lemma analyzeVideo_run w u tr :
  exists transcript metadata tr2,
    (calls tr2 <= calls tr + 5)%nat /\
    analyzeVideo w u tr =
    if negb (truthy transcript) && negb (truthy (title metadata))
    then (inl NoContentAvailable, tr2)
    else
      (match completion w (calls tr2) (analysisMessages metadata transcript)
                        analysisOptions with
       | inl e => inl e
       | inr text => parsed w AnalysisParseError text
       end,
       afterRequest w tr2
         (fun k => completionRequest k (analysisMessages metadata transcript)
                                       analysisOptions)).
Proof.
  destruct (resolvedTranscript_run w u tr) as [transcript Ht].
  destruct (extractTranscript_trace w u tr) as (added & Ha & Hc).
  rewrite Ha in Ht.
  pose proof (MetadataProperties.getVideoMetadata_run w u (tr ++ added)) as Hm.
  set (tr2 := snd (getVideoMetadata w u (tr ++ added))).
  assert (Hm' : exists metadata, getVideoMetadata w u (tr ++ added) = (inr metadata, tr2)
                                 /\ (calls tr2 <= calls (tr ++ added) + 1)%nat).
  { unfold tr2. rewrite Hm.
    destruct (encodeURIComponent w u); cbn [snd]; eexists; (split; [reflexivity|]);
      [lia | rewrite calls_snoc; cbn [is_external]; lia]. }
  destruct Hm' as (metadata & Hmd & Hc2).
  exists transcript, metadata, tr2. split; [lia|].
  unfold analyzeVideo. rewrite bind_run, Ht, bind_run, Hmd.
  destruct (negb (truthy transcript) && negb (truthy (title metadata)));
    [reflexivity|].
  rewrite bind_run, textCompletion_outcome.
  destruct (completion w (calls tr2) _ _) as [e|text]; [reflexivity|].
  apply parse_run.
Qed.

End AnalyzerFacts.

Module AnalyzerProperties.
Import OpenRouter VideoAnalyzer DescriptionAnalyzer Generation Completion ProviderFacts.
Import AnalyzerFacts.

(** X10: the failures of [analyzeVideo].  It fails with the no-content
    error, with the parse error or with the error of its one completion
    (missing key, runtime failure, HTTP error); the errors of the
    transcript resolver never come out of it, an invalid URL included.
    A run makes at most six external calls, and without an API key it
    always fails. *)
Theorem analyzeVideo_failures (w : World) (u : jsstring) (tr : list Event) :
  (forall e, result (analyzeVideo w u) tr = inl e ->
     (e = NoContentAvailable \/ e = AnalysisParseError \/ e = ConfigurationError \/
      is_runtime_error e = true \/ is_http_error (js "OpenRouter API error (") e) /\
     e <> InvalidYouTubeUrl /\ e <> NoTranscriptAvailable) /\
  (calls (trace_after (analyzeVideo w u) tr) <= calls tr + 6)%nat /\
  (has_key w = false ->
   result (analyzeVideo w u) tr = inl NoContentAvailable \/
   result (analyzeVideo w u) tr = inl ConfigurationError).
Proof.
  destruct (analyzeVideo_run w u tr) as (transcript & metadata & tr2 & Hc & Hrun).
  unfold result, trace_after. rewrite Hrun. clear Hrun.
  assert (Hshape : forall e,
             e = NoContentAvailable \/ e = AnalysisParseError \/ e = ConfigurationError \/
             is_runtime_error e = true \/ is_http_error (js "OpenRouter API error (") e ->
             e <> InvalidYouTubeUrl /\ e <> NoTranscriptAvailable).
  { intros e [->|[->|[->|[H|H]]]];
      try (split; vm_compute; discriminate).
    - split; now apply runtime_error_distinct.
    - split; (apply http_error_distinct; [exact H|]); intros rest; vm_compute; discriminate. }
  destruct (negb (truthy transcript) && negb (truthy (title metadata))); cbn [fst snd].
  - split_all.
    + intros e [= <-]. split; [now left | apply Hshape; now left].
    + lia.
    + intros _. now left.
  - split_all.
    + intros e He.
      assert (Hs : e = NoContentAvailable \/ e = AnalysisParseError \/
                   e = ConfigurationError \/ is_runtime_error e = true \/
                   is_http_error (js "OpenRouter API error (") e).
      { destruct (completion w (calls tr2) _ _) as [e'|text] eqn:Ec.
        - injection He as <-. right. right. exact (completion_error _ _ _ _ _ Ec).
        - unfold parsed in He.
          destruct (JSON_parse w (strip_fences text)); [|discriminate].
          injection He as <-. right. now left. }
      split; [exact Hs | exact (Hshape e Hs)].
    + rewrite afterRequest_calls. destruct (has_key w); lia.
    + intros Hk. right. now rewrite completion_no_key.
Qed.

(** X11: [analyzeDescription] contacts the provider once and nothing
    else, whatever the description, the empty one included.  Without an
    API key it fails with the configuration error before any call; its
    other failures are those of the completion and its own parse error;
    it succeeds exactly when the completion succeeds and its text, fences
    removed, is accepted by the JSON parser. *)
Theorem analyzeDescription_outcomes (w : World) (d : jsstring) (tr : list Event) :
  let messages := descriptionMessages d in
  trace_after (analyzeDescription w d) tr
  = afterRequest w tr (fun k => completionRequest k messages descriptionOptions) /\
  (calls (trace_after (analyzeDescription w d) tr) <= calls tr + 1)%nat /\
  (has_key w = false -> analyzeDescription w d tr = (inl ConfigurationError, tr)) /\
  (forall e, result (analyzeDescription w d) tr = inl e ->
     e = DescriptionParseError \/ e = ConfigurationError \/
     is_runtime_error e = true \/ is_http_error (js "OpenRouter API error (") e) /\
  (forall v, result (analyzeDescription w d) tr = inr v <->
     exists text, completion w (calls tr) messages descriptionOptions = inr text /\
                  JSON_parse w (strip_fences text) = inr v).
Proof.
  cbv zeta. unfold result, trace_after. rewrite analyzeDescription_run. cbn [fst snd].
  split_all.
  - reflexivity.
  - rewrite afterRequest_calls. destruct (has_key w); lia.
  - intros Hk. rewrite completion_no_key by exact Hk.
    unfold afterRequest. now rewrite Hk.
  - intros e He.
    destruct (completion w (calls tr) _ _) as [e'|text] eqn:Ec.
    + injection He as <-. right. exact (completion_error _ _ _ _ _ Ec).
    + unfold parsed in He.
      destruct (JSON_parse w (strip_fences text)); [|discriminate].
      injection He as <-. now left.
  - intros v. destruct (completion w (calls tr) _ _) as [e'|text] eqn:Ec.
    + split; [discriminate | intros (text & [=] & _)].
    + unfold parsed. split.
      * intros H. exists text. split; [reflexivity|].
        destruct (JSON_parse w (strip_fences text)); [discriminate | now injection H as ->].
      * intros (text' & [= <-] & ->). reflexivity.
Qed.

End AnalyzerProperties.

Module FaceFacts.
Import OpenRouter FaceAnalyzer Generation Completion ProviderFacts AnalyzerWorlds.

(** What the analyzer builds from a completion, whatever it holds. *)
Lemma face_build_total w text n tr :
  exists fa tr',
    try_catch
      (parsed <- builtin (JSON_parse w (strip_fences text)) ;;
       d <- lift (get_prop parsed (js "description")) ;;
       k <- lift (get_prop parsed (js "keyFeatures")) ;;
       a <- lift (get_prop parsed (js "ageRange")) ;;
       g <- lift (get_prop parsed (js "genderPresentation")) ;;
       ret {| description := d;
              keyFeatures := value_or k (VArray []);
              ageRange := value_or a (VString (js "unknown"));
              genderPresentation := value_or g (VString (js "unknown"));
              photoCount := n |})
      (fun _ =>
         emit (EvConsoleError (js "Failed to parse face analysis JSON, using raw response") None) ;;;
         ret (rawFallback text n)) tr
    = (inr fa, tr') /\
    calls tr' = calls tr /\
    photoCount fa = n /\
    value_truthy (keyFeatures fa) = true /\
    value_truthy (ageRange fa) = true /\
    value_truthy (genderPresentation fa) = true.
Proof.
  assert (Hor : forall v d, value_truthy d = true -> value_truthy (value_or v d) = true).
  { intros v d Hd. unfold value_or. now destruct (value_truthy v) eqn:E. }
  assert (Hfallback :
            exists fa tr',
              (emit (EvConsoleError (js "Failed to parse face analysis JSON, using raw response") None) ;;;
               ret (rawFallback text n)) tr = (inr fa, tr') /\
              calls tr' = calls tr /\ photoCount fa = n /\
              value_truthy (keyFeatures fa) = true /\
              value_truthy (ageRange fa) = true /\
              value_truthy (genderPresentation fa) = true).
  { eexists. eexists. split; [reflexivity|].
    split_all; try reflexivity.
    rewrite calls_snoc. cbn [is_external]. lia. }
  unfold try_catch. rewrite bind_run. unfold builtin, lift.
  destruct (JSON_parse w (strip_fences text)) as [f|v]; cbn [raising];
    [exact Hfallback|].
  destruct v as [| |b|z|s|items|fields];
    try exact Hfallback;
    (eexists; eexists; split; [reflexivity|];
     split_all; try reflexivity; apply Hor; reflexivity).
Qed.

Lemma analyzeFace_run w imgs tr :
  imgs <> [] ->
  match completion w (calls tr) (faceMessages imgs) faceOptions with
  | inl e =>
      analyzeFace w imgs tr
      = (inl e, afterRequest w (tr ++ [invoked])
                  (fun k => completionRequest k (faceMessages imgs) faceOptions))
  | inr text =>
      exists fa tr',
        analyzeFace w imgs tr = (inr fa, tr') /\
        calls tr' = (calls tr + 1)%nat /\
        photoCount fa = length imgs /\
        value_truthy (keyFeatures fa) = true /\
        value_truthy (ageRange fa) = true /\
        value_truthy (genderPresentation fa) = true
  end.
Proof.
  intros Hne.
  destruct imgs as [|img imgs]; [congruence|].
  assert (Hc : calls (tr ++ [EvInvoke (js "analyzeFace")]) = calls tr)
    by (rewrite calls_snoc; cbn [is_external]; lia).
  assert (Hrun : analyzeFace w (img :: imgs) tr
                 = (response <- textCompletion w (faceMessages (img :: imgs)) faceOptions ;;
                    try_catch
                      (parsed <- builtin (JSON_parse w (strip_fences response)) ;;
                       d <- lift (get_prop parsed (js "description")) ;;
                       k <- lift (get_prop parsed (js "keyFeatures")) ;;
                       a <- lift (get_prop parsed (js "ageRange")) ;;
                       g <- lift (get_prop parsed (js "genderPresentation")) ;;
                       ret {| description := d;
                              keyFeatures := value_or k (VArray []);
                              ageRange := value_or a (VString (js "unknown"));
                              genderPresentation := value_or g (VString (js "unknown"));
                              photoCount := length (img :: imgs) |})
                      (fun _ =>
                         emit (EvConsoleError (js "Failed to parse face analysis JSON, using raw response") None) ;;;
                         ret (rawFallback response (length (img :: imgs)))))
                     (tr ++ [EvInvoke (js "analyzeFace")])) by reflexivity.
  rewrite Hrun. clear Hrun.
  rewrite bind_run, textCompletion_outcome, Hc.
  destruct (completion w (calls tr) _ _) as [e|text] eqn:Ec; [reflexivity|].
  match goal with
  | |- context [try_catch _ _ ?t] =>
      destruct (face_build_total w text (length (img :: imgs)) t)
        as (fa & tr' & Hrun & Hcalls & Hrest)
  end.
  exists fa, tr'. split; [exact Hrun|]. split; [|exact Hrest].
  rewrite Hcalls, afterRequest_calls, Hc.
  assert (Hk : has_key w = true).
  { destruct (has_key w) eqn:E; [reflexivity|].
    rewrite completion_no_key in Ec by exact E. discriminate. }
  now rewrite Hk.
Qed.

End FaceFacts.

Module FaceAnalyzerProperties.
Import OpenRouter FaceAnalyzer Generation Completion ProviderFacts AnalyzerWorlds FaceFacts.

(** X12: once the completion has answered, the face analyzer cannot fail.
    For at least one photo, it fails exactly with the error of its
    completion; for any completion text, valid JSON or not, an object or
    not, it returns a result whose photo count is the number of photos
    and whose key features, age range and gender presentation are
    set. *)
Theorem analyzeFace_outcomes (w : World) (imgs : list jsstring) (tr : list Event) :
  imgs <> [] ->
  (forall e, completion w (calls tr) (faceMessages imgs) faceOptions = inl e ->
             result (analyzeFace w imgs) tr = inl e) /\
  (forall text, completion w (calls tr) (faceMessages imgs) faceOptions = inr text ->
     exists fa,
       result (analyzeFace w imgs) tr = inr fa /\
       photoCount fa = length imgs /\
       value_truthy (keyFeatures fa) = true /\
       value_truthy (ageRange fa) = true /\
       value_truthy (genderPresentation fa) = true) /\
  (calls (trace_after (analyzeFace w imgs) tr) <= calls tr + 1)%nat.
Proof.
  intros Hne. pose proof (analyzeFace_run w imgs tr Hne) as H.
  unfold result, trace_after.
  destruct (completion w (calls tr) _ _) as [e|text].
  - rewrite H. cbn [fst snd]. split_all.
    + now intros e' [= <-].
    + discriminate.
    + rewrite afterRequest_calls, calls_snoc. unfold invoked. cbn [is_external].
      destruct (has_key w); lia.
  - destruct H as (fa & tr' & -> & Hc & Hrest). cbn [fst snd]. split_all.
    + discriminate.
    + intros text' _. exists fa. split; [reflexivity | exact Hrest].
    + lia.
Qed.

Lemma analyzeFace_outcomes_witness :
  exists fa,
    result (analyzeFace (proseWorld (js "null")) [js "AAAA"; js "BBBB"]) [] = inr fa /\
    photoCount fa = 2%nat /\
    value_truthy (keyFeatures fa) = true /\
    value_truthy (ageRange fa) = true /\
    value_truthy (genderPresentation fa) = true.
Proof.
  refine (proj1 (proj2 (analyzeFace_outcomes (proseWorld (js "null"))
                          [js "AAAA"; js "BBBB"] [] _)) (js "null") _).
  - discriminate.
  - vm_compute. reflexivity.
Defined.

End FaceAnalyzerProperties.

Module FaceRouteProperties.
Import FaceAnalyzer FaceAnalyzeRoute AnalyzerWorlds.


End FaceRouteProperties.

Module IdFacts.
Import Generated.

Lemma js_digits d : js (NilEmpty.string_of_uint d) = digits d.
Proof.
  unfold js. induction d; simpl; try reflexivity; now rewrite IHd.
Qed.

Lemma digits_inj d d' : digits d = digits d' -> d = d'.
Proof.
  revert d'. induction d; intros d'; destruct d'; simpl; intros H;
    try discriminate; try reflexivity;
    injection H as H; f_equal; auto.
Qed.

Lemma digits_no_dash d : ~ In 45%N (digits d).
Proof.
  induction d; simpl; intros H; try tauto;
    destruct H as [H|H]; try discriminate; auto.
Qed.

Lemma of_N_digits n : of_N n = digits (N.to_uint n).
Proof.
  unfold of_N. rewrite <- js_digits. f_equal.
  destruct n as [|p]; [reflexivity|]. simpl.
  pose proof (DecimalPos.Unsigned.to_uint_nonnil p) as H.
  unfold NilZero.string_of_uint. destruct (Pos.to_uint p); [congruence | reflexivity ..].
Qed.

Lemma of_N_inj n n' : of_N n = of_N n' -> n = n'.
Proof.
  rewrite !of_N_digits. intros H.
  apply DecimalN.Unsigned.to_uint_inj. now apply digits_inj.
Qed.

Lemma of_N_no_dash n : ~ In 45%N (of_N n).
Proof. rewrite of_N_digits. apply digits_no_dash. Qed.

(** Two texts cut at their first dash agree part by part. *)
Lemma split_at_dash (a a' b b' : jsstring) :
  ~ In 45%N a -> ~ In 45%N a' ->
  a ++ 45%N :: b = a' ++ 45%N :: b' -> a = a' /\ b = b'.
Proof.
  revert a'. induction a as [|x a IH]; intros [|x' a'] Ha Ha'; simpl; intros H.
  - injection H as <-. auto.
  - injection H as <- _. exfalso. apply Ha'. now left.
  - injection H as -> _. exfalso. apply Ha. now left.
  - injection H as <- H.
    destruct (IH a') as [<- <-]; auto.
    + intros Hin. apply Ha. now right.
    + intros Hin. apply Ha'. now right.
Qed.

End IdFacts.

Module GeneratorFacts.
Import OpenRouter ThumbnailGenerator Generation Completion Generated IdFacts GenerationFacts.

Lemma thumbnail_id_index s i c r s' i' c' r' :
  id (thumbnail s i c r) = id (thumbnail s' i' c' r') -> i = i'.
Proof.
  unfold thumbnail. cbn [id]. intros H.
  apply app_inv_head in H.
  change (js "-" ++ of_N (N.of_nat i)) with (45%N :: of_N (N.of_nat i)) in H.
  change (js "-" ++ of_N (N.of_nat i')) with (45%N :: of_N (N.of_nat i')) in H.
  apply split_at_dash in H; try apply of_N_no_dash.
  destruct H as [_ H]. apply of_N_inj in H. now apply Nat2N.inj.
Qed.

Lemma item_cases w analysis options n0 ic t :
  In t (item w analysis options n0 ic) ->
  exists s r, t = thumbnail s (fst ic) (snd ic) r.
Proof.
  unfold item. destruct (outcome w analysis options n0 (fst ic) (snd ic)) as [e|r].
  - intros [].
  - intros [<-|[]]. eauto.
Qed.

Lemma successes_ids w analysis options n0 cs :
  forall j, NoDup (map id (flat_map (item w analysis options n0) (indexed_from j cs))).
Proof.
  induction cs as [|c cs IH]; intros j; [constructor|].
  rewrite indexed_from_cons. cbn [flat_map]. rewrite map_app.
  apply NoDup_app.
  - unfold item. cbn [fst snd].
    destruct (outcome w analysis options n0 j c); repeat constructor. intros [].
  - apply IH.
  - intros x Hx Hx'.
    apply in_map_iff in Hx as (t & <- & Ht).
    apply in_map_iff in Hx' as (t' & E & Ht').
    apply in_flat_map in Ht' as ([i' c'] & Hic & Ht').
    apply item_cases in Ht as (s & r & ->).
    apply item_cases in Ht' as (s' & r' & ->).
    cbn [fst snd] in E. apply thumbnail_id_index in E. subst i'.
    apply indexed_from_In in Hic. lia.
Qed.

Lemma successes_render w analysis options n0 cs t :
  In t (successes w analysis options n0 cs) ->
  exists i c, nth_error cs i = Some c /\ renders c t /\
              succeeded (outcome w analysis options n0 i c) = true.
Proof.
  unfold successes. intros H.
  apply in_flat_map in H as ([i c] & Hic & Ht).
  apply indexed_from_In in Hic as [_ Hic]. rewrite Nat.sub_0_r in Hic.
  exists i, c. split; [exact Hic|].
  unfold item in Ht. cbn [fst snd] in Ht.
  destruct (outcome w analysis options n0 i c) as [e|r]; [destruct Ht|].
  destruct Ht as [<-|[]]. split; [|reflexivity].
  unfold renders, thumbnail. cbn. repeat split.
Qed.

Lemma calls_logs tr (log : nat -> Event) l :
  (forall i, is_external (log i) = false) -> calls (tr ++ map log l) = calls tr.
Proof.
  intros H. unfold calls. rewrite filter_app, length_app.
  assert (E : filter is_external (map log l) = []).
  { induction l as [|i l IH]; [reflexivity|]. simpl. now rewrite H. }
  rewrite E. simpl. lia.
Qed.

Lemma generateLoop_no_key w analysis options cs :
  has_key w = false ->
  forall j results tr,
    generateLoop w analysis options j cs results tr
    = (inr results, tr ++ map (failureLog ConfigurationError) (seq j (length cs))).
Proof.
  intros Hk. induction cs as [|c cs IH]; intros j results tr.
  - simpl. unfold ret. now rewrite app_nil_r.
  - cbn [generateLoop length seq map]. rewrite bind_run. unfold try_catch.
    rewrite bind_run, ImageFacts.generateImage_no_key by exact Hk.
    rewrite bind_run. unfold emit, ret. rewrite IH.
    rewrite <- app_assoc. reflexivity.
Qed.

Lemma generateThumbnails_no_key w analysis options tr :
  has_key w = false ->
  generateThumbnails w analysis options tr
  = (inl NoThumbnailsGenerated,
     tr ++ map (failureLog ConfigurationError)
               (seq 0 (length (attempted analysis options)))).
Proof.
  intros Hk. unfold generateThumbnails.
  rewrite bind_run, generateLoop_no_key by exact Hk. reflexivity.
Qed.

Lemma slice0_prefix {T} (l : list T) (e : Z) : exists rest, l = slice0 l e ++ rest.
Proof.
  unfold slice0. eexists. symmetry. apply firstn_skipn.
Qed.

End GeneratorFacts.

Module GeneratorProperties.
Import OpenRouter ThumbnailGenerator Generation Completion Generated IdFacts GenerationFacts.
Import GeneratorFacts ImageShapes.

(** X14: without an API key the generator hides the cause.  Every
    attempted generation fails with the configuration error, which is
    logged once per concept and swallowed; the caller only sees the
    no-thumbnails error, and nothing is sent. *)
Theorem generateThumbnails_without_key
        (w : World) (analysis : VideoAnalysis) (options : GenerateOptions)
        (tr : list Event) :
  has_key w = false ->
  generateThumbnails w analysis options tr
  = (inl NoThumbnailsGenerated,
     tr ++ map (failureLog ConfigurationError)
               (seq 0 (length (attempted analysis options)))) /\
  calls (trace_after (generateThumbnails w analysis options) tr) = calls tr /\
  NoThumbnailsGenerated <> ConfigurationError.
Proof.
  intros Hk.
  pose proof (generateThumbnails_no_key w analysis options tr Hk) as E.
  split_all.
  - exact E.
  - unfold trace_after. rewrite E. cbn [snd]. now apply calls_logs.
  - vm_compute. discriminate.
Qed.

Lemma generateThumbnails_without_key_witness :
  result (generateThumbnails Sources.deadWorld sampleAnalysis (optionsWithCount None)) []
  = inl NoThumbnailsGenerated /\
  length (trace_after (generateThumbnails Sources.deadWorld sampleAnalysis
                                          (optionsWithCount None)) []) = 4%nat.
Proof.
  pose proof (proj1 (generateThumbnails_without_key Sources.deadWorld sampleAnalysis
                       (optionsWithCount None) [] eq_refl)) as H.
  unfold result, trace_after. rewrite H. split; reflexivity.
Defined.

(** X15: the thumbnails of a successful run are well formed.  Their
    identifiers are pairwise distinct; each of them renders one of the
    attempted concepts, whose generation succeeded, at 1280x720 with the
    overlay, mood, style and expression of that concept; there is at
    least one of them and no more than the attempted concepts. *)
Theorem generated_thumbnails_wellformed
        (w : World) (analysis : VideoAnalysis) (options : GenerateOptions)
        (tr : list Event) (thumbs : list GeneratedThumbnail) :
  result (generateThumbnails w analysis options) tr = inr thumbs ->
  NoDup (map id thumbs) /\
  (forall t, In t thumbs ->
     exists i c,
       nth_error (attempted analysis options) i = Some c /\ renders c t /\
       succeeded (outcome w analysis options (calls tr) i c) = true) /\
  (1 <= length thumbs <= length (attempted analysis options))%nat.
Proof.
  rewrite generateThumbnails_result.
  destruct (successes w analysis options (calls tr) (attempted analysis options))
    as [|t0 good] eqn:E; [discriminate|].
  intros [= <-]. rewrite <- E. split_all.
  - apply successes_ids.
  - intros t. apply successes_render.
  - rewrite E. simpl. lia.
  - rewrite successes_length.
    etransitivity; [apply filter_length_le|]. now rewrite indexed_from_length.
Qed.

Lemma generated_thumbnails_wellformed_witness :
  exists thumbs,
    result (generateThumbnails secondFailsWorld sampleAnalysis (optionsWithCount None)) []
    = inr thumbs /\
    NoDup (map id thumbs) /\ length thumbs = 3%nat.
Proof.
  assert (H : exists thumbs,
             result (generateThumbnails secondFailsWorld sampleAnalysis
                                        (optionsWithCount None)) [] = inr thumbs
             /\ length thumbs = 3%nat).
  { eexists. split; vm_compute; reflexivity. }
  destruct H as (thumbs & H & Hl).
  exists thumbs. split; [exact H|]. split; [|exact Hl].
  exact (proj1 (generated_thumbnails_wellformed _ _ _ _ _ H)).
Defined.

(** X16: whatever the count, the concepts attempted are a prefix of the
    concepts of the analysis, taken in their order.  A negative count
    -k is not rejected: it drops the last k concepts, so that nothing is
    attempted when the analysis has no more than k of them. *)
Theorem attempted_is_prefix (analysis : VideoAnalysis) (options : GenerateOptions) :
  (exists rest, thumbnailConcepts analysis = attempted analysis options ++ rest) /\
  (forall c, count options = Some c -> (c < 0)%Z ->
     attempted analysis options
     = firstn (length (thumbnailConcepts analysis) - Z.to_nat (- c))
              (thumbnailConcepts analysis)) /\
  (forall c w tr, count options = Some c -> (c < 0)%Z ->
     (Z.of_nat (length (thumbnailConcepts analysis)) <= - c)%Z ->
     result (generateThumbnails w analysis options) tr = inl NoThumbnailsGenerated).
Proof.
  assert (Hneg : forall c, count options = Some c -> (c < 0)%Z ->
            attempted analysis options
            = firstn (length (thumbnailConcepts analysis) - Z.to_nat (- c))
                     (thumbnailConcepts analysis)).
  { intros c Hc Hlt. unfold attempted, requestedCount, slice0. rewrite Hc.
    replace (c =? 0)%Z with false by (symmetry; apply Z.eqb_neq; lia).
    set (len := Z.of_nat (length (thumbnailConcepts analysis))).
    replace (Z.min c len) with c by lia.
    replace (c <? 0)%Z with true by (symmetry; apply Z.ltb_lt; lia).
    f_equal. unfold len. lia. }
  split_all.
  - apply slice0_prefix.
  - exact Hneg.
  - intros c w tr Hc Hlt Hlen. rewrite generateThumbnails_result.
    rewrite (Hneg c Hc Hlt).
    replace (length (thumbnailConcepts analysis) - Z.to_nat (- c))%nat with 0%nat by lia.
    reflexivity.
Qed.

End GeneratorProperties.

Module GenerateRouteFacts.
Import OpenRouter ThumbnailGenerator CustomThumbnail GenerateRoute.
Import Generation Completion ProviderFacts Endpoints GenerationFacts.

Lemma generateCustomThumbnail_run w prompt options tr :
  generateCustomThumbnail w prompt options tr =
  (match generation w (calls tr) (customPrompt prompt) (customImageOptions options) with
   | inl e => inl e
   | inr r =>
       inr (customThumbnail
              (Date_now w (calls tr + if has_key w then 1 else 0)) prompt r)
   end,
   afterRequest w tr
     (fun k => imageRequest k (customPrompt prompt) (customImageOptions options))).
Proof.
  unfold generateCustomThumbnail. rewrite bind_run, generateImage_after.
  destruct (generation w (calls tr) _ _) as [e|r]; [reflexivity|].
  rewrite bind_run. unfold now, ret. now rewrite afterRequest_calls.
Qed.

(** The answer of the handler of the generation endpoint to the outcome
    of a generation. *)
Lemma POST_custom w body tr :
  opt_truthy (body_customPrompt body) = true ->
  POST w (inr body) tr =
  match generateCustomThumbnail w (nullish (body_customPrompt body) [])
                                (customOptions body) tr with
  | (inr t, tr') =>
      (inr {| http_status := 200;
              http_body := BodyThumbnails [responseThumbnail t] |}, tr')
  | (inl e, tr') =>
      (inr {| http_status := 500; http_body := BodyError (error_message e) |},
       tr' ++ [EvConsoleError (js "Generation error:") (Some e)])
  end.
Proof.
  intros Hp. unfold POST, try_catch. rewrite bind_run. unfold builtin, lift.
  cbn [raising]. rewrite Hp.
  assert (E : forall (m : M NextResponse),
             match body_analysis body with
             | Some _ => m
             | None => m
             end = m) by (intros m; now destruct (body_analysis body)).
  rewrite E, bind_run.
  destruct (generateCustomThumbnail w _ _ tr) as [[e|t] tr']; reflexivity.
Qed.

Lemma POST_analysis w body analysis tr :
  opt_truthy (body_customPrompt body) = false ->
  body_analysis body = Some analysis ->
  POST w (inr body) tr =
  match generateThumbnails w analysis (generateOptions body) tr with
  | (inr ts, tr') =>
      (inr {| http_status := 200;
              http_body := BodyThumbnails (map responseThumbnail ts) |}, tr')
  | (inl e, tr') =>
      (inr {| http_status := 500; http_body := BodyError (error_message e) |},
       tr' ++ [EvConsoleError (js "Generation error:") (Some e)])
  end.
Proof.
  intros Hp Ha. unfold POST, try_catch. rewrite bind_run. unfold builtin, lift.
  cbn [raising]. rewrite Hp, Ha, bind_run.
  destruct (generateThumbnails w analysis _ tr) as [[e|ts] tr']; reflexivity.
Qed.

Lemma POST_neither w body tr :
  opt_truthy (body_customPrompt body) = false ->
  body_analysis body = None ->
  POST w (inr body) tr
  = (inr {| http_status := 400;
            http_body := BodyError (js "Please provide video analysis or a custom prompt") |},
     tr).
Proof.
  intros Hp Ha. unfold POST, try_catch. rewrite bind_run. unfold builtin, lift.
  cbn [raising]. now rewrite Hp, Ha.
Qed.

Lemma generate_POST_unreadable w f tr :
  POST w (inl f) tr
  = (inr {| http_status := 500; http_body := BodyError (failure_message f) |},
     tr ++ [EvConsoleError (js "Generation error:") (Some (thrown f))]).
Proof. reflexivity. Qed.

Lemma generateThumbnails_nonempty w analysis options tr ts tr' :
  generateThumbnails w analysis options tr = (inr ts, tr') -> ts <> [].
Proof.
  intros H. pose proof (generateThumbnails_result w analysis options tr) as R.
  unfold result in R. rewrite H in R. cbn [fst] in R.
  destruct (successes w analysis options (calls tr) (attempted analysis options));
    [discriminate|]. injection R as ->. discriminate.
Qed.

Lemma generateThumbnails_sizes w analysis options tr ts tr' t :
  generateThumbnails w analysis options tr = (inr ts, tr') -> In t ts ->
  width t = 1280%N /\ height t = 720%N.
Proof.
  intros H Hin. pose proof (generateThumbnails_result w analysis options tr) as R.
  unfold result in R. rewrite H in R. cbn [fst] in R.
  destruct (successes w analysis options (calls tr) (attempted analysis options))
    as [|t0 good] eqn:E; [discriminate|]. injection R as ->.
  rewrite <- E in Hin.
  apply GeneratorFacts.successes_render in Hin as (i & c & _ & Hr & _).
  destruct Hr as (Hw & Hh & _). auto.
Qed.

Lemma responseThumbnail_inj t t' : responseThumbnail t = responseThumbnail t' -> t = t'.
Proof.
  destruct t, t'. unfold responseThumbnail. cbn.
  intros H. injection H as -> -> -> -> -> ->. reflexivity.
Qed.

Lemma responseThumbnails_inj ts ts' :
  map responseThumbnail ts = map responseThumbnail ts' -> ts = ts'.
Proof.
  revert ts'. induction ts as [|t ts IH]; intros [|t' ts']; simpl;
    try discriminate; [reflexivity|].
  intros H.
  assert (Ht : responseThumbnail t = responseThumbnail t') by congruence.
  assert (Hts : map responseThumbnail ts = map responseThumbnail ts') by congruence.
  f_equal; [now apply responseThumbnail_inj | now apply IH].
Qed.

Lemma requestedCount_route body :
  requestedCount (generateOptions body) = requestedCount (passedOptions body).
Proof.
  unfold requestedCount, generateOptions, passedOptions, countOrDefault. cbn [count].
  destruct (body_count body) as [c|]; [|reflexivity].
  destruct (c =? 0)%Z eqn:E; [reflexivity|]. now rewrite E.
Qed.

End GenerateRouteFacts.

Module GenerateRouteProperties.
Import OpenRouter ThumbnailGenerator CustomThumbnail GenerateRoute.
Import Generation Completion ProviderFacts Endpoints GenerationFacts GenerateRouteFacts.
Import ImageShapes.

(** X17: the generation endpoint always answers.  Its handler never
    throws: the status is 200, 400 or 500.  It is 400 exactly when the
    body has neither an analysis nor a custom prompt, and nothing is
    called or logged then.  A 200 carries at least one thumbnail, each
    1280x720 with an image labelled as a PNG data URL.  A 500 carries the
    message of the error, which is logged. *)
Theorem generate_route_responds (w : World) (request : NextRequest) (tr : list Event) :
  exists resp,
    POST w request tr = (inr resp, trace_after (POST w request) tr) /\
    (http_status resp = 200 \/ http_status resp = 400 \/ http_status resp = 500)%N /\
    (http_status resp = 400%N <->
     exists body, request = inr body /\ body_analysis body = None /\
                  opt_truthy (body_customPrompt body) = false) /\
    (http_status resp = 400%N -> trace_after (POST w request) tr = tr) /\
    (http_status resp = 200%N ->
     exists thumbnails,
       http_body resp = BodyThumbnails thumbnails /\ thumbnails <> [] /\
       forall t, In t thumbnails ->
         out_width t = 1280%N /\ out_height t = 720%N /\
         exists payload, imageDataUrl t = js "data:image/png;base64," ++ payload) /\
    (http_status resp = 500%N ->
     exists e before,
       http_body resp = BodyError (error_message e) /\
       trace_after (POST w request) tr
       = before ++ [EvConsoleError (js "Generation error:") (Some e)]).
Proof.
  unfold trace_after.
  destruct request as [f|body].
  { rewrite generate_POST_unreadable. eexists. split; [reflexivity|].
    cbn [fst snd http_status http_body]. split_all; try discriminate.
    - right. now right.
    - split; [discriminate | intros (body & [=] & _)].
    - intros _. exists (thrown f), tr. split; reflexivity. }
  destruct (opt_truthy (body_customPrompt body)) eqn:Hp.
  - rewrite (POST_custom w body tr Hp), generateCustomThumbnail_run.
    destruct (generation w (calls tr) _ _) as [e|r].
    + eexists. split; [reflexivity|]. cbn [fst snd http_status http_body].
      split_all; try discriminate.
      * right. now right.
      * split; [discriminate | intros (body' & E & _ & H); injection E as <-; congruence].
      * intros _. eexists. eexists. split; reflexivity.
    + eexists. split; [reflexivity|]. cbn [fst snd http_status http_body].
      split_all; try discriminate.
      * now left.
      * split; [discriminate | intros (body' & E & _ & H); injection E as <-; congruence].
      * intros _. eexists. split; [reflexivity|]. split; [discriminate|].
        intros t' [<-|[]]. split_all; try reflexivity.
        eexists. reflexivity.
  - destruct (body_analysis body) as [analysis|] eqn:Ha.
    + rewrite (POST_analysis w body analysis tr Hp Ha).
      destruct (generateThumbnails w analysis (generateOptions body) tr)
        as [[e|ts] tr'] eqn:Hg.
      * eexists. split; [reflexivity|]. cbn [fst snd http_status http_body].
        split_all; try discriminate.
        -- right. now right.
        -- split; [discriminate
                  | intros (body' & E & H & _); injection E as <-; congruence].
        -- intros _. exists e, tr'. split; reflexivity.
      * eexists. split; [reflexivity|]. cbn [fst snd http_status http_body].
        split_all; try discriminate.
        -- now left.
        -- split; [discriminate
                  | intros (body' & E & H & _); injection E as <-; congruence].
        -- intros _. eexists. split; [reflexivity|]. split.
           ++ pose proof (generateThumbnails_nonempty _ _ _ _ _ _ Hg) as Hne.
              destruct ts; [congruence | discriminate].
           ++ intros t' Hin. apply in_map_iff in Hin as (t & <- & Hin).
              destruct (generateThumbnails_sizes _ _ _ _ _ _ t Hg Hin) as [Hw Hh].
              cbn [responseThumbnail out_width out_height imageDataUrl].
              split_all; [exact Hw | exact Hh | eexists; reflexivity].
    + rewrite (POST_neither w body tr Hp Ha). eexists. split; [reflexivity|].
      cbn [fst snd http_status http_body]. split_all; try discriminate.
      * right. now left.
      * split; [intros _; exists body; auto | reflexivity].
      * reflexivity.
Qed.

(** X18: what the generation endpoint answers without an API key.  With
    a custom prompt the 500 names the missing key; with an analysis it
    only says that no thumbnail could be generated, the cause having been
    swallowed by the generator.  Nothing is sent in either case. *)
Theorem generate_route_without_key (w : World) (body : RequestBody) (tr : list Event) :
  has_key w = false ->
  (opt_truthy (body_customPrompt body) = true ->
   result (POST w (inr body)) tr
   = inr {| http_status := 500;
            http_body := BodyError (js "OPENROUTER_API_KEY not set") |}) /\
  (opt_truthy (body_customPrompt body) = false ->
   body_analysis body <> None ->
   result (POST w (inr body)) tr
   = inr {| http_status := 500;
            http_body :=
              BodyError (js "Failed to generate any thumbnails. Please try again.") |}) /\
  calls (trace_after (POST w (inr body)) tr) = calls tr.
Proof.
  intros Hk. unfold result, trace_after.
  destruct (opt_truthy (body_customPrompt body)) eqn:Hp.
  - rewrite (POST_custom w body tr Hp), generateCustomThumbnail_run.
    rewrite generation_no_key by exact Hk. unfold afterRequest. rewrite Hk.
    cbn [fst snd]. split_all; [reflexivity | discriminate |].
    rewrite calls_snoc. cbn [is_external]. lia.
  - destruct (body_analysis body) as [analysis|] eqn:Ha.
    + rewrite (POST_analysis w body analysis tr Hp Ha).
      rewrite (GeneratorFacts.generateThumbnails_no_key
                 w analysis (generateOptions body) tr Hk).
      cbn [fst snd]. split_all; [discriminate | reflexivity |].
      rewrite calls_snoc, GeneratorFacts.calls_logs by reflexivity.
      cbn [is_external]. lia.
    + rewrite (POST_neither w body tr Hp Ha). cbn [fst snd].
      split_all; [discriminate | congruence | reflexivity].
Qed.

Lemma generate_route_without_key_witness :
  result (POST Sources.deadWorld (inr (promptBody (js "a fox at dawn")))) []
  = inr {| http_status := 500;
           http_body := BodyError (js "OPENROUTER_API_KEY not set") |} /\
  result (POST Sources.deadWorld (inr (analysisBody sampleAnalysis None))) []
  = inr {| http_status := 500;
           http_body :=
             BodyError (js "Failed to generate any thumbnails. Please try again.") |}.
Proof.
  split.
  - exact (proj1 (generate_route_without_key Sources.deadWorld
                    (promptBody (js "a fox at dawn")) [] eq_refl) eq_refl).
  - refine (proj1 (proj2 (generate_route_without_key Sources.deadWorld
                            (analysisBody sampleAnalysis None) [] eq_refl)) eq_refl _).
    discriminate.
Defined.


(** X19: a custom prompt takes precedence.  When the body carries a
    custom prompt, the analysis, the count and the face description are
    not read: the answer is that of the same body without them.  At most
    one request is sent, and a 200 carries exactly one thumbnail, whose
    concept is the prompt itself and whose overlay is empty. *)
Theorem generate_route_custom_prompt
        (w : World) (body : RequestBody) (prompt : jsstring) (tr : list Event) :
  body_customPrompt body = Some prompt -> prompt <> [] ->
  POST w (inr body) tr = POST w (inr (customOnly body)) tr /\
  (calls (trace_after (POST w (inr body)) tr) <= calls tr + 1)%nat /\
  (forall resp, result (POST w (inr body)) tr = inr resp ->
     http_status resp = 200%N ->
     exists t, http_body resp = BodyThumbnails [t] /\
               c_description (out_concept t) = prompt /\
               out_textOverlay t = [] /\
               c_textOverlay (out_concept t) = []).
Proof.
  intros Hb Hne.
  assert (Hp : opt_truthy (body_customPrompt body) = true)
    by (rewrite Hb; now destruct prompt).
  assert (Hp' : opt_truthy (body_customPrompt (customOnly body)) = true) by exact Hp.
  rewrite (POST_custom w body tr Hp), (POST_custom w (customOnly body) tr Hp').
  split_all.
  - reflexivity.
  - unfold trace_after. rewrite (POST_custom w body tr Hp), generateCustomThumbnail_run.
    destruct (generation w (calls tr) _ _) as [e|r]; cbn [snd];
      rewrite ?calls_snoc, afterRequest_calls; cbn [is_external];
      destruct (has_key w); lia.
  - intros resp. unfold result.
    rewrite (POST_custom w body tr Hp), generateCustomThumbnail_run, Hb.
    cbn [nullish].
    destruct (generation w (calls tr) _ _) as [e|r]; cbn [fst].
    + intros [= <-]. discriminate.
    + intros [= <-] _. eexists. split; [reflexivity|]. split_all; reflexivity.
Qed.

Lemma generate_route_custom_prompt_witness :
  POST (providerWorld sideMessage)
       (inr {| body_analysis := Some sampleAnalysis;
               body_customPrompt := Some (js "a fox at dawn");
               body_faceImageBase64 := None; body_faceImages := None;
               body_faceDescription := Some (js "a tall man");
               body_model := None; body_count := Some 3%Z |}) []
  = POST (providerWorld sideMessage) (inr (promptBody (js "a fox at dawn"))) [].
Proof.
  refine (proj1 (generate_route_custom_prompt (providerWorld sideMessage)
                   {| body_analysis := Some sampleAnalysis;
                      body_customPrompt := Some (js "a fox at dawn");
                      body_faceImageBase64 := None; body_faceImages := None;
                      body_faceDescription := Some (js "a tall man");
                      body_model := None; body_count := Some 3%Z |}
                   (js "a fox at dawn") [] eq_refl _)).
  vm_compute. discriminate.
Defined.

(** X20: the endpoint labels every image as PNG.  When the provider
    answers a custom prompt with a data URL of any image type, [jpeg]
    for one, in the side channel or as an inline part, the thumbnail of
    the response carries the same payload under the header
    [data:image/png;base64,], and stripping that header gives the payload
    back. *)
Theorem generate_route_relabels_image
        (w : World) (body : RequestBody) (prompt apiKey : jsstring) (tr : list Event)
        (response : Response) (data : JsonData) (m : ResponseMessage)
        (fmt payload : jsstring) :
  body_customPrompt body = Some prompt -> prompt <> [] ->
  OPENROUTER_API_KEY w = Some apiKey -> apiKey <> [] ->
  fetch w (calls tr)
        (imageRequest apiKey (customPrompt prompt) (customImageOptions (customOptions body)))
  = inr response ->
  ok response = true -> json response = inr data ->
  first_message data = inr (Some m) ->
  fmt <> [] -> forallb is_word fmt = true ->
  let u := js "data:image/" ++ fmt ++ js ";base64," ++ payload in
  first_side_url m = Some u \/
  (first_side_url m = None /\
   exists parts p, content m = ContentParts parts /\
                   find is_image_part parts = Some p /\ part_url p = Some u) ->
  exists t,
    result (POST w (inr body)) tr
    = inr {| http_status := 200; http_body := BodyThumbnails [t] |} /\
    imageDataUrl t = js "data:image/png;base64," ++ payload /\
    strip_data_url (imageDataUrl t) = payload.
Proof.
  intros Hb Hne Hk Hkne Hf Hok Hj Hm Hfmt Hw u Hshape.
  assert (Hp : opt_truthy (body_customPrompt body) = true)
    by (rewrite Hb; now destruct prompt).
  assert (Ht : truthy apiKey = true) by now destruct apiKey.
  assert (Hu : truthy u = true) by reflexivity.
  assert (Himg : exists rp, imageOfMessage m
                            = inr {| imageBase64 := payload; revisedPrompt := rp |}).
  { destruct Hshape as [Hs|(Hs & parts & p & Hc & Hfind & Hpu)].
    - rewrite (ImageFacts.imageOfMessage_side m u Hs).
      unfold u. rewrite (ImageFacts.strip_data_url_prefix fmt payload Hfmt Hw).
      eexists. reflexivity.
    - rewrite (ImageFacts.imageOfMessage_inline m Hs).
      unfold OpenRouterLegacy.imageOfContent. rewrite Hc, Hfind, Hpu, Hu.
      unfold u. rewrite (ImageFacts.strip_data_url_prefix fmt payload Hfmt Hw).
      eexists. reflexivity. }
  destruct Himg as [rp Himg].
  unfold result. rewrite (POST_custom w body tr Hp), generateCustomThumbnail_run, Hb.
  cbn [nullish]. unfold generation. rewrite Hk, Ht, Hf. cbn [raising].
  unfold imageOfResponse. rewrite Hok, Hj. cbn [negb raising]. rewrite Hm, Himg.
  cbn [fst]. eexists. split; [reflexivity|].
  cbn [responseThumbnail imageDataUrl customThumbnail thumb_imageBase64 imageBase64].
  split; [reflexivity|].
  apply (ImageFacts.strip_data_url_prefix (js "png") payload); [discriminate | reflexivity].
Qed.

Lemma generate_route_relabels_image_witness :
  exists t,
    result (POST (providerWorld jpegMessage) (inr (promptBody (js "a fox at dawn")))) []
    = inr {| http_status := 200; http_body := BodyThumbnails [t] |} /\
    imageDataUrl t = js "data:image/png;base64,/9j/4AAQSkZJRg==" /\
    strip_data_url (imageDataUrl t) = js "/9j/4AAQSkZJRg==".
Proof.
  refine (generate_route_relabels_image (providerWorld jpegMessage)
            (promptBody (js "a fox at dawn")) (js "a fox at dawn") (js "sk-or-test") []
            (Sources.okResponse (dataOf jpegMessage)) (dataOf jpegMessage) jpegMessage
            (js "jpeg") (js "/9j/4AAQSkZJRg==")
            eq_refl _ eq_refl _ eq_refl eq_refl eq_refl eq_refl _ eq_refl _);
    try (vm_compute; discriminate).
  left. vm_compute. reflexivity.
Defined.

(** X21: the default count of the endpoint adds nothing to that of the
    generator.  The endpoint replaces an absent or zero count by 4
    before the generator does the same, so that with an analysis the
    answer is the one that the generator gives for the count of the body
    passed on as it is; an absent count and a count of 0 both attempt the
    first four concepts. *)
Theorem generate_route_count
        (w : World) (body : RequestBody) (analysis : VideoAnalysis) (tr : list Event) :
  opt_truthy (body_customPrompt body) = false ->
  body_analysis body = Some analysis ->
  generateThumbnails w analysis (generateOptions body) tr
  = generateThumbnails w analysis (passedOptions body) tr /\
  (body_count body = None \/ body_count body = Some 0%Z ->
   attempted analysis (generateOptions body) = firstn 4 (thumbnailConcepts analysis)) /\
  (forall ts, result (POST w (inr body)) tr
              = inr {| http_status := 200;
                       http_body := BodyThumbnails (map responseThumbnail ts) |} <->
              result (generateThumbnails w analysis (passedOptions body)) tr = inr ts).
Proof.
  intros Hp Ha.
  assert (Hatt : attempted analysis (generateOptions body)
                 = attempted analysis (passedOptions body)).
  { unfold attempted. now rewrite requestedCount_route. }
  assert (E : generateThumbnails w analysis (generateOptions body) tr
              = generateThumbnails w analysis (passedOptions body) tr).
  { unfold generateThumbnails. rewrite Hatt.
    rewrite !bind_run.
    rewrite <- (generateLoop_without_count w analysis (generateOptions body)).
    rewrite <- (generateLoop_without_count w analysis (passedOptions body)).
    reflexivity. }
  split_all.
  - exact E.
  - intros Hc. unfold attempted, requestedCount, generateOptions, countOrDefault.
    cbn [count].
    assert (H4 : match body_count body with
                 | Some c => if (c =? 0)%Z then 4%Z else c
                 | None => 4%Z
                 end = 4%Z) by (destruct Hc as [-> | ->]; reflexivity).
    rewrite H4. cbn [Z.eqb]. unfold slice0.
    set (len := Z.of_nat (length (thumbnailConcepts analysis))).
    assert (Hmin : (0 <= Z.min 4 len)%Z) by (unfold len; lia).
    replace (Z.min 4 len <? 0)%Z with false by (symmetry; apply Z.ltb_ge; exact Hmin).
    replace (Z.min (Z.min 4 len) len) with (Z.min 4 len) by lia.
    destruct (Z.le_ge_cases 4 len) as [Hl|Hl].
    + replace (Z.min 4 len) with 4%Z by lia. reflexivity.
    + replace (Z.min 4 len) with len by lia. unfold len. rewrite Nat2Z.id.
      rewrite firstn_all. symmetry. apply firstn_all2. unfold len in Hl. lia.
  - intros ts. unfold result. rewrite (POST_analysis w body analysis tr Hp Ha), E.
    destruct (generateThumbnails w analysis (passedOptions body) tr) as [[e|ts'] tr'];
      cbn [fst].
    + split; discriminate.
    + split.
      * intros H. injection H as H. f_equal. now apply responseThumbnails_inj.
      * now intros [= ->].
Qed.

Lemma generate_route_count_witness :
  attempted sampleAnalysis (generateOptions (analysisBody sampleAnalysis (Some 0%Z)))
  = thumbnailConcepts sampleAnalysis.
Proof.
  exact (proj1 (proj2 (generate_route_count Sources.deadWorld
                         (analysisBody sampleAnalysis (Some 0%Z)) sampleAnalysis []
                         eq_refl eq_refl)) (or_intror eq_refl)).
Defined.

End GenerateRouteProperties.

Module AnalyzeRouteProperties.
Import OpenRouter VideoAnalyzer DescriptionAnalyzer AnalyzeRoute.
Import Generation Completion ProviderFacts AnalyzerFacts RouteBodies.

Lemma POST_analyzer w body tr :
  opt_truthy (youtubeUrl body) || opt_truthy (description body) = true ->
  POST w (inr body) tr =
  match (if opt_truthy (youtubeUrl body)
         then analyzeVideo w (nullish (youtubeUrl body) [])
         else analyzeDescription w (nullish (description body) [])) tr with
  | (inr analysis, tr') =>
      (inr {| http_status := 200; http_body := BodyAnalysis analysis |}, tr')
  | (inl e, tr') =>
      (inr {| http_status := 500; http_body := BodyError (error_message e) |},
       tr' ++ [EvConsoleError (js "Analysis error:") (Some e)])
  end.
Proof.
  intros H. unfold POST, try_catch. rewrite bind_run. unfold builtin, lift.
  cbn [raising].
  assert (E : negb (opt_truthy (youtubeUrl body)) && negb (opt_truthy (description body))
              = false).
  { destruct (opt_truthy (youtubeUrl body)), (opt_truthy (description body));
      try reflexivity; discriminate. }
  rewrite E, bind_run.
  match goal with
  | |- context [match ?m tr with _ => _ end] => destruct (m tr) as [[e|a] tr']
  end; reflexivity.
Qed.

Lemma POST_missing w body tr :
  opt_truthy (youtubeUrl body) || opt_truthy (description body) = false ->
  POST w (inr body) tr
  = (inr {| http_status := 400;
            http_body := BodyError (js "Please provide a YouTube URL or video description") |},
     tr).
Proof.
  intros H. apply orb_false_iff in H as [H1 H2].
  unfold POST, try_catch. rewrite bind_run. unfold builtin, lift.
  cbn [raising]. now rewrite H1, H2.
Qed.

(** X22: the analysis endpoint always answers.  Its handler never
    throws: the status is 200, 400 or 500.  It is 400 exactly when the
    body has neither a URL nor a description, before anything is called.
    A URL takes precedence: the description is then not read, also when
    the URL is not a YouTube one.  A 500 carries the message of the
    error, which is logged; and without an API key the answer is never
    a 200. *)
Theorem analyze_route_responds (w : World) (request : NextRequest) (tr : list Event) :
  (forall body, request = inr body -> opt_truthy (youtubeUrl body) = true ->
                POST w request tr = POST w (inr (urlOnly body)) tr) /\
  exists resp,
    POST w request tr = (inr resp, trace_after (POST w request) tr) /\
    (http_status resp = 200 \/ http_status resp = 400 \/ http_status resp = 500)%N /\
    (http_status resp = 400%N <->
     exists body, request = inr body /\ opt_truthy (youtubeUrl body) = false /\
                  opt_truthy (description body) = false) /\
    (http_status resp = 400%N -> trace_after (POST w request) tr = tr) /\
    (http_status resp = 500%N ->
     exists e before,
       http_body resp = BodyError (error_message e) /\
       trace_after (POST w request) tr
       = before ++ [EvConsoleError (js "Analysis error:") (Some e)]) /\
    (has_key w = false -> http_status resp <> 200%N).
Proof.
  split.
  { intros body -> Hu.
    assert (Hb : opt_truthy (youtubeUrl body) || opt_truthy (description body) = true)
      by (now rewrite Hu).
    assert (Hb' : opt_truthy (youtubeUrl (urlOnly body))
                  || opt_truthy (description (urlOnly body)) = true)
      by (cbn [urlOnly youtubeUrl]; now rewrite Hu).
    rewrite (POST_analyzer w body tr Hb), (POST_analyzer w (urlOnly body) tr Hb').
    cbn [urlOnly youtubeUrl]. rewrite Hu. reflexivity. }
  unfold trace_after.
  destruct request as [f|body].
  { exists {| http_status := 500; http_body := BodyError (failure_message f) |}.
    split; [reflexivity|]. cbn [fst snd http_status http_body].
    split; [right; now right|].
    split; [split; [discriminate | intros (body & E & _); discriminate E]|].
    split; [discriminate|].
    split; [|discriminate].
    intros _. exists (thrown f), tr. split; reflexivity. }
  destruct (opt_truthy (youtubeUrl body) || opt_truthy (description body)) eqn:Hb.
  - assert (Hnot400 : ~ exists body', @inr Failure _ body = inr body' /\
                                      opt_truthy (youtubeUrl body') = false /\
                                      opt_truthy (description body') = false).
    { intros (body' & E & H1 & H2). injection E as <-.
      rewrite H1, H2 in Hb. discriminate. }
    assert (Hnokey : has_key w = false ->
              forall a tr',
                (if opt_truthy (youtubeUrl body)
                 then analyzeVideo w (nullish (youtubeUrl body) [])
                 else analyzeDescription w (nullish (description body) [])) tr
                <> (inr a, tr')).
    { intros Hk a tr' H. destruct (opt_truthy (youtubeUrl body)).
      - destruct (analyzeVideo_run w (nullish (youtubeUrl body) []) tr)
          as (t & md & tr2 & _ & Hrun).
        rewrite Hrun in H.
        destruct (negb (truthy t) && negb (truthy (title md))); [discriminate H|].
        rewrite completion_no_key in H by exact Hk. discriminate H.
      - rewrite analyzeDescription_run, completion_no_key in H by exact Hk.
        discriminate H. }
    rewrite (POST_analyzer w body tr Hb).
    set (run := (if opt_truthy (youtubeUrl body)
                 then analyzeVideo w (nullish (youtubeUrl body) [])
                 else analyzeDescription w (nullish (description body) [])) tr) in *.
    destruct run as [[e|a] tr'] eqn:Hm.
    + exists {| http_status := 500; http_body := BodyError (error_message e) |}.
      split; [reflexivity|]. cbn [fst snd http_status http_body].
      split; [right; now right|].
      split; [split; [discriminate | intros H; now elim Hnot400]|].
      split; [discriminate|].
      split; [|discriminate].
      intros _. exists e, tr'. split; reflexivity.
    + exists {| http_status := 200; http_body := BodyAnalysis a |}.
      split; [reflexivity|]. cbn [fst snd http_status http_body].
      split; [now left|].
      split; [split; [discriminate | intros H; now elim Hnot400]|].
      split; [discriminate|].
      split; [discriminate|].
      intros Hk _. exact (Hnokey Hk a tr' eq_refl).
  - rewrite (POST_missing w body tr Hb).
    eexists. split; [reflexivity|]. cbn [fst snd http_status http_body].
    pose proof Hb as Hb'. apply orb_false_iff in Hb' as [H1 H2].
    split; [right; now left|].
    split; [split; [intros _; exists body; auto | reflexivity]|].
    split; [reflexivity|].
    split; discriminate.
Qed.

End AnalyzeRouteProperties.

Module SuggestionsRouteProperties.
Import OpenRouter TextSuggestionsRoute.
Import Generation Completion ProviderFacts RouteBodies.

Lemma POST_suggest w body tr :
  opt_truthy (topic body) = true ->
  POST w (inr body) tr =
  let tr' := afterRequest w tr
               (fun k => completionRequest k (suggestionsMessages body) suggestionsOptions) in
  match completion w (calls tr) (suggestionsMessages body) suggestionsOptions with
  | inl e =>
      (inr {| http_status := 500; http_body := BodyError fixedMessage |},
       tr' ++ [EvConsoleError (js "Text suggestion error:") (Some e)])
  | inr text =>
      match JSON_parse w (VideoAnalyzer.strip_fences text) with
      | inl f =>
          (inr {| http_status := 500; http_body := BodyError fixedMessage |},
           tr' ++ [EvConsoleError (js "Text suggestion error:") (Some (thrown f))])
      | inr v =>
          (inr {| http_status := 200; http_body := BodySuggestions v |}, tr')
      end
  end.
Proof.
  intros Ht. unfold POST, try_catch, fixedMessage.
  rewrite bind_run. unfold builtin at 1, lift.
  cbn [raising]. rewrite Ht. cbn [negb].
  rewrite bind_run, textCompletion_outcome. cbv zeta.
  destruct (completion w (calls tr) _ _) as [e|text]; [reflexivity|].
  rewrite bind_run. unfold builtin, lift.
  destruct (JSON_parse w _) as [f|v]; reflexivity.
Qed.

Lemma POST_no_topic w body tr :
  opt_truthy (topic body) = false ->
  POST w (inr body) tr
  = (inr {| http_status := 400; http_body := BodyError (js "Please provide a topic") |}, tr).
Proof.
  intros Ht. unfold POST, try_catch. rewrite bind_run. unfold builtin, lift.
  cbn [raising]. now rewrite Ht.
Qed.

Lemma suggest_POST_unreadable w f tr :
  POST w (inl f) tr
  = (inr {| http_status := 500;
            http_body := BodyError (js "Failed to generate text suggestions") |},
     tr ++ [EvConsoleError (js "Text suggestion error:") (Some (thrown f))]).
Proof. reflexivity. Qed.

(** X23: the suggestion endpoint always answers, and never says why it
    failed.  Its handler never throws: the status is 200, 400 or 500.
    It is 400 exactly when the topic is missing, before anything is
    called.  Every failure, a missing API key, an error of the provider
    or a text that is not JSON, gives a 500 with one fixed message: the
    error is logged but its message is not in the response.  A 200
    carries the parsed completion; at most one request is sent. *)
Theorem suggestions_route_responds
        (w : World) (request : NextRequest) (tr : list Event) :
  exists resp,
    POST w request tr = (inr resp, trace_after (POST w request) tr) /\
    (http_status resp = 200 \/ http_status resp = 400 \/ http_status resp = 500)%N /\
    (http_status resp = 400%N <->
     exists body, request = inr body /\ opt_truthy (topic body) = false) /\
    (http_status resp = 400%N -> trace_after (POST w request) tr = tr) /\
    (http_status resp = 500%N ->
     http_body resp = BodyError fixedMessage /\
     exists e before,
       trace_after (POST w request) tr
       = before ++ [EvConsoleError (js "Text suggestion error:") (Some e)]) /\
    (http_status resp = 200%N ->
     exists body text v,
       request = inr body /\
       completion w (calls tr) (suggestionsMessages body) suggestionsOptions = inr text /\
       JSON_parse w (VideoAnalyzer.strip_fences text) = inr v /\
       http_body resp = BodySuggestions v) /\
    (has_key w = false -> http_status resp <> 200%N) /\
    (calls (trace_after (POST w request) tr) <= calls tr + 1)%nat.
Proof.
  unfold fixedMessage.
  unfold trace_after.
  destruct request as [f|body].
  { rewrite suggest_POST_unreadable.
    eexists. split; [reflexivity|]. cbn [fst snd http_status http_body].
    split_all; try discriminate.
    - right. now right.
    - split; [discriminate | intros (body & [=] & _)].
    - intros _. split; [reflexivity|]. exists (thrown f), tr. reflexivity.
    - rewrite calls_snoc. cbn [is_external]. lia. }
  destruct (opt_truthy (topic body)) eqn:Ht.
  - rewrite (POST_suggest w body tr Ht). cbv zeta.
    destruct (completion w (calls tr) _ _) as [e|text] eqn:Ec.
    + eexists. split; [reflexivity|]. cbn [fst snd http_status http_body].
      split_all; try discriminate.
      * right. now right.
      * split; [discriminate | intros (b & E & H); injection E as <-; congruence].
      * intros _. split; [reflexivity|]. eexists. eexists. reflexivity.
      * rewrite calls_snoc, afterRequest_calls. cbn [is_external].
        destruct (has_key w); lia.
    + destruct (JSON_parse w _) as [f|v] eqn:Ej.
      * eexists. split; [reflexivity|]. cbn [fst snd http_status http_body].
        split_all; try discriminate.
        -- right. now right.
        -- split; [discriminate | intros (b & E & H); injection E as <-; congruence].
        -- intros _. split; [reflexivity|]. eexists. eexists. reflexivity.
        -- rewrite calls_snoc, afterRequest_calls. cbn [is_external].
           destruct (has_key w); lia.
      * eexists. split; [reflexivity|]. cbn [fst snd http_status http_body].
        split_all; try discriminate.
        -- now left.
        -- split; [discriminate | intros (b & E & H); injection E as <-; congruence].
        -- intros _. exists body, text, v. auto.
        -- intros Hk. rewrite completion_no_key in Ec by exact Hk. discriminate.
        -- rewrite afterRequest_calls. destruct (has_key w); lia.
  - rewrite (POST_no_topic w body tr Ht). eexists. split; [reflexivity|].
    cbn [fst snd http_status http_body]. split_all; try discriminate.
    + right. now left.
    + split; [intros _; exists body; auto | reflexivity].
    + reflexivity.
    + lia.
Qed.

End SuggestionsRouteProperties.
